(** * node-docker-toolbox: a shallow embedding of [src/util.ts] and [src/index.ts]

    The first part of the development follows the TypeScript sources:

    - [JS]       the fragment of JavaScript values and string primitives the
                 sources rely on ([typeof], truthiness, [toString], [join],
                 [indexOf], [substr], [substring], [for ... in]);
    - [Util]     [optionsToArgs] of [src/util.ts];
    - [Toolbox]  [_spawnDockerToolbox] and its completion promise;
    - [Lines]    the [chunkHandler] closure of [LineReadStream._read];
    - [JSON]     a reference reader for [JSON.parse];
    - [Machine]  the [DockerMachine] facade ([env], [get], [refreshEnv]);
    - [Compose]  the [DockerCompose] facade ([_spawn], [_serviceCommandSpawn],
                 the dispatched operations, [exec], [run], [events]);
    - [Spec]     the vocabulary of the specification;
    - [JSOps], [ComposeOps], [MachineOps]
                 the [in] operator and [trim], the constructor, [kill], [rm]
                 and [version] of [DockerCompose], and [DockerMachine.create];
    - [Vocabulary]  the vocabulary of the further properties.

    The second part states and proves the properties, component by
    component.

    Modelling conventions.  A JavaScript string is a sequence of code units;
    the model keeps the code units below 256 (one [ascii] each).  A JavaScript
    number is [NaN], an infinity, the negative zero, a safe integer, or any
    other double, which is kept as the text [toString] prints for it.  An
    object is an ordinary object, given by the list of its own enumerable
    properties in [for ... in] order; no value is callable, so that the
    conversion of an object to a string throws when the object has a
    property named [toString].  A function that may throw returns a
    [completion].
    A child process is the list of the events it emits; a loop that may not
    end takes the number of iterations it is allowed. *)

From Stdlib Require Import String Ascii List ZArith Lia Bool.
From Stdlib Require Import DecimalString DecimalZ DecimalPos.
Import ListNotations.
Set Warnings "-register-all".
Local Open Scope string_scope.
Local Open Scope Z_scope.

(* ===================================================================== *)
(** * JavaScript values and primitives                                     *)
(* ===================================================================== *)

Module JS.

(** The largest integer [n] such that [n] and [n + 1] are both numbers:
    [Number.MAX_SAFE_INTEGER], 2^53 - 1. *)
Definition MAX_SAFE_INTEGER : Z := 9007199254740991.

Definition safe (n : Z) : bool := Z.abs n <=? MAX_SAFE_INTEGER.

(** Values of type [number], the IEEE 754 doubles, by what the sources can
    tell of them: [NaN], the two infinities, the negative zero, the safe
    integers (each of them is a number, and [toString] prints its digits),
    and every other number (a fraction, or a magnitude above 2^53 - 1), kept
    as the text [Number.prototype.toString] prints for it, such as [0.5],
    [123456789012345680000] or [1e+21]. *)
Inductive number : Type :=
| NaN
| Infinity (negative : bool)
| NegativeZero
| SafeInteger (n : Z) (is_safe : safe n = true)
| OtherNumber (text : string).

(** Values of type [any]: an object is an ordinary object (its prototype is
    [Object.prototype]) given by its own enumerable properties in
    [for ... in] order; none of the values is callable. *)
Inductive jsval : Type :=
| VUndefined
| VNull
| VBool (b : bool)
| VNumber (x : number)
| VStr (s : string)
| VArr (elems : list jsval)
| VObj (props : list (string * jsval)).

(** The number written as the integer literal [n]. *)
Abbreviation VNum n := (VNumber (SafeInteger n eq_refl)) (only parsing).

(** The number of the integer [n], when [n] is safe. *)
Definition integer (n : Z) : option number :=
  (if safe n as b return (safe n = b -> option number)
   then fun is_safe => Some (SafeInteger n is_safe)
   else fun _ => None) eq_refl.

(** Thrown values: the error class and its message. *)
Inductive exn : Type :=
| DockerToolboxOptionsParseError (message : string)
| TypeError (message : string)
| SyntaxError (message : string)
| Error (message : string).

(** The outcome of evaluating a function body. *)
Inductive completion (A : Type) : Type :=
| Return (a : A)
| Throw (e : exn).
Arguments Return {A} a.
Arguments Throw {A} e.

Definition bind {A B} (c : completion A) (k : A -> completion B) : completion B :=
  match c with
  | Return a => k a
  | Throw e => Throw e
  end.

Notation "x <- c ;; k" := (bind c (fun x => k))
  (at level 61, c at next level, right associativity).

(** A loop whose body may throw: [for (x of xs) acc = body(acc, x)]. *)
Fixpoint for_each {A S} (body : S -> A -> completion S) (xs : list A) (acc : S)
  : completion S :=
  match xs with
  | [] => Return acc
  | x :: rest => acc' <- body acc x ;; for_each body rest acc'
  end.

(** [typeof v]. *)
Inductive jstype := TUndefined | TObject | TBoolean | TNumber | TString.

Definition typeof (v : jsval) : jstype :=
  match v with
  | VUndefined => TUndefined
  | VNull | VArr _ | VObj _ => TObject
  | VBool _ => TBoolean
  | VNumber _ => TNumber
  | VStr _ => TString
  end.

(** [Array.isArray(v)]. *)
Definition isArray (v : jsval) : bool :=
  match v with VArr _ => true | _ => false end.

(** [ToBoolean(x)] on a number: false on the zeros and on [NaN]. *)
Definition Number_truthy (x : number) : bool :=
  match x with
  | NaN | NegativeZero => false
  | SafeInteger n _ => negb (n =? 0)
  | Infinity _ | OtherNumber _ => true
  end.

(** [ToBoolean(v)]: what [if (v)], [v || d] and [!v] test. *)
Definition truthy (v : jsval) : bool :=
  match v with
  | VUndefined | VNull => false
  | VBool b => b
  | VNumber x => Number_truthy x
  | VStr s => negb (String.eqb s "")
  | VArr _ | VObj _ => true
  end.

(** [a || b]. *)
Definition or_else (a b : jsval) : jsval := if truthy a then a else b.

(** The decimal numeral of an integer. *)
Definition numeral (n : Z) : string :=
  NilZero.string_of_int (Z.to_int n).

(** [x.toString()]. *)
Definition Number_toString (x : number) : string :=
  match x with
  | NaN => "NaN"
  | Infinity false => "Infinity"
  | Infinity true => "-Infinity"
  | NegativeZero => "0"
  | SafeInteger n _ => numeral n
  | OtherNumber text => text
  end.

(** [key in props], for an own property. *)
Definition has_own (key : string) (props : list (string * jsval)) : bool :=
  existsb (fun kv => String.eqb (fst kv) key) props.

(** The conversion of a value to a string, as string concatenation, template
    literals and [join] perform it.  On an object the conversion calls the
    [toString] method, then [valueOf]: an own property named [toString]
    hides [Object.prototype.toString] and is not callable, [valueOf] answers
    no primitive, and the conversion throws; without such a property
    [Object.prototype.toString] answers ["[object Object]"].  On an array
    [Array.prototype.toString] joins the elements with a comma, [undefined]
    and [null] elements giving the empty string. *)
Fixpoint toString (v : jsval) : completion string :=
  match v with
  | VUndefined => Return "undefined"
  | VNull => Return "null"
  | VBool true => Return "true"
  | VBool false => Return "false"
  | VNumber x => Return (Number_toString x)
  | VStr s => Return s
  | VArr elems =>
      (fix join (l : list jsval) : completion string :=
         match l with
         | [] => Return ""
         | x :: rest =>
             sx <- match x with
                   | VUndefined | VNull => Return ""
                   | _ => toString x
                   end ;;
             match rest with
             | [] => Return sx
             | _ :: _ => srest <- join rest ;; Return (sx ++ "," ++ srest)
             end
         end) elems
  | VObj props =>
      if has_own "toString" props
      then Throw (TypeError "Cannot convert object to primitive value")
      else Return "[object Object]"
  end.

Definition join_elem (x : jsval) : completion string :=
  match x with
  | VUndefined | VNull => Return ""
  | _ => toString x
  end.

(** [elems.join(sep)]: the elements are converted from left to right. *)
Fixpoint join (elems : list jsval) (sep : string) : completion string :=
  match elems with
  | [] => Return ""
  | x :: rest =>
      sx <- join_elem x ;;
      match rest with
      | [] => Return sx
      | _ :: _ => srest <- join rest sep ;; Return (sx ++ sep ++ srest)
      end
  end.

(** ** Characters *)

(** The code units below 256 matched by the regular-expression class [\s]:
    TAB, LF, VT, FF, CR, SPACE and NO-BREAK SPACE. *)
Definition is_whitespace (c : ascii) : bool :=
  let n := nat_of_ascii c in
  (((9 <=? n) && (n <=? 13)) || (n =? 32) || (n =? 160))%nat.

(** The class [[A-Z]]. *)
Definition is_A_Z (c : ascii) : bool :=
  let n := nat_of_ascii c in ((65 <=? n) && (n <=? 90))%nat.

(** [toLowerCase] on one code unit below 256: the letters [A-Z] and the
    Latin-1 capitals U+00C0..U+00DE (U+00D7, the multiplication sign,
    excepted) move 32 places up. *)
Definition toLowerCase_char (c : ascii) : ascii :=
  let n := nat_of_ascii c in
  if (is_A_Z c || ((192 <=? n) && (n <=? 222) && negb (n =? 215)))%nat
  then ascii_of_nat (n + 32)
  else c.

(** ** Strings *)

(** The one-character string made of a double quote. *)
Definition dquote : string := String "034"%char EmptyString.

Fixpoint toLowerCase (s : string) : string :=
  match s with
  | EmptyString => EmptyString
  | String c s' => String (toLowerCase_char c) (toLowerCase s')
  end.

(** [s.replace(/([A-Z])/g, '-$1')]. *)
Fixpoint replace_capitals (s : string) : string :=
  match s with
  | EmptyString => EmptyString
  | String c s' =>
      if is_A_Z c then String "-" (String c (replace_capitals s'))
      else String c (replace_capitals s')
  end.

Fixpoint search_whitespace_from (i : Z) (s : string) : Z :=
  match s with
  | EmptyString => -1
  | String c s' => if is_whitespace c then i else search_whitespace_from (i + 1) s'
  end.

(** [s.search(/\s+/)]: the index of the first whitespace code unit, or -1. *)
Definition search_whitespace (s : string) : Z := search_whitespace_from 0 s.

(** [s.indexOf(pat)]: the index of the first occurrence, or -1. *)
Definition indexOf (s pat : string) : Z :=
  match String.index 0 pat s with
  | Some i => Z.of_nat i
  | None => -1
  end.

Definition strlen (s : string) : Z := Z.of_nat (String.length s).

Fixpoint drop (n : nat) (s : string) : string :=
  match n, s with
  | O, _ => s
  | S n', String _ s' => drop n' s'
  | S _, EmptyString => EmptyString
  end.

(** [s.substr(start)] and [s.substr(start, length)]: a negative [start]
    counts from the end of the string. *)
Definition substr_start (s : string) (start : Z) : nat :=
  if start <? 0 then Z.to_nat (Z.max (strlen s + start) 0)
  else Z.to_nat (Z.min start (strlen s)).

Definition substr_from (s : string) (start : Z) : string :=
  drop (substr_start s start) s.

Definition substr (s : string) (start length : Z) : string :=
  String.substring (substr_start s start) (Z.to_nat length) s.

(** [s.substring(a, b)]: both bounds are clamped to [0, length] and swapped
    when out of order. *)
Definition substring (s : string) (a b : Z) : string :=
  let clamp i := Z.max 0 (Z.min i (strlen s)) in
  let lo := Z.min (clamp a) (clamp b) in
  let hi := Z.max (clamp a) (clamp b) in
  String.substring (Z.to_nat lo) (Z.to_nat (hi - lo)) s.

(** ** Objects *)

Fixpoint indexed_from (i : Z) (l : list jsval) : list (string * jsval) :=
  match l with
  | [] => []
  | x :: rest => (numeral i, x) :: indexed_from (i + 1) rest
  end.

Fixpoint chars_from (i : Z) (s : string) : list (string * jsval) :=
  match s with
  | EmptyString => []
  | String c s' => (numeral i, VStr (String c EmptyString)) :: chars_from (i + 1) s'
  end.

(** The (key, value) pairs visited by [for (key in v)] with [v[key]]: the
    properties of an object in enumeration order, the indices of an array or
    of a string, nothing for the other primitives, [null] and [undefined]. *)
Definition for_in (v : jsval) : list (string * jsval) :=
  match v with
  | VObj props => props
  | VArr elems => indexed_from 0 elems
  | VStr s => chars_from 0 s
  | _ => []
  end.

Fixpoint lookup (key : string) (props : list (string * jsval)) : jsval :=
  match props with
  | [] => VUndefined
  | (k, v) :: rest => if String.eqb k key then v else lookup key rest
  end.

(** [v.key] for a name that no prototype defines: a [TypeError] on [null]
    and [undefined], [undefined] on the other non-objects. *)
Definition get_prop (v : jsval) (key : string) : completion jsval :=
  match v with
  | VObj props => Return (lookup key props)
  | VUndefined => Throw (TypeError ("Cannot read property '" ++ key ++ "' of undefined"))
  | VNull => Throw (TypeError ("Cannot read property '" ++ key ++ "' of null"))
  | _ => Return VUndefined
  end.

(** [delete v.key]. *)
Definition delete_prop (v : jsval) (key : string) : jsval :=
  match v with
  | VObj props => VObj (filter (fun kv => negb (String.eqb (fst kv) key)) props)
  | _ => v
  end.

(** [arr.push(x)]. *)
Definition push {A} (arr : list A) (x : A) : list A := (arr ++ [x])%list.

(** ** The order of the properties *)

Definition is_digit (c : ascii) : bool :=
  let n := nat_of_ascii c in ((48 <=? n) && (n <=? 57))%nat.

Fixpoint digits_value (acc : Z) (s : string) : option Z :=
  match s with
  | EmptyString => Some acc
  | String c s' =>
      if is_digit c
      then digits_value (10 * acc + Z.of_nat (nat_of_ascii c - 48)) s'
      else None
  end.

(** An array index: the numeral, without a sign or a leading zero, of an
    integer from 0 to 2^32 - 2. *)
Definition array_index (key : string) : option Z :=
  match key with
  | EmptyString => None
  | String c rest =>
      if ((nat_of_ascii c =? 48)%nat && negb (String.eqb rest ""))%bool then None
      else
        match digits_value 0 key with
        | Some i => if i <=? 4294967294 then Some i else None
        | None => None
        end
  end.

(** The own properties of an object are enumerated with the array indices
    first, in ascending order, and the other names after them, in the order
    of their creation. [insert_index] creates the property of the array
    index [i], [replace_value] writes a property that exists. *)
Fixpoint insert_index (i : Z) (key : string) (v : jsval) (props : list (string * jsval))
  : list (string * jsval) :=
  match props with
  | [] => [(key, v)]
  | (k, w) :: rest =>
      match array_index k with
      | Some j => if j <? i then (k, w) :: insert_index i key v rest
                  else (key, v) :: props
      | None => (key, v) :: props
      end
  end.

Fixpoint replace_value (key : string) (v : jsval) (props : list (string * jsval))
  : list (string * jsval) :=
  match props with
  | [] => []
  | (k, w) :: rest =>
      if String.eqb k key then (k, v) :: rest else (k, w) :: replace_value key v rest
  end.

(** The own data property [key] is given the value [v]: written in place
    when the object has it, created otherwise. *)
Definition define_property (props : list (string * jsval)) (key : string) (v : jsval)
  : list (string * jsval) :=
  if has_own key props then replace_value key v props
  else
    match array_index key with
    | Some i => insert_index i key v props
    | None => push props (key, v)
    end.

(** [args[i]]. *)
Definition nth_arg (args : list jsval) (i : nat) : jsval := nth i args VUndefined.

End JS.

(* ===================================================================== *)
(** * [src/util.ts]                                                        *)
(* ===================================================================== *)

Module Util.
Import JS.

Record IOptionsToArgsParseOptions := { prefix : option string }.

(** [const prefix = parseOptions.prefix || '';] after
    [parseOptions = parseOptions || {}]. *)
Definition prefix_of (parseOptions : option IOptionsToArgsParseOptions) : string :=
  match parseOptions with
  | Some {| prefix := Some p |} => p
  | _ => ""
  end.

(** [key = key.replace(/([A-Z])/g, '-$1').toLowerCase();
     const optKey = '--' + prefix + key;] *)
Definition optKey_of (prefix key : string) : string :=
  "--" ++ prefix ++ toLowerCase (replace_capitals key).

(** The callback of [value.forEach(v => ...)]. *)
Definition check_array_element (v : jsval) : completion unit :=
  match v with
  | VStr s =>
      if search_whitespace s >? -1
      then Throw (DockerToolboxOptionsParseError
        "Options object argument value array element may not contain whitespace characters")
      else Return tt
  | VNull | VArr _ | VObj _ =>
      Throw (DockerToolboxOptionsParseError
        "Options object argument value array element may only be a string or a number")
  | _ => Return tt
  end.

(** The validation of one inner value ([typeof value === "string"],
    [Array.isArray(value)], [value && typeof value === "object"]). *)
Definition check_inner_value (value : jsval) : completion unit :=
  match value with
  | VStr s =>
      if search_whitespace s >? -1
      then Throw (DockerToolboxOptionsParseError
        "Options object argument value may not contain whitespace characters")
      else Return tt
  | VArr elems => for_each (fun _ v => check_array_element v) elems tt
  | VObj _ =>
      text <- toString value ;;
      Throw (DockerToolboxOptionsParseError
        ("Options object argument value may only be a string, number, boolean or an array containing strings, numbers and booleans. "
         ++ text ++ "was received instead."))
  | _ => Return tt
  end.

(** The body of [for (const key in optionValue)]. *)
Definition inner_step (optKey : string) (optArgs : list string) (kv : string * jsval)
  : completion (list string) :=
  let '(key, value) := kv in
  if search_whitespace key >? -1
  then Throw (DockerToolboxOptionsParseError
    "Options object argument key may not contain whitespace characters")
  else
    _ <- check_inner_value value ;;
    text <- toString value ;;
    Return (push (push optArgs optKey) (key ++ "=" ++ text)).

(** The body of [for (let key in options)]. *)
Definition outer_step (prefix : string) (optArgs : list string) (kv : string * jsval)
  : completion (list string) :=
  let '(key, optionValue) := kv in
  let optKey := optKey_of prefix key in
  match optionValue with
  | VBool b => Return (if b then push optArgs optKey else optArgs)
  | VStr s =>
      Return (push (push optArgs optKey)
                   (if search_whitespace s >? -1
                    then dquote ++ s ++ dquote
                    else s))
  | VNumber x => Return (push (push optArgs optKey) (Number_toString x))
  | VArr elems => text <- join elems "," ;; Return (push (push optArgs optKey) text)
  | VObj _ => for_each (inner_step optKey) (for_in optionValue) optArgs
  | VUndefined | VNull => Return optArgs
  end.

Definition optionsToArgs (options : jsval)
  (parseOptions : option IOptionsToArgsParseOptions) : completion (list string) :=
  for_each (outer_step (prefix_of parseOptions)) (for_in options) [].

End Util.

(* ===================================================================== *)
(** * [src/index.ts]: the process facade                                   *)
(* ===================================================================== *)

Module Toolbox.
Import JS.

(** The target-environment mapping ([IDockerMachineEnv]): the properties of
    the object in insertion order. *)
Definition IDockerMachineEnv := list (string * jsval).

(** The fields of [SpawnOptions] the sources set. *)
Record SpawnOptions := {
  env : option IDockerMachineEnv;
  windowsHide : bool
}.

(** What is handed to [child_process.spawn]. *)
Record spawn_request := {
  program : string;
  args : list jsval;
  spawnOptions : SpawnOptions
}.

(** What the child process emits afterwards. [code] is [null] ([None]) when
    the child was ended by a signal. *)
Inductive child_event :=
| StdoutData (chunk : string)
| StderrData (chunk : string)
| ErrorEvent (err : exn)
| CloseEvent (code : option Z) (signal : option string).

Inductive promise (A : Type) : Type :=
| Pending
| Fulfilled (a : A)
| Rejected (e : exn).
Arguments Pending {A}.
Arguments Fulfilled {A} a.
Arguments Rejected {A} e.

(** [resolve] and [reject] settle a pending promise and do nothing to a
    settled one. *)
Definition resolve {A} (p : promise A) (a : A) : promise A :=
  match p with Pending => Fulfilled a | _ => p end.

Definition reject {A} (p : promise A) (e : exn) : promise A :=
  match p with Pending => Rejected e | _ => p end.

(** [p.then(f)], once [p] is settled: a callback that throws rejects. *)
Definition promise_then {A B} (p : promise A) (f : A -> completion B) : promise B :=
  match p with
  | Pending => Pending
  | Fulfilled a => match f a with Return b => Fulfilled b | Throw e => Rejected e end
  | Rejected e => Rejected e
  end.

(** [Object.assign({}, spawnOptions, {windowsHide: true})] and the call of
    [spawn]. *)
Definition _spawnDockerToolbox (program : string) (args : list jsval)
  (spawnOptions : SpawnOptions) : spawn_request :=
  let spawnOptions := {| env := env spawnOptions; windowsHide := true |} in
  {| program := program; args := args; spawnOptions := spawnOptions |}.

(** ['' + code]. *)
Definition code_toString (code : option Z) : string :=
  match code with
  | Some n => numeral n
  | None => "null"
  end.

(** [code === 0]. *)
Definition code_is_zero (code : option Z) : bool :=
  match code with
  | Some n => n =? 0
  | None => false
  end.

(** The two listeners installed by the promise executor of
    [_spawnDockerToolbox]. *)
Definition on_error (p : promise unit) (err : exn) : promise unit :=
  reject p err.

Definition on_close (program : string) (p : promise unit)
  (code : option Z) (signal : option string) : promise unit :=
  if code_is_zero code then resolve p tt
  else reject p (Error (program ++ " responded with non-zero code " ++ code_toString code)).

Definition promise_step (program : string) (p : promise unit) (ev : child_event)
  : promise unit :=
  match ev with
  | ErrorEvent err => on_error p err
  | CloseEvent code signal => on_close program p code signal
  | StdoutData _ | StderrData _ => p
  end.

(** The completion signal after the child has emitted [trace]. *)
Definition completion_signal (program : string) (trace : list child_event)
  : promise unit :=
  fold_left (promise_step program) trace Pending.

Definition spawnDockerCompose (args : list jsval) (spawnOptions : SpawnOptions) :=
  _spawnDockerToolbox "docker-compose" args spawnOptions.

Definition spawnDockerMachine (args : list jsval) (spawnOptions : SpawnOptions) :=
  _spawnDockerToolbox "docker-machine" args spawnOptions.

(** An event that settles a pending completion signal. *)
Definition settles (ev : child_event) : bool :=
  match ev with
  | ErrorEvent _ | CloseEvent _ _ => true
  | StdoutData _ | StderrData _ => false
  end.

End Toolbox.

(* ===================================================================== *)
(** * [src/index.ts]: [LineReadStream]                                     *)
(* ===================================================================== *)

Module Lines.
Import JS.

(** The line feed, ['\n']. *)
Definition LF : string := String "010"%char EmptyString.

(** One call of [_read]: its local [currentLine], the units handed to
    [this.push] so far, and whether [chunkHandler] is still a listener of
    the upstream ['data'] event. *)
Record LineReadStream := {
  currentLine : string;
  pushed : list string;
  attached : bool
}.

(** How a call of [chunkHandler] ends; [Running] is a call still inside its
    [do ... while] loop when the step budget is used up. *)
Inductive handler_end := Returned | Running.

Section ChunkHandler.

(** [this.push(unit)] answers whether the consumer wants more; the answer
    is the readable side's, a function of the units pushed so far (the new
    one included). *)
Variable shouldContinue : list string -> bool.

(** The [do ... while] loop of [chunkHandler]; [fuel] bounds the number of
    iterations. *)
Fixpoint chunk_loop (fuel : nat) (st : LineReadStream) (chunkStr : string)
  : LineReadStream * handler_end :=
  match fuel with
  | O => (st, Running)
  | S fuel' =>
      let newLineIndex := indexOf chunkStr LF in
      if newLineIndex >? -1 then
        let line := currentLine st ++ substr chunkStr 0 newLineIndex in
        let chunkStr := substr_from chunkStr newLineIndex in
        let pushed' := push (pushed st) line in
        if negb (shouldContinue pushed') then
          ({| currentLine := ""; pushed := pushed'; attached := false |}, Returned)
        else
          chunk_loop fuel'
            {| currentLine := ""; pushed := pushed'; attached := attached st |}
            chunkStr
      else
        ({| currentLine := currentLine st ++ chunkStr;
            pushed := pushed st;
            attached := attached st |}, Returned)
  end.

Definition chunkHandler (fuel : nat) (st : LineReadStream) (chunk : string)
  : LineReadStream * handler_end :=
  chunk_loop fuel st chunk.

(** [_read]: a fresh [currentLine] and [chunkHandler] attached. *)
Definition _read : LineReadStream :=
  {| currentLine := ""; pushed := []; attached := true |}.

(** The upstream emits [chunks] one after the other: an attached handler
    gets each of them; nothing more is delivered while a call has not
    returned. *)
Fixpoint feed (fuel : nat) (st : LineReadStream) (chunks : list string)
  : LineReadStream * handler_end :=
  match chunks with
  | [] => (st, Returned)
  | chunk :: rest =>
      if attached st then
        match chunkHandler fuel st chunk with
        | (st', Returned) => feed fuel st' rest
        | (st', Running) => (st', Running)
        end
      else feed fuel st rest
  end.

End ChunkHandler.

End Lines.

(* ===================================================================== *)
(** * [JSON.parse]                                                         *)
(* ===================================================================== *)

(** [events] is stated for any [JSON.parse]; [JSON.parse] below is a
    reference reader for the documents the examples use: objects, arrays,
    strings with the two-character escapes, the three literals and the safe
    integers.  The reader refuses the other numerals (a fraction, an
    exponent, a magnitude above 2^53 - 1). *)
Module JSON.
Import JS.

Definition is_json_space (c : ascii) : bool :=
  let n := nat_of_ascii c in
  ((n =? 32) || (n =? 9) || (n =? 10) || (n =? 13))%nat.

Fixpoint skip_space (s : string) : string :=
  match s with
  | String c s' => if is_json_space c then skip_space s' else s
  | EmptyString => EmptyString
  end.

Definition unescape (c : ascii) : option ascii :=
  let n := nat_of_ascii c in
  (if n =? 34 then Some c
   else if n =? 92 then Some c
   else if n =? 47 then Some c
   else if n =? 98 then Some "008"%char
   else if n =? 102 then Some "012"%char
   else if n =? 110 then Some "010"%char
   else if n =? 114 then Some "013"%char
   else if n =? 116 then Some "009"%char
   else None)%nat.

(** The characters of a string up to its closing quote, and what follows. *)
Fixpoint read_string (s : string) : option (string * string) :=
  match s with
  | EmptyString => None
  | String c s' =>
      let n := nat_of_ascii c in
      if (n =? 34)%nat then Some (EmptyString, s')
      else if (n =? 92)%nat then
        match s' with
        | String e s'' =>
            match unescape e, read_string s'' with
            | Some c', Some (body, rest) => Some (String c' body, rest)
            | _, _ => None
            end
        | EmptyString => None
        end
      else if (n <? 32)%nat then None
      else
        match read_string s' with
        | Some (body, rest) => Some (String c body, rest)
        | None => None
        end
  end.

Fixpoint read_digits (acc : Z) (s : string) : Z * string :=
  match s with
  | String c s' =>
      if is_digit c
      then read_digits (10 * acc + Z.of_nat (nat_of_ascii c - 48)) s'
      else (acc, s)
  | EmptyString => (acc, s)
  end.

Definition starts_fraction (s : string) : bool :=
  match s with
  | String c _ =>
      let n := nat_of_ascii c in ((n =? 46) || (n =? 101) || (n =? 69))%nat
  | EmptyString => false
  end.

(** An integer without a sign: no leading zero, no fraction, no exponent. *)
Definition read_natural (s : string) : option (Z * string) :=
  match s with
  | String c s' =>
      if is_digit c then
        let '(n, rest) := read_digits 0 s in
        if ((nat_of_ascii c =? 48)%nat && negb (String.length s' =? String.length rest)%nat)
           || starts_fraction rest
        then None
        else Some (n, rest)
      else None
  | EmptyString => None
  end.

Definition expect (word : string) (s : string) : option string :=
  if String.prefix word s then Some (drop (String.length word) s) else None.

(** The member [key: v] of an object literal defines the own property
    [key], whatever its name is; a repeated key keeps its place. *)
Definition set_prop (props : list (string * jsval)) (key : string) (v : jsval)
  : list (string * jsval) :=
  define_property props key v.

Fixpoint read_value (fuel : nat) (s : string) : option (jsval * string) :=
  match fuel with
  | O => None
  | S fuel' =>
      match skip_space s with
      | EmptyString => None
      | String c s' as s0 =>
          let n := nat_of_ascii c in
          if (n =? 123)%nat then
            match skip_space s' with
            | String c1 s1 =>
                if (nat_of_ascii c1 =? 125)%nat then Some (VObj [], s1)
                else read_members fuel' [] (String c1 s1)
            | EmptyString => None
            end
          else if (n =? 91)%nat then
            match skip_space s' with
            | String c1 s1 =>
                if (nat_of_ascii c1 =? 93)%nat then Some (VArr [], s1)
                else read_elements fuel' [] (String c1 s1)
            | EmptyString => None
            end
          else if (n =? 34)%nat then
            match read_string s' with
            | Some (body, rest) => Some (VStr body, rest)
            | None => None
            end
          else if (n =? 45)%nat then
            match read_natural s' with
            | Some (m, rest) =>
                if m =? 0 then Some (VNumber NegativeZero, rest)
                else option_map (fun x => (VNumber x, rest)) (integer (- m))
            | None => None
            end
          else if is_digit c then
            match read_natural s0 with
            | Some (m, rest) => option_map (fun x => (VNumber x, rest)) (integer m)
            | None => None
            end
          else
            match expect "true" s0, expect "false" s0, expect "null" s0 with
            | Some rest, _, _ => Some (VBool true, rest)
            | _, Some rest, _ => Some (VBool false, rest)
            | _, _, Some rest => Some (VNull, rest)
            | _, _, _ => None
            end
      end
  end
with read_members (fuel : nat) (acc : list (string * jsval)) (s : string)
  : option (jsval * string) :=
  match fuel with
  | O => None
  | S fuel' =>
      match skip_space s with
      | String c s' =>
          if (nat_of_ascii c =? 34)%nat then
            match read_string s' with
            | Some (key, rest) =>
                match skip_space rest with
                | String c1 s1 =>
                    if (nat_of_ascii c1 =? 58)%nat then
                      match read_value fuel' s1 with
                      | Some (v, rest1) =>
                          let acc' := set_prop acc key v in
                          match skip_space rest1 with
                          | String c2 s2 =>
                              if (nat_of_ascii c2 =? 44)%nat
                              then read_members fuel' acc' s2
                              else if (nat_of_ascii c2 =? 125)%nat
                              then Some (VObj acc', s2)
                              else None
                          | EmptyString => None
                          end
                      | None => None
                      end
                    else None
                | EmptyString => None
                end
            | None => None
            end
          else None
      | EmptyString => None
      end
  end
with read_elements (fuel : nat) (acc : list jsval) (s : string)
  : option (jsval * string) :=
  match fuel with
  | O => None
  | S fuel' =>
      match read_value fuel' s with
      | Some (v, rest) =>
          let acc' := push acc v in
          match skip_space rest with
          | String c s' =>
              if (nat_of_ascii c =? 44)%nat then read_elements fuel' acc' s'
              else if (nat_of_ascii c =? 93)%nat then Some (VArr acc', s')
              else None
          | EmptyString => None
          end
      | None => None
      end
  end.

(** [JSON.parse(text)]: the reader is given [2 * length + 2] nested calls,
    more than the values, members and elements [text] can hold; what is
    left after the value may only be white space. *)
Definition parse (text : string) : completion jsval :=
  match read_value (2 * String.length text + 2) text with
  | Some (v, rest) =>
      match skip_space rest with
      | EmptyString => Return v
      | String _ _ => Throw (SyntaxError "Unexpected token in JSON")
      end
  | None => Throw (SyntaxError "Unexpected token in JSON")
  end.

End JSON.

(* ===================================================================== *)
(** * [src/index.ts]: [DockerMachine]                                      *)
(* ===================================================================== *)

Module Machine.
Import JS Toolbox.

(** The regular expressions of the host: [new RegExp(source, flags)], which
    throws a [SyntaxError] on a source it cannot read, and
    [line.match(regExp)] for a pattern without the [g] flag, which answers
    [null] or the array of the whole match followed by the groups; a group
    is a string, or [undefined] when it took no part in the match. *)
Record RegExpEngine := {
  RegExp : Type;
  new_RegExp : string -> string -> completion RegExp;
  String_match : string -> RegExp -> option (list (option string))
}.

Record DockerMachine := {
  _name : string;
  _env : IDockerMachineEnv
}.

Definition DOCKER_MACHINE_NAME : string := "DOCKER_MACHINE_NAME".

(** [out.split(/\r\n|\n/)]. *)
Fixpoint split_lines_from (line : string) (s : string) : list string :=
  match s with
  | EmptyString => [line]
  | String c s' =>
      if (nat_of_ascii c =? 10)%nat then line :: split_lines_from "" s'
      else
        match s' with
        | String c' s'' =>
            if ((nat_of_ascii c =? 13) && (nat_of_ascii c' =? 10))%nat
            then line :: split_lines_from "" s''
            else split_lines_from (line ++ String c EmptyString) s'
        | EmptyString => split_lines_from (line ++ String c EmptyString) s'
        end
  end.

Definition split_lines (out : string) : list string := split_lines_from "" out.

(** [m[i]] for a match array [m]. *)
Definition group (m : list (option string)) (i : nat) : option string :=
  nth i m None.

(** The property key of [m[i]]: [undefined] names the property
    ["undefined"]. *)
Definition property_key (g : option string) : string :=
  match g with
  | Some s => s
  | None => "undefined"
  end.

Definition group_value (g : option string) : jsval :=
  match g with
  | Some s => VStr s
  | None => VUndefined
  end.

(** [machineEnv[envVar] = envValue], for a group [envVar], a group
    [envValue] and a [machineEnv] that started as [{}].  The name
    [__proto__] is the accessor of [Object.prototype]: its setter ignores a
    value that is neither an object nor [null], and no property is created.
    Any other name is written in place when the object has it and created
    otherwise. *)
Definition assign (machineEnv : IDockerMachineEnv) (envVar envValue : option string)
  : IDockerMachineEnv :=
  let key := property_key envVar in
  let value := group_value envValue in
  if String.eqb key "__proto__" then machineEnv
  else define_property machineEnv key value.

Section Env.

Variable engine : RegExpEngine.

(** The body of [for (const line of lines)]. *)
Definition match_line (regExp : RegExp engine) (machineEnv : IDockerMachineEnv)
  (line : string) : IDockerMachineEnv :=
  match String_match engine line regExp with
  | Some m =>
      if (2 <? length m)%nat
      then assign machineEnv (group m 1) (group m 2)
      else machineEnv
  | None => machineEnv
  end.

(** The callback of [result.then(() => ...)] in [DockerMachine.env], on the
    captured output [out]. [lines.find] answers [undefined] when no line
    holds the marker, and [test.indexOf] then throws. *)
Definition parse_env (name : string) (out : string) : completion IDockerMachineEnv :=
  let lines := split_lines out in
  match find (fun line => indexOf line DOCKER_MACHINE_NAME >? -1) lines with
  | None => Throw (TypeError "Cannot read property 'indexOf' of undefined")
  | Some test =>
      let testStartIndex := indexOf test DOCKER_MACHINE_NAME in
      let testEndIndex := testStartIndex + strlen DOCKER_MACHINE_NAME in
      let nameStartIndex := indexOf test name in
      let nameEndIndex := nameStartIndex + strlen name in
      let regExpStr :=
        substr test 0 testStartIndex ++ "([a-z_]+)" ++
        substring test testEndIndex nameStartIndex ++ "(.*?)" ++
        substr_from test nameEndIndex ++ "$" in
      regExp <- new_RegExp engine regExpStr "i" ;;
      Return (fold_left (match_line regExp) lines [])
  end.

(** One run of [DockerMachine.env(name)]: the text captured from the
    child's standard output, the completion signal [result] of the child and
    the promise [machineEnvPromise] handed to the caller. *)
Record env_query := {
  out : string;
  result : promise unit;
  machineEnvPromise : promise IDockerMachineEnv
}.

(** [spawnDockerMachine(['env', name], {})]. *)
Definition env_request (name : string) : spawn_request :=
  spawnDockerMachine [VStr "env"; VStr name] {| env := None; windowsHide := false |}.

Definition env_start : env_query :=
  {| out := ""; result := Pending; machineEnvPromise := Pending |}.

(** The reaction to one event of the child: [out += chunk] on standard
    output; on an event that settles [result], the [then] callback runs
    (on success) or the rejection is passed on. *)
Definition env_step (name : string) (q : env_query) (ev : child_event) : env_query :=
  match ev with
  | StdoutData chunk =>
      {| out := out q ++ chunk;
         result := result q;
         machineEnvPromise := machineEnvPromise q |}
  | StderrData _ => q
  | ErrorEvent _ | CloseEvent _ _ =>
      match result q with
      | Pending =>
          let result' := promise_step (program (env_request name)) Pending ev in
          {| out := out q;
             result := result';
             machineEnvPromise := promise_then result' (fun _ => parse_env name (out q)) |}
      | _ => q
      end
  end.

(** [DockerMachine.env(name)] after the child has emitted [trace]. *)
Definition env (name : string) (trace : list child_event) : env_query :=
  fold_left (env_step name) trace env_start.

(** [DockerMachine.get(name)]: [envPromise.then(env => new DockerMachine(name, env, options))]. *)
Definition get (name : string) (trace : list child_event) : promise DockerMachine :=
  promise_then (machineEnvPromise (env name trace))
    (fun env => Return {| _name := name; _env := env |}).

(** One run of [machine.refreshEnv()]: the handle, the query it started and
    the promise it returned. *)
Record refresh := {
  this : DockerMachine;
  envPromise : env_query;
  retEnvPromise : promise IDockerMachineEnv
}.

Definition refresh_start (machine : DockerMachine) : refresh :=
  {| this := machine; envPromise := env_start; retEnvPromise := Pending |}.

(** The reaction to one event of the child; when [envPromise] becomes
    fulfilled, the callback [(env) => { this._env = env; return env; }]
    runs. *)
Definition refresh_step (r : refresh) (ev : child_event) : refresh :=
  let q' := env_step (_name (this r)) (envPromise r) ev in
  match machineEnvPromise (envPromise r), machineEnvPromise q' with
  | Pending, Fulfilled env =>
      {| this := {| _name := _name (this r); _env := env |};
         envPromise := q';
         retEnvPromise := Fulfilled env |}
  | Pending, Rejected e =>
      {| this := this r; envPromise := q'; retEnvPromise := Rejected e |}
  | _, _ =>
      {| this := this r; envPromise := q'; retEnvPromise := retEnvPromise r |}
  end.

(** [machine.refreshEnv()] after the child has emitted [trace]. *)
Definition refreshEnv (machine : DockerMachine) (trace : list child_event) : refresh :=
  fold_left refresh_step trace (refresh_start machine).

End Env.

End Machine.

(* ===================================================================== *)
(** * [src/index.ts]: [DockerCompose]                                      *)
(* ===================================================================== *)

Module Compose.
Import JS Toolbox.

Record DockerCompose := {
  _machine : option Machine.DockerMachine;
  _configPaths : list string
}.

(** [_spawn(command, args)]. *)
Definition _spawn (this : DockerCompose) (command : string) (args : list jsval)
  : spawn_request :=
  let configArgs :=
    fold_left (fun confArgs confArg => (confArgs ++ confArg)%list)
      (map (fun confPath => [VStr "-f"; VStr confPath]) (_configPaths this)) [] in
  let allArgs := (configArgs ++ [VStr command] ++ args)%list in
  let env :=
    match _machine this with
    | Some machine => Some (Machine._env machine)
    | None => None
    end in
  spawnDockerCompose allArgs {| env := env; windowsHide := false |}.

(** [args.splice(0, 1)]: what is left in [args]. *)
Definition splice_first (args : list jsval) : list jsval := tl args.

(** [_serviceCommandSpawn(command, ...args)]. [services = args] makes
    [services] another name of the rest array, [args.splice(0, 1)] removes
    its first element whichever branch was taken, and [services = args]
    names the same, shortened, array again. *)
Definition _serviceCommandSpawn (this : DockerCompose) (command : string)
  (args : list jsval) : completion spawn_request :=
  let '(options, services) :=
    if (0 <? length args)%nat then
      let options :=
        match typeof (nth_arg args 0) with
        | TString => VObj []
        | _ => nth_arg args 0
        end in
      let args := splice_first args in
      (options, args)
    else (VObj [], []) in
  optArgs <- Util.optionsToArgs options None ;;
  Return (_spawn this command (map VStr optArgs ++ services)%list).

Definition build this args := _serviceCommandSpawn this "build" args.
Definition down this args := _serviceCommandSpawn this "down" args.
Definition logs this args := _serviceCommandSpawn this "logs" args.
Definition pause this args := _serviceCommandSpawn this "pause" args.
Definition ps this args := _serviceCommandSpawn this "ps" args.
Definition pull this args := _serviceCommandSpawn this "pull" args.
Definition push this args := _serviceCommandSpawn this "push" args.
Definition restart this args := _serviceCommandSpawn this "restart" args.
Definition start this args := _serviceCommandSpawn this "start" args.
Definition stop this args := _serviceCommandSpawn this "stop" args.
Definition top this args := _serviceCommandSpawn this "top" args.
Definition unpause this args := _serviceCommandSpawn this "unpause" args.
Definition up this args := _serviceCommandSpawn this "up" args.

(** The operations that hand their arguments to [_serviceCommandSpawn]
    unchanged, each with the command it names. *)
Definition dispatched
  : list (string * (DockerCompose -> list jsval -> completion spawn_request)) :=
  [ ("build", build); ("down", down); ("logs", logs); ("pause", pause);
    ("ps", ps); ("pull", pull); ("push", push); ("restart", restart);
    ("start", start); ("stop", stop); ("top", top); ("unpause", unpause);
    ("up", up) ].

Definition bundle this (options : jsval) : completion spawn_request :=
  optArgs <- Util.optionsToArgs options None ;;
  Return (_spawn this "bundle" (map VStr optArgs)).

Definition config this (options : jsval) : completion spawn_request :=
  optArgs <- Util.optionsToArgs options None ;;
  Return (_spawn this "config" (map VStr optArgs)).

(** [exec(...args)]. [service] is read from the arguments and not used
    afterwards. *)
Definition exec (this : DockerCompose) (args : list jsval) : completion spawn_request :=
  if (0 <? length args)%nat then
    let '(options, service, command, runArgs) :=
      match typeof (nth_arg args 0) with
      | TString =>
          (VObj [], nth_arg args 0, or_else (nth_arg args 1) (VStr ""), skipn 2 args)
      | _ =>
          (nth_arg args 0, nth_arg args 1, or_else (nth_arg args 2) (VStr ""), skipn 3 args)
      end in
    disablePseudoTty <- get_prop options "disablePseudoTty" ;;
    let optArgs := if truthy disablePseudoTty then [VStr "-T"] else [] in
    let options := delete_prop options "disablePseudoTty" in
    encoded <- Util.optionsToArgs options None ;;
    let optArgs := (map VStr encoded ++ optArgs)%list in
    Return (_spawn this "exec" (optArgs ++ [command] ++ runArgs)%list)
  else
    Return (_spawn this "exec" ([] ++ [VUndefined] ++ [])%list).

(** [run(...args)]: the body of [exec] with the command [run]. *)
Definition run (this : DockerCompose) (args : list jsval) : completion spawn_request :=
  if (0 <? length args)%nat then
    let '(options, service, command, runArgs) :=
      match typeof (nth_arg args 0) with
      | TString =>
          (VObj [], nth_arg args 0, or_else (nth_arg args 1) (VStr ""), skipn 2 args)
      | _ =>
          (nth_arg args 0, nth_arg args 1, or_else (nth_arg args 2) (VStr ""), skipn 3 args)
      end in
    disablePseudoTty <- get_prop options "disablePseudoTty" ;;
    let optArgs := if truthy disablePseudoTty then [VStr "-T"] else [] in
    let options := delete_prop options "disablePseudoTty" in
    encoded <- Util.optionsToArgs options None ;;
    let optArgs := (map VStr encoded ++ optArgs)%list in
    Return (_spawn this "run" (optArgs ++ [command] ++ runArgs)%list)
  else
    Return (_spawn this "run" ([] ++ [VUndefined] ++ [])%list).

(** ** [events] *)

(** What a subscriber of the [Subject] receives. *)
Inductive notification :=
| Next (event : jsval)
| ErrorNotification (err : exn)
| Complete.

(** A [Subject]: what it has delivered, and whether it has stopped (after
    [complete] or [error] it delivers nothing more). *)
Record Subject := {
  delivered : list notification;
  isStopped : bool
}.

Definition subject_next (s : Subject) (event : jsval) : Subject :=
  if isStopped s then s
  else {| delivered := JS.push (delivered s) (Next event); isStopped := false |}.

Definition subject_error (s : Subject) (err : exn) : Subject :=
  if isStopped s then s
  else {| delivered := JS.push (delivered s) (ErrorNotification err); isStopped := true |}.

Definition subject_complete (s : Subject) : Subject :=
  if isStopped s then s
  else {| delivered := JS.push (delivered s) Complete; isStopped := true |}.

(** One run of [events]: the subject, the [currentLine] shared by the calls
    of the ['data'] listener, the completion signal of the child, and the
    exceptions that left a listener (nothing in [events] catches them). *)
Record events_run := {
  eventsSubject : Subject;
  currentLine : string;
  eventsPromise : promise unit;
  uncaught : list exn
}.

(** How a call of the ['data'] listener ends. *)
Inductive listener_end :=
| Returned
| Threw (e : exn)
| Running.

Section Events.

Variable JSON_parse : string -> completion jsval.

(** The [do ... while] loop of the ['data'] listener; [fuel] bounds the
    number of iterations. *)
Fixpoint data_loop (fuel : nat) (st : events_run) (chunkStr : string)
  : events_run * listener_end :=
  match fuel with
  | O => (st, Running)
  | S fuel' =>
      let newLineIndex := indexOf chunkStr Lines.LF in
      if newLineIndex >? -1 then
        let line := currentLine st ++ substr chunkStr 0 newLineIndex in
        let chunkStr := substr_from chunkStr newLineIndex in
        match JSON_parse line with
        | Throw e =>
            ({| eventsSubject := eventsSubject st;
                currentLine := line;
                eventsPromise := eventsPromise st;
                uncaught := uncaught st |}, Threw e)
        | Return eventObj =>
            data_loop fuel'
              {| eventsSubject := subject_next (eventsSubject st) eventObj;
                 currentLine := "";
                 eventsPromise := eventsPromise st;
                 uncaught := uncaught st |}
              chunkStr
        end
      else
        ({| eventsSubject := eventsSubject st;
            currentLine := currentLine st ++ chunkStr;
            eventsPromise := eventsPromise st;
            uncaught := uncaught st |}, Returned)
  end.

(** [_serviceCommandSpawn('events', {json: true}, ...services)]. *)
Definition events_request (this : DockerCompose) (services : list jsval)
  : completion spawn_request :=
  _serviceCommandSpawn this "events" (VObj [("json", VBool true)] :: services).

Definition events_start : events_run :=
  {| eventsSubject := {| delivered := []; isStopped := false |};
     currentLine := "";
     eventsPromise := Pending;
     uncaught := [] |}.

(** The reaction to one event of the child: the ['data'] listener on
    standard output; [eventsSubject.complete()] or [eventsSubject.error(err)]
    when the completion signal settles. *)
Definition events_step (fuel : nat) (st : events_run) (ev : child_event)
  : events_run * listener_end :=
  match ev with
  | StdoutData chunk =>
      match data_loop fuel st chunk with
      | (st', Threw e) =>
          ({| eventsSubject := eventsSubject st';
              currentLine := currentLine st';
              eventsPromise := eventsPromise st';
              uncaught := JS.push (uncaught st') e |}, Threw e)
      | other => other
      end
  | StderrData _ => (st, Returned)
  | ErrorEvent _ | CloseEvent _ _ =>
      match eventsPromise st with
      | Pending =>
          let p := promise_step "docker-compose" Pending ev in
          ({| eventsSubject :=
                match p with
                | Fulfilled _ => subject_complete (eventsSubject st)
                | Rejected err => subject_error (eventsSubject st) err
                | Pending => eventsSubject st
                end;
              currentLine := currentLine st;
              eventsPromise := p;
              uncaught := uncaught st |}, Returned)
      | _ => (st, Returned)
      end
  end.

(** [events] after the child has emitted [trace]; nothing more is handled
    while a listener has not returned. *)
Fixpoint events (fuel : nat) (st : events_run) (trace : list child_event)
  : events_run * listener_end :=
  match trace with
  | [] => (st, Returned)
  | ev :: rest =>
      match events_step fuel st ev with
      | (st', Running) => (st', Running)
      | (st', _) => events fuel st' rest
      end
  end.

End Events.

End Compose.

(* ===================================================================== *)
(** * The vocabulary of the specification                                  *)
(* ===================================================================== *)

Module Spec.
Import JS.

(** A string contains whitespace when one of its characters is a
    whitespace character. *)
Definition contains_whitespace (s : string) : Prop :=
  exists c, In c (list_ascii_of_string s) /\ is_whitespace c = true.

(** [text] is the decimal numeral of [n]: read as a signed decimal numeral
    it denotes [n]. *)
Definition decimal_of (n : Z) (text : string) : Prop :=
  exists d, NilZero.int_of_string text = Some d /\ Z.of_int d = n.

(** The flag name of a camel-case key, read off in one pass: an upper-case
    letter [X] contributes [-x], any other character its lower-case form. *)
Definition flag_char (c : ascii) : string :=
  if is_A_Z c
  then String "-" (String (toLowerCase_char c) EmptyString)
  else String (toLowerCase_char c) EmptyString.

Fixpoint hyphenated (key : string) : string :=
  match key with
  | EmptyString => EmptyString
  | String c key' => flag_char c ++ hyphenated key'
  end.

Definition flag_token (prefix key : string) : string :=
  "--" ++ prefix ++ hyphenated key.

(** A sequence of strings and numbers, as a value and as the texts of its
    elements. *)
Definition scalar (x : string + number) : jsval :=
  match x with
  | inl s => VStr s
  | inr n => VNumber n
  end.

Definition scalar_text (x : string + number) : string :=
  match x with
  | inl s => s
  | inr n => Number_toString n
  end.

(** The tokens at the even positions of [tokens] are all [flag]. *)
Fixpoint flag_at_even_positions (flag : string) (tokens : list string) : Prop :=
  match tokens with
  | [] => True
  | t :: rest =>
      t = flag /\
      match rest with
      | [] => True
      | _ :: rest' => flag_at_even_positions flag rest'
      end
  end.

(** An element a sequence inner value may not hold: a string with
    whitespace, or a mapping. *)
Definition disallowed_element (e : jsval) : Prop :=
  (exists s, e = VStr s /\ contains_whitespace s) \/ (exists props, e = VObj props).

(** An inner entry of a flat mapping that breaks the whitespace-free
    constraint or holds a disallowed nested shape. *)
Definition disallowed_inner (key : string) (value : jsval) : Prop :=
  contains_whitespace key
  \/ (exists s, value = VStr s /\ contains_whitespace s)
  \/ (exists elems e, value = VArr elems /\ In e elems /\ disallowed_element e).

(** Whether no event of [trace] settles the completion signal. *)
Definition no_settling (trace : list Toolbox.child_event) : bool :=
  forallb (fun ev => negb (Toolbox.settles ev)) trace.

(** Whether [text] holds no line feed. *)
Definition no_line_feed (text : string) : bool :=
  forallb (fun c => negb (Ascii.eqb c "010"%char)) (list_ascii_of_string text).

(** The text a child has written to its standard output. *)
Fixpoint stdout_text (trace : list Toolbox.child_event) : string :=
  match trace with
  | [] => ""
  | Toolbox.StdoutData chunk :: rest => chunk ++ stdout_text rest
  | _ :: rest => stdout_text rest
  end.

(** An engine that refuses every pattern, for the runs that never reach
    [new RegExp]. *)
Definition refusing_engine : Machine.RegExpEngine :=
  {| Machine.RegExp := unit;
     Machine.new_RegExp := fun _ _ => Throw (SyntaxError "Invalid regular expression");
     Machine.String_match := fun _ _ => None |}.

(** What [exec] and [run] add to the encoded options, [-T] when
    [disablePseudoTty] is set, and the mapping they encode. *)
Definition tty_flag (props : list (string * jsval)) : list jsval :=
  if truthy (lookup "disablePseudoTty" props) then [VStr "-T"] else [].

Definition without_tty (props : list (string * jsval)) : jsval :=
  delete_prop (VObj props) "disablePseudoTty".

(** The event line of the specification's example and the record it
    denotes. *)
Definition quoted (s : string) : string := dquote ++ s ++ dquote.

Definition example_line : string :=
  "{" ++ quoted "time" ++ ":" ++ quoted "t" ++ ","
      ++ quoted "type" ++ ":" ++ quoted "container" ++ ","
      ++ quoted "action" ++ ":" ++ quoted "create" ++ ","
      ++ quoted "id" ++ ":" ++ quoted "1" ++ ","
      ++ quoted "service" ++ ":" ++ quoted "db" ++ "}".

Definition example_event : jsval :=
  VObj [("time", VStr "t"); ("type", VStr "container"); ("action", VStr "create");
        ("id", VStr "1"); ("service", VStr "db")].

(** Whether a notification is one of the error channel. *)
Definition is_error (n : Compose.notification) : bool :=
  match n with
  | Compose.ErrorNotification _ => true
  | _ => false
  end.

(** A completion that is a normal return or a validation error. *)
Definition validation_only {A} (c : completion A) : Prop :=
  match c with
  | Return _ => True
  | Throw (DockerToolboxOptionsParseError _) => True
  | Throw _ => False
  end.

Definition validation_error {A} (c : completion A) : Prop :=
  exists message, c = Throw (DockerToolboxOptionsParseError message).

(** The errors of the encoder: its validation error, and the [TypeError] of
    a value that has no conversion to a string. *)
Definition encoder_error (e : exn) : Prop :=
  match e with
  | DockerToolboxOptionsParseError _ | TypeError _ => True
  | SyntaxError _ | Error _ => False
  end.

(** The error of a conversion to a string that fails. *)
Definition cannot_convert : exn :=
  TypeError "Cannot convert object to primitive value".

(** A completion that is a normal return or an error of the encoder, and
    one that is an error of the encoder. *)
Definition encoder_only {A} (c : completion A) : Prop :=
  match c with
  | Return _ => True
  | Throw e => encoder_error e
  end.

Definition refused {A} (c : completion A) : Prop :=
  exists e, c = Throw e /\ encoder_error e.

(** A value that has a conversion to a string: it is no object with a
    property named [toString], and no sequence holding one. *)
Fixpoint stringifiable (v : jsval) : bool :=
  match v with
  | VObj props => negb (has_own "toString" props)
  | VArr elems => forallb stringifiable elems
  | _ => true
  end.

(** A configuration mapping every conversion of which succeeds: the
    encoder converts the elements of a sequence value and, for its message,
    an inner value that is a mapping. *)
Definition convertible_inner (kv : string * jsval) : bool :=
  match snd kv with
  | VObj _ as value => stringifiable value
  | _ => true
  end.

Definition convertible_entry (kv : string * jsval) : bool :=
  match snd kv with
  | VArr elems => forallb stringifiable elems
  | VObj inner => forallb convertible_inner inner
  | _ => true
  end.

Definition convertible (props : list (string * jsval)) : bool :=
  forallb convertible_entry props.

(** A call that the encoder stops: it throws an error of the encoder, and
    the validation error when the conversions of [props] succeed. *)
Definition rejected {A} (props : list (string * jsval)) (c : completion A) : Prop :=
  refused c /\ (convertible props = true -> validation_error c).

(** The [-f] pairs [_spawn] puts before the command, one per
    configuration path. *)
Definition config_flags (paths : list string) : list jsval :=
  flat_map (fun confPath => [VStr "-f"; VStr confPath]) paths.

(** What holds of a run of [refreshEnv] on [machine] at every moment. *)
Definition refresh_invariant (machine : Machine.DockerMachine) (r : Machine.refresh) : Prop :=
  Machine.retEnvPromise r = Machine.machineEnvPromise (Machine.envPromise r)
  /\ (Machine.result (Machine.envPromise r) = Toolbox.Pending ->
      Machine.machineEnvPromise (Machine.envPromise r) = Toolbox.Pending)
  /\ (Machine.result (Machine.envPromise r) <> Toolbox.Pending ->
      Machine.machineEnvPromise (Machine.envPromise r) <> Toolbox.Pending)
  /\ match Machine.retEnvPromise r with
     | Toolbox.Fulfilled env =>
         Machine.this r
         = {| Machine._name := Machine._name machine; Machine._env := env |}
     | Toolbox.Rejected _ | Toolbox.Pending => Machine.this r = machine
     end.

End Spec.

(* ===================================================================== *)
(** * [src/index.ts]: further operations of the two facades                *)
(* ===================================================================== *)

Module JSOps.
Import JS.

(** [key in v] for a name that no prototype defines: own properties of an
    object, indices and [length] of an array, and a [TypeError] when [v] is
    not an object. *)
Definition has_prop (v : jsval) (key : string) : completion bool :=
  match v with
  | VObj props => Return (existsb (fun kv => String.eqb (fst kv) key) props)
  | VArr elems =>
      Return (existsb (fun kv => String.eqb (fst kv) key) (indexed_from 0 elems)
              || String.eqb key "length")
  | _ =>
      text <- toString v ;;
      Throw (TypeError ("Cannot use 'in' operator to search for '" ++ key
                        ++ "' in " ++ text))
  end.

(** [s.trim()]: the whitespace code units at both ends are removed. *)
Fixpoint trimStart (s : string) : string :=
  match s with
  | EmptyString => EmptyString
  | String c s' => if is_whitespace c then trimStart s' else s
  end.

Fixpoint trimEnd (s : string) : string :=
  match s with
  | EmptyString => EmptyString
  | String c s' =>
      match trimEnd s' with
      | EmptyString => if is_whitespace c then EmptyString else String c EmptyString
      | String _ _ as t => String c t
      end
  end.

Definition trim (s : string) : string := trimEnd (trimStart s).

End JSOps.

Module ComposeOps.
Import JS JSOps Toolbox Compose.

(** [configPath?: string|string[]]. *)
Inductive configPath_value :=
| OnePath (path : string)
| Paths (paths : list string).

Record IDockerComposeOptions := {
  configPath : option configPath_value;
  machine : option Machine.DockerMachine
}.

(** [constructor(options?)]: [options.machine] is read first, whether or
    not [options] was given; an empty string is a falsy [configPath]. *)
Definition constructor (options : option IDockerComposeOptions)
  : completion DockerCompose :=
  match options with
  | None => Throw (TypeError "Cannot read property 'machine' of undefined")
  | Some options =>
      Return
        {| _machine := machine options;
           _configPaths :=
             match configPath options with
             | Some (OnePath path) => if String.eqb path "" then [] else [path]
             | Some (Paths paths) => paths
             | None => []
             end |}
  end.

(** [kill(...args)]. With a service name first, [services = args] and
    nothing is removed from it. *)
Definition kill (this : DockerCompose) (args : list jsval) : completion spawn_request :=
  if (0 <? length args)%nat then
    match typeof (nth_arg args 0) with
    | TString =>
        let services := args in
        encoded <- Util.optionsToArgs (VObj []) None ;;
        let optArgs := (map VStr encoded ++ [])%list in
        Return (_spawn this "kill" (optArgs ++ services)%list)
    | _ =>
        let options := nth_arg args 0 in
        let services := splice_first args in
        present <- has_prop options "signal" ;;
        signal <- (if present then get_prop options "signal" else Return VUndefined) ;;
        let special := if present then [VStr "-s"; signal] else [] in
        let options := if present then delete_prop options "signal" else options in
        encoded <- Util.optionsToArgs options None ;;
        let optArgs := (map VStr encoded ++ special)%list in
        Return (_spawn this "kill" (optArgs ++ services)%list)
    end
  else Return (_spawn this "kill" ([] ++ [])%list).

(** [rm(...args)]. *)
Definition rm (this : DockerCompose) (args : list jsval) : completion spawn_request :=
  if (0 <? length args)%nat then
    match typeof (nth_arg args 0) with
    | TString =>
        let services := args in
        encoded <- Util.optionsToArgs (VObj []) None ;;
        let optArgs := (map VStr encoded ++ [])%list in
        Return (_spawn this "rm" (optArgs ++ services)%list)
    | _ =>
        let options := nth_arg args 0 in
        let services := splice_first args in
        removeVolumes <- get_prop options "removeVolumes" ;;
        let special := if truthy removeVolumes then [VStr "-v"] else [] in
        let options := delete_prop options "removeVolumes" in
        encoded <- Util.optionsToArgs options None ;;
        let optArgs := (map VStr encoded ++ special)%list in
        Return (_spawn this "rm" (optArgs ++ services)%list)
    end
  else Return (_spawn this "rm" ([] ++ [])%list).

(** [version(options?)]: the request,
    [_serviceCommandSpawn('version', options || {})]. *)
Definition version_request (this : DockerCompose) (options : jsval)
  : completion spawn_request :=
  _serviceCommandSpawn this "version" [or_else options (VObj [])].

(** [options && options.short]. *)
Definition wants_short (options : jsval) : bool :=
  match options with
  | VObj props => truthy (lookup "short" props)
  | _ => false
  end.

(** One run of [version(options)]: the text gathered by the ['data']
    listener, the completion signal of the child and the promise handed to
    the caller. *)
Record version_run := {
  versionString : string;
  versionPromise : promise unit;
  returned : promise jsval
}.

Definition version_start : version_run :=
  {| versionString := ""; versionPromise := Pending; returned := Pending |}.

(** The reaction to one event of the child. The listener exists in the
    short form only; the other form hands [versionPromise] itself to the
    caller. *)
Definition version_step (options : jsval) (r : version_run) (ev : child_event)
  : version_run :=
  match ev with
  | StdoutData chunk =>
      if wants_short options
      then {| versionString := versionString r ++ chunk;
              versionPromise := versionPromise r;
              returned := returned r |}
      else r
  | StderrData _ => r
  | ErrorEvent _ | CloseEvent _ _ =>
      match versionPromise r with
      | Pending =>
          let p := promise_step "docker-compose" Pending ev in
          {| versionString := versionString r;
             versionPromise := p;
             returned :=
               if wants_short options
               then promise_then p (fun _ => Return (VStr (trim (versionString r))))
               else promise_then p (fun _ => Return VUndefined) |}
      | _ => r
      end
  end.

(** [version(options)] after the child has emitted [trace]. *)
Definition version (options : jsval) (trace : list child_event) : version_run :=
  fold_left (version_step options) trace version_start.

End ComposeOps.

Module MachineOps.
Import JS JSOps Toolbox Machine.

(** The body of [for (const port of openPort)]. *)
Definition open_port_step (specialOptArgs : list jsval) (port : jsval) : list jsval :=
  push (push specialOptArgs (VStr "--open-port")) port.

(** [DockerMachine.create(name, driver, options)]: the request of the
    [create] child. *)
Definition create (name driver : string) (options : jsval) : completion spawn_request :=
  special <-
    (if String.eqb driver "azure" then
       present <- has_prop options "openPort" ;;
       if present then
         openPort <- get_prop options "openPort" ;;
         let options := delete_prop options "openPort" in
         match openPort with
         | VArr ports => Return (options, fold_left open_port_step ports [])
         | _ => Return (options, push (push [] (VStr "--open-port")) openPort)
         end
       else Return (options, [])
     else Return (options, [])) ;;
  let '(options, specialOptArgs) := special in
  optArgs <- Util.optionsToArgs options
               (Some {| Util.prefix := Some (driver ++ "-") |}) ;;
  let createArgs :=
    ([VStr "create"; VStr "--driver"; VStr driver]
     ++ map VStr optArgs ++ specialOptArgs ++ [VStr name])%list in
  Return (spawnDockerMachine createArgs
            {| Toolbox.env := None; Toolbox.windowsHide := false |}).

End MachineOps.

(* ===================================================================== *)
(** * Further vocabulary                                                   *)
(* ===================================================================== *)

Module Vocabulary.
Import JS.

Definition has_whitespace (s : string) : bool :=
  existsb is_whitespace (list_ascii_of_string s).

(** The elements a sequence inner value may hold, and the inner entries a
    flat mapping may hold, as [optionsToArgs] checks them. *)
Definition accepted_element (e : jsval) : bool :=
  match e with
  | VStr s => negb (has_whitespace s)
  | VNull | VArr _ | VObj _ => false
  | VUndefined | VBool _ | VNumber _ => true
  end.

Definition accepted_inner (kv : string * jsval) : bool :=
  negb (has_whitespace (fst kv)) &&
  match snd kv with
  | VStr s => negb (has_whitespace s)
  | VArr elems => forallb accepted_element elems
  | VObj _ => false
  | VUndefined | VNull | VBool _ | VNumber _ => true
  end.

(** The text of an accepted inner value: a sequence is joined with commas,
    an [undefined] element giving the empty string. *)
Definition element_text (e : jsval) : string :=
  match e with
  | VBool true => "true"
  | VBool false => "false"
  | VNumber x => Number_toString x
  | VStr s => s
  | _ => ""
  end.

Definition inner_text (value : jsval) : string :=
  match value with
  | VUndefined => "undefined"
  | VNull => "null"
  | VArr elems => String.concat "," (map element_text elems)
  | _ => element_text value
  end.

(** The tokens of a flat mapping: the flag and [key=value] for each inner
    entry, in order. *)
Definition flat_tokens (flag : string) (inner : list (string * jsval)) : list string :=
  flat_map (fun kv => [flag; fst kv ++ "=" ++ inner_text (snd kv)]) inner.

(** The values for which an entry puts no token. *)
Definition emits_nothing (v : jsval) : bool :=
  match v with
  | VBool false | VNull | VUndefined | VObj [] => true
  | _ => false
  end.

(** Letters and digits of ASCII. *)
Definition is_alnum (c : ascii) : bool :=
  let n := nat_of_ascii c in
  (((48 <=? n) && (n <=? 57)) || ((65 <=? n) && (n <=? 90))
   || ((97 <=? n) && (n <=? 122)))%nat.

Definition alnum_key (key : string) : bool :=
  forallb is_alnum (list_ascii_of_string key).

Definition no_capital (s : string) : bool :=
  forallb (fun c => negb (is_A_Z c)) (list_ascii_of_string s).

Definition capitals (key : string) : nat :=
  length (filter is_A_Z (list_ascii_of_string key)).

(** The camel-case reading of a flag name: a hyphen and the letter after
    it stand for the upper-case letter. *)
Fixpoint camelize (s : string) : string :=
  match s with
  | EmptyString => EmptyString
  | String c s' =>
      if Ascii.eqb c "-" then
        match s' with
        | String c' s'' => String (ascii_of_nat (nat_of_ascii c' - 32)) (camelize s'')
        | EmptyString => String c EmptyString
        end
      else String c (camelize s')
  end.

(** The [--open-port] pairs of the Azure driver. *)
Definition open_port_flags (ports : list jsval) : list jsval :=
  flat_map (fun port => [VStr "--open-port"; port]) ports.

(** Whether a property is present, and the value it is read as. *)
Definition present (key : string) (props : list (string * jsval)) : bool :=
  existsb (fun kv => String.eqb (fst kv) key) props.

Definition without (key : string) (props : list (string * jsval)) : jsval :=
  delete_prop (VObj props) key.

(** The keys of a mapping. *)
Definition keys (m : Toolbox.IDockerMachineEnv) : list string := map fst m.

(** Whether a text begins, or ends, with a whitespace character. *)
Definition starts_with_whitespace (s : string) : bool :=
  match s with
  | String c _ => is_whitespace c
  | EmptyString => false
  end.

Fixpoint ends_with_whitespace (s : string) : bool :=
  match s with
  | EmptyString => false
  | String c EmptyString => is_whitespace c
  | String _ s' => ends_with_whitespace s'
  end.

(** The line feed and a text between double quotes. *)
Definition newline : string := String "010"%char EmptyString.

Definition in_quotes (s : string) : string := dquote ++ s ++ dquote.

End Vocabulary.

(* ===================================================================== *)
(** * Properties of the argument encoder                                   *)
(* ===================================================================== *)

Module UtilFacts.
Import JS Util Spec.

Lemma search_whitespace_from_spec (s : string) (i : Z) :
  0 <= i ->
  (search_whitespace_from i s >? -1) = existsb is_whitespace (list_ascii_of_string s).
Proof.
  revert i. induction s as [|c s IH]; intros i Hi; simpl.
  - reflexivity.
  - destruct (is_whitespace c); simpl.
    + apply Z.gtb_lt. lia.
    + apply IH. lia.
Qed.

Lemma search_whitespace_found (s : string) :
  contains_whitespace s <-> (search_whitespace s >? -1) = true.
Proof.
  unfold search_whitespace, contains_whitespace.
  rewrite search_whitespace_from_spec by lia.
  symmetry. apply existsb_exists.
Qed.

Lemma search_whitespace_not_found (s : string) :
  ~ contains_whitespace s <-> (search_whitespace s >? -1) = false.
Proof.
  rewrite search_whitespace_found. apply not_true_iff_false.
Qed.

Lemma numeral_decimal (n : Z) : decimal_of n (numeral n).
Proof.
  exists (Z.to_int n). split.
  - unfold numeral.
    apply NilZero.isi; destruct n as [|p|p]; simpl; try discriminate;
      intros H; injection H; apply DecimalPos.Unsigned.to_uint_nonnil.
  - apply DecimalZ.of_to.
Qed.

(** ** Conversions to a string *)

Lemma jsval_nested_ind (P : jsval -> Prop) :
  P VUndefined -> P VNull -> (forall b, P (VBool b)) -> (forall x, P (VNumber x)) ->
  (forall s, P (VStr s)) ->
  (forall elems, Forall P elems -> P (VArr elems)) ->
  (forall props, P (VObj props)) ->
  forall v, P v.
Proof.
  intros Hu Hn Hb Hx Hs Ha Ho.
  fix IH 1. intros [| |b|x|s|elems|props].
  - exact Hu.
  - exact Hn.
  - apply Hb.
  - apply Hx.
  - apply Hs.
  - apply Ha. induction elems as [|e elems IHelems]; constructor.
    + apply IH.
    + exact IHelems.
  - apply Ho.
Qed.

Lemma toString_VArr (elems : list jsval) : toString (VArr elems) = join elems ",".
Proof.
  induction elems as [|x elems IH]; [reflexivity|].
  cbn [toString join] in *. unfold join_elem.
  destruct elems as [|y elems]; [reflexivity|].
  rewrite <- IH. reflexivity.
Qed.

Lemma toString_stringifiable (v : jsval) :
  if stringifiable v then exists text, toString v = Return text
  else toString v = Throw cannot_convert.
Proof.
  induction v as [| |b|x|s|elems IH|props] using jsval_nested_ind;
    try (cbn; eauto; fail).
  - destruct b; cbn; eauto.
  - rewrite toString_VArr. cbn [stringifiable].
    induction IH as [|x elems Hx _ IHelems]; [cbn; eauto|].
    cbn [forallb join].
    assert (Helem : if stringifiable x then exists text, join_elem x = Return text
                    else join_elem x = Throw cannot_convert).
    { destruct x; cbn [join_elem stringifiable]; eauto; exact Hx. }
    destruct (stringifiable x); cbn [andb].
    + destruct Helem as [sx ->]. cbn [bind].
      destruct elems as [|y elems]; [cbn; eauto|].
      destruct (forallb stringifiable (y :: elems)).
      * destruct IHelems as [srest ->]. cbn [bind]. eauto.
      * rewrite IHelems. reflexivity.
    + rewrite Helem. reflexivity.
  - cbn [stringifiable toString]. destruct (has_own "toString" props); cbn; eauto.
Qed.

Lemma join_stringifiable (elems : list jsval) (sep : string) :
  if forallb stringifiable elems then exists text, join elems sep = Return text
  else join elems sep = Throw cannot_convert.
Proof.
  induction elems as [|x elems IH]; [cbn; eauto|].
  cbn [forallb join].
  assert (Helem : if stringifiable x then exists text, join_elem x = Return text
                  else join_elem x = Throw cannot_convert).
  { pose proof (toString_stringifiable x) as Hx.
    destruct x; cbn [join_elem stringifiable]; eauto; exact Hx. }
  destruct (stringifiable x); cbn [andb].
  - destruct Helem as [sx ->]. cbn [bind].
    destruct elems as [|y elems]; [cbn; eauto|].
    destruct (forallb stringifiable (y :: elems)).
    + destruct IH as [srest ->]. cbn [bind]. eauto.
    + rewrite IH. reflexivity.
  - rewrite Helem. reflexivity.
Qed.

Lemma toString_only (v : jsval) : encoder_only (toString v).
Proof.
  pose proof (toString_stringifiable v) as H.
  destruct (stringifiable v); [destruct H as [text ->]|rewrite H]; exact I.
Qed.

Lemma join_only (elems : list jsval) (sep : string) : encoder_only (join elems sep).
Proof.
  pose proof (join_stringifiable elems sep) as H.
  destruct (forallb stringifiable elems); [destruct H as [text ->]|rewrite H]; exact I.
Qed.

Lemma join_scalars (l : list (string + number)) :
  join (map scalar l) "," = Return (String.concat "," (map scalar_text l)).
Proof.
  induction l as [|x l IH]; [reflexivity|].
  cbn [map join String.concat].
  assert (Hx : join_elem (scalar x) = Return (scalar_text x)) by (destruct x; reflexivity).
  rewrite Hx. cbn [bind].
  destruct l as [|y l]; [reflexivity|].
  cbn [map] in *. rewrite IH. reflexivity.
Qed.

Lemma toLowerCase_replace_capitals (key : string) :
  toLowerCase (replace_capitals key) = hyphenated key.
Proof.
  induction key as [|c key IH]; [reflexivity|].
  simpl. unfold flag_char. destruct (is_A_Z c); simpl; rewrite IH; reflexivity.
Qed.

Lemma optKey_of_flag_token (prefix key : string) :
  optKey_of prefix key = flag_token prefix key.
Proof.
  unfold optKey_of, flag_token. now rewrite toLowerCase_replace_capitals.
Qed.

(** ** Loops *)

Lemma for_each_app {A S} (body : S -> A -> completion S) (xs ys : list A) (acc : S) :
  for_each body (xs ++ ys)%list acc =
  (acc' <- for_each body xs acc ;; for_each body ys acc').
Proof.
  revert acc. induction xs as [|x xs IH]; intros acc; simpl; [reflexivity|].
  destruct (body acc x); simpl; auto.
Qed.

Lemma for_each_validation_only {A S} (body : S -> A -> completion S) (xs : list A) :
  (forall acc x, In x xs -> validation_only (body acc x)) ->
  forall acc, validation_only (for_each body xs acc).
Proof.
  induction xs as [|x xs IH]; intros Hbody acc; simpl; [exact I|].
  pose proof (Hbody acc x (or_introl eq_refl)) as Hx.
  destruct (body acc x) as [acc'|e]; simpl; [|exact Hx].
  apply IH. intros acc0 y Hy. apply Hbody. now right.
Qed.

Lemma for_each_encoder_only {A S} (body : S -> A -> completion S) (xs : list A) :
  (forall acc x, encoder_only (body acc x)) ->
  forall acc, encoder_only (for_each body xs acc).
Proof.
  intros Hbody. induction xs as [|x xs IH]; intros acc; simpl; [exact I|].
  specialize (Hbody acc x). destruct (body acc x) as [acc'|e]; simpl; auto.
Qed.

Lemma for_each_validation_error {A S} (body : S -> A -> completion S)
  (xs : list A) (x : A) :
  (forall acc y, In y xs -> validation_only (body acc y)) ->
  In x xs ->
  (forall acc, validation_error (body acc x)) ->
  forall acc, validation_error (for_each body xs acc).
Proof.
  induction xs as [|y xs IH]; intros Honly Hin Hx acc; [contradiction|].
  simpl. destruct Hin as [->|Hin].
  - destruct (Hx acc) as [message ->]. now exists message.
  - pose proof (Honly acc y (or_introl eq_refl)) as Hy.
    destruct (body acc y) as [acc'|e]; simpl.
    + apply IH; auto. intros acc0 z Hz. apply Honly. now right.
    + destruct e; try contradiction. now eexists.
Qed.

Lemma for_each_refused {A S} (body : S -> A -> completion S)
  (xs : list A) (x : A) :
  (forall acc y, encoder_only (body acc y)) ->
  In x xs ->
  (forall acc, refused (body acc x)) ->
  forall acc, refused (for_each body xs acc).
Proof.
  intros Honly Hin Hx. induction xs as [|y xs IH]; intros acc; [contradiction|].
  simpl. destruct Hin as [->|Hin].
  - destruct (Hx acc) as (e & -> & He). now exists e.
  - specialize (Honly acc y). destruct (body acc y) as [acc'|e]; simpl.
    + now apply IH.
    + now exists e.
Qed.

Lemma validation_error_refused {A} (c : completion A) : validation_error c -> refused c.
Proof. intros [message ->]. eexists. split; [reflexivity|exact I]. Qed.

Lemma validation_only_encoder_only {A} (c : completion A) :
  validation_only c -> encoder_only c.
Proof. destruct c as [a|[]]; simpl; auto. Qed.

Lemma check_array_element_only (v : jsval) : validation_only (check_array_element v).
Proof.
  destruct v; simpl; try exact I.
  destruct (search_whitespace s >? -1); exact I.
Qed.

Lemma check_elements_only (elems : list jsval) :
  validation_only (for_each (fun _ v => check_array_element v) elems tt).
Proof.
  apply for_each_validation_only. intros _ v _. apply check_array_element_only.
Qed.

(** The elements that pass the check of a sequence inner value all have a
    conversion. *)
Lemma checked_elements_join (elems : list jsval) :
  for_each (fun _ v => check_array_element v) elems tt = Return tt ->
  exists text, join elems "," = Return text.
Proof.
  induction elems as [|x elems IH]; cbn [for_each join]; [eauto|].
  destruct (check_array_element x) as [[]|e] eqn:Hx; cbn [bind]; [|discriminate].
  intros Hrest. destruct (IH Hrest) as [srest Hsrest].
  assert (Helem : exists sx, join_elem x = Return sx).
  { destruct x as [| |b|n|s|l|props]; try discriminate; cbn; eauto.
    destruct b; eauto. }
  destruct Helem as [sx ->]. cbn [bind].
  destruct elems as [|y elems]; [eauto|].
  rewrite Hsrest. cbn [bind]. eauto.
Qed.

Lemma check_inner_value_only (value : jsval) : encoder_only (check_inner_value value).
Proof.
  destruct value as [| |b|n|s|elems|props]; cbn [check_inner_value]; try exact I.
  - destruct (search_whitespace s >? -1); exact I.
  - apply validation_only_encoder_only, check_elements_only.
  - pose proof (toString_only (VObj props)) as H.
    destruct (toString (VObj props)); cbn [bind]; [exact I|exact H].
Qed.

Lemma check_inner_value_validation (key : string) (value : jsval) :
  convertible_inner (key, value) = true -> validation_only (check_inner_value value).
Proof.
  unfold convertible_inner. cbn [snd].
  destruct value as [| |b|n|s|elems|props]; cbn [check_inner_value]; intros Hc; try exact I.
  - destruct (search_whitespace s >? -1); exact I.
  - apply check_elements_only.
  - pose proof (toString_stringifiable (VObj props)) as H. rewrite Hc in H.
    destruct H as [text ->]. exact I.
Qed.

(** The conversion of a checked inner value succeeds. *)
Lemma checked_inner_value_text (value : jsval) :
  check_inner_value value = Return tt -> exists text, toString value = Return text.
Proof.
  destruct value as [| |b|n|s|elems|props]; cbn [check_inner_value]; intros Hc;
    try (cbn; eauto; fail).
  - destruct b; cbn; eauto.
  - rewrite toString_VArr. now apply checked_elements_join.
  - destruct (toString (VObj props)); discriminate.
Qed.

Lemma inner_step_only (optKey : string) (optArgs : list string) (kv : string * jsval) :
  encoder_only (inner_step optKey optArgs kv).
Proof.
  destruct kv as [key value]. unfold inner_step.
  destruct (search_whitespace key >? -1); [exact I|].
  pose proof (check_inner_value_only value) as H.
  destruct (check_inner_value value) as [[]|e] eqn:Hc; cbn [bind]; [|exact H].
  destruct (checked_inner_value_text _ Hc) as [text ->]. exact I.
Qed.

Lemma inner_step_validation (optKey : string) (optArgs : list string)
  (kv : string * jsval) :
  convertible_inner kv = true -> validation_only (inner_step optKey optArgs kv).
Proof.
  destruct kv as [key value]. intros Hconv. unfold inner_step.
  destruct (search_whitespace key >? -1); [exact I|].
  pose proof (check_inner_value_validation _ _ Hconv) as H.
  destruct (check_inner_value value) as [[]|e] eqn:Hc; cbn [bind]; [|exact H].
  destruct (checked_inner_value_text _ Hc) as [text ->]. exact I.
Qed.

Lemma inner_loop_only (optKey : string) (inner : list (string * jsval))
  (optArgs : list string) :
  encoder_only (for_each (inner_step optKey) inner optArgs).
Proof. apply for_each_encoder_only. intros acc x. apply inner_step_only. Qed.

Lemma inner_loop_validation (optKey : string) (inner : list (string * jsval))
  (optArgs : list string) :
  forallb convertible_inner inner = true ->
  validation_only (for_each (inner_step optKey) inner optArgs).
Proof.
  intros Hconv. apply for_each_validation_only. intros acc x Hx.
  apply inner_step_validation. rewrite forallb_forall in Hconv. now apply Hconv.
Qed.

Lemma outer_step_only (prefix : string) (optArgs : list string) (kv : string * jsval) :
  encoder_only (outer_step prefix optArgs kv).
Proof.
  destruct kv as [key optionValue]. unfold outer_step.
  destruct optionValue as [| |b|n|s|elems|inner]; try exact I.
  - pose proof (join_only elems ",") as H.
    destruct (join elems ","); cbn [bind]; [exact I|exact H].
  - apply inner_loop_only.
Qed.

Lemma outer_step_validation (prefix : string) (optArgs : list string)
  (kv : string * jsval) :
  convertible_entry kv = true -> validation_only (outer_step prefix optArgs kv).
Proof.
  destruct kv as [key optionValue]. unfold outer_step, convertible_entry. cbn [snd].
  destruct optionValue as [| |b|n|s|elems|inner]; intros Hconv; try exact I.
  - pose proof (join_stringifiable elems ",") as H. rewrite Hconv in H.
    destruct H as [text ->]. exact I.
  - now apply inner_loop_validation.
Qed.

Lemma optionsToArgs_only (options : jsval)
  (parseOptions : option IOptionsToArgsParseOptions) :
  encoder_only (optionsToArgs options parseOptions).
Proof.
  unfold optionsToArgs. apply for_each_encoder_only. intros acc x. apply outer_step_only.
Qed.

Lemma optionsToArgs_validation (props : list (string * jsval))
  (parseOptions : option IOptionsToArgsParseOptions) :
  convertible props = true -> validation_only (optionsToArgs (VObj props) parseOptions).
Proof.
  intros Hconv. unfold optionsToArgs. cbn [for_in].
  apply for_each_validation_only. intros acc x Hx.
  apply outer_step_validation. unfold convertible in Hconv.
  rewrite forallb_forall in Hconv. now apply Hconv.
Qed.

Lemma check_array_element_disallowed (e : jsval) :
  disallowed_element e -> validation_error (check_array_element e).
Proof.
  intros [(s & -> & Hs)|(props & ->)]; simpl.
  - apply search_whitespace_found in Hs. rewrite Hs. now eexists.
  - now eexists.
Qed.

Lemma inner_step_disallowed (optKey : string) (optArgs : list string)
  (key : string) (value : jsval) :
  disallowed_inner key value -> validation_error (inner_step optKey optArgs (key, value)).
Proof.
  intros Hbad. unfold inner_step.
  destruct (search_whitespace key >? -1) eqn:Hkey; [now eexists|].
  destruct Hbad as [Hk|[(s & -> & Hs)|(elems & e & -> & Hin & He)]].
  - apply search_whitespace_found in Hk. congruence.
  - simpl. apply search_whitespace_found in Hs. rewrite Hs. simpl. now eexists.
  - assert (Hthrow : validation_error (check_inner_value (VArr elems))).
    { simpl. apply for_each_validation_error with (x := e); auto.
      - intros _ v _. apply check_array_element_only.
      - intros _. now apply check_array_element_disallowed. }
    destruct Hthrow as [message ->]. simpl. now eexists.
Qed.

Lemma outer_step_disallowed (prefix : string) (optArgs : list string)
  (key : string) (inner : list (string * jsval)) (k : string) (v : jsval) :
  In (k, v) inner -> disallowed_inner k v ->
  refused (outer_step prefix optArgs (key, VObj inner))
  /\ (convertible_entry (key, VObj inner) = true ->
      validation_error (outer_step prefix optArgs (key, VObj inner))).
Proof.
  intros Hin Hbad. unfold outer_step, convertible_entry. cbn [for_in snd]. split.
  - apply for_each_refused with (x := (k, v)); auto.
    + intros acc y. apply inner_step_only.
    + intros acc. now apply validation_error_refused, inner_step_disallowed.
  - intros Hconv. apply for_each_validation_error with (x := (k, v)); auto.
    + intros acc y Hy. apply inner_step_validation.
      rewrite forallb_forall in Hconv. now apply Hconv.
    + intros acc. now apply inner_step_disallowed.
Qed.

Lemma optionsToArgs_disallowed (props : list (string * jsval))
  (parseOptions : option IOptionsToArgsParseOptions)
  (key : string) (inner : list (string * jsval)) (k : string) (v : jsval) :
  In (key, VObj inner) props -> In (k, v) inner -> disallowed_inner k v ->
  rejected props (optionsToArgs (VObj props) parseOptions).
Proof.
  intros Hkey Hin Hbad. unfold optionsToArgs. cbn [for_in]. split.
  - apply for_each_refused with (x := (key, VObj inner)); auto.
    + intros acc y. apply outer_step_only.
    + intros acc. now apply (outer_step_disallowed _ _ _ _ k v).
  - intros Hconv. unfold convertible in Hconv. rewrite forallb_forall in Hconv.
    apply for_each_validation_error with (x := (key, VObj inner)); auto.
    + intros acc y Hy. apply outer_step_validation. now apply Hconv.
    + intros acc. apply (outer_step_disallowed _ _ _ _ k v); auto.
Qed.

End UtilFacts.

Module EncoderShape.
Import JS Util Spec UtilFacts.

Lemma push_push {A} (l : list A) (x y : A) : push (push l x) y = (l ++ [x; y])%list.
Proof. unfold push. now rewrite <- app_assoc. Qed.

Lemma inner_step_tokens (optKey : string) (optArgs out : list string) (kv : string * jsval) :
  inner_step optKey optArgs kv = Return out ->
  exists token, out = (optArgs ++ [optKey; token])%list.
Proof.
  destruct kv as [key value]. unfold inner_step.
  destruct (search_whitespace key >? -1); [discriminate|].
  destruct (check_inner_value value) as [[]|e]; cbn [bind]; [|discriminate].
  destruct (toString value) as [text|e]; cbn [bind]; [|discriminate].
  intros [= <-]. rewrite push_push. now eexists.
Qed.

Lemma inner_loop_tokens (optKey : string) (inner : list (string * jsval)) :
  forall optArgs out,
    for_each (inner_step optKey) inner optArgs = Return out ->
    exists chunk, out = (optArgs ++ chunk)%list /\ flag_at_even_positions optKey chunk.
Proof.
  induction inner as [|kv inner IH]; intros optArgs out; cbn [for_each].
  - intros [= <-]. exists []. split; [now rewrite app_nil_r|exact I].
  - destruct (inner_step optKey optArgs kv) as [acc|e] eqn:Hstep;
      cbn [bind]; [|discriminate].
    intros Hrest. destruct (inner_step_tokens _ _ _ _ Hstep) as [token ->].
    destruct (IH _ _ Hrest) as (chunk & -> & Hchunk).
    exists (optKey :: token :: chunk). split.
    + now rewrite <- app_assoc.
    + simpl. auto.
Qed.

Lemma outer_step_tokens (prefix : string) (optArgs out : list string)
  (key : string) (optionValue : jsval) :
  outer_step prefix optArgs (key, optionValue) = Return out ->
  exists chunk,
    out = (optArgs ++ chunk)%list /\
    flag_at_even_positions (flag_token prefix key) chunk.
Proof.
  unfold outer_step. rewrite optKey_of_flag_token.
  destruct optionValue as [| |b|n|s|elems|inner].
  - intros [= <-]. exists []. split; [now rewrite app_nil_r|exact I].
  - intros [= <-]. exists []. split; [now rewrite app_nil_r|exact I].
  - intros [= <-]. destruct b.
    + eexists [_]. split; [reflexivity|simpl; auto].
    + exists []. split; [now rewrite app_nil_r|exact I].
  - intros [= <-]. rewrite push_push. eexists [_; _]. split; [reflexivity|simpl; auto].
  - intros [= <-]. rewrite push_push. eexists [_; _]. split; [reflexivity|simpl; auto].
  - destruct (join elems ",") as [text|e]; cbn [bind]; [|discriminate].
    intros [= <-]. rewrite push_push. eexists [_; _]. split; [reflexivity|simpl; auto].
  - apply inner_loop_tokens.
Qed.

Lemma outer_loop_tokens (prefix : string) (props : list (string * jsval)) :
  forall optArgs out,
    for_each (outer_step prefix) props optArgs = Return out ->
    exists chunks,
      out = (optArgs ++ concat chunks)%list /\
      Forall2 (fun kv chunk => flag_at_even_positions (flag_token prefix (fst kv)) chunk)
        props chunks.
Proof.
  induction props as [|[key optionValue] props IH]; intros optArgs out;
    cbn [for_each].
  - intros [= <-]. exists []. split; [now rewrite app_nil_r|constructor].
  - destruct (outer_step prefix optArgs (key, optionValue)) as [acc|e] eqn:Hstep;
      cbn [bind]; [|discriminate].
    intros Hrest. destruct (outer_step_tokens _ _ _ _ _ Hstep) as (chunk & -> & Hchunk).
    destruct (IH _ _ Hrest) as (chunks & -> & Hchunks).
    exists (chunk :: chunks). split.
    + simpl. now rewrite <- app_assoc.
    + now constructor.
Qed.

End EncoderShape.

Module ComposeFacts.
Import JS Spec Toolbox Compose.

Lemma fold_concat {A} (ls : list (list A)) (acc : list A) :
  fold_left (fun confArgs confArg => (confArgs ++ confArg)%list) ls acc
  = (acc ++ concat ls)%list.
Proof.
  revert acc. induction ls as [|l ls IH]; intros acc; simpl.
  - now rewrite app_nil_r.
  - rewrite IH. now rewrite app_assoc.
Qed.

Lemma spawn_args (this : DockerCompose) (command : string) (args : list jsval) :
  Toolbox.args (_spawn this command args)
  = (config_flags (_configPaths this) ++ [VStr command] ++ args)%list.
Proof.
  unfold _spawn, spawnDockerCompose, _spawnDockerToolbox, config_flags. simpl.
  rewrite fold_concat. simpl. now rewrite flat_map_concat_map.
Qed.

Lemma serviceCommandSpawn_nil (this : DockerCompose) (command : string) :
  _serviceCommandSpawn this command [] = Return (_spawn this command []).
Proof. reflexivity. Qed.

Lemma serviceCommandSpawn_string (this : DockerCompose) (command : string)
  (first : string) (rest : list jsval) :
  _serviceCommandSpawn this command (VStr first :: rest)
  = Return (_spawn this command rest).
Proof. reflexivity. Qed.

Lemma serviceCommandSpawn_options (this : DockerCompose) (command : string)
  (props : list (string * jsval)) (services : list jsval) :
  _serviceCommandSpawn this command (VObj props :: services)
  = (optArgs <- Util.optionsToArgs (VObj props) None ;;
     Return (_spawn this command (map VStr optArgs ++ services)%list)).
Proof. reflexivity. Qed.

End ComposeFacts.

Module CallerFacts.
Import JS Spec Toolbox Compose.

(** Each operation that encodes a leading options mapping throws what the
    encoder throws on the mapping it encodes. *)
Lemma serviceCommandSpawn_throws (this : DockerCompose) (command : string)
  (props : list (string * jsval)) (services : list jsval) (e : exn) :
  Util.optionsToArgs (VObj props) None = Throw e ->
  _serviceCommandSpawn this command (VObj props :: services) = Throw e.
Proof. intros H. rewrite ComposeFacts.serviceCommandSpawn_options. now rewrite H. Qed.

Lemma bundle_throws (this : DockerCompose) (options : jsval) (e : exn) :
  Util.optionsToArgs options None = Throw e -> bundle this options = Throw e.
Proof. intros H. unfold bundle. now rewrite H. Qed.

Lemma config_throws (this : DockerCompose) (options : jsval) (e : exn) :
  Util.optionsToArgs options None = Throw e -> config this options = Throw e.
Proof. intros H. unfold config. now rewrite H. Qed.

Lemma exec_throws (this : DockerCompose) (props : list (string * jsval))
  (rest : list jsval) (e : exn) :
  Util.optionsToArgs (without_tty props) None = Throw e ->
  exec this (VObj props :: rest) = Throw e.
Proof.
  intros H. unfold exec, without_tty in *.
  cbn [length Nat.ltb Nat.leb nth_arg nth typeof get_prop bind].
  now rewrite H.
Qed.

Lemma run_throws (this : DockerCompose) (props : list (string * jsval))
  (rest : list jsval) (e : exn) :
  Util.optionsToArgs (without_tty props) None = Throw e ->
  run this (VObj props :: rest) = Throw e.
Proof.
  intros H. unfold run, without_tty in *.
  cbn [length Nat.ltb Nat.leb nth_arg nth typeof get_prop bind].
  now rewrite H.
Qed.

Lemma kill_throws (this : DockerCompose) (props : list (string * jsval))
  (services : list jsval) (e : exn) :
  Util.optionsToArgs
    (if has_own "signal" props then delete_prop (VObj props) "signal" else VObj props)
    None = Throw e ->
  ComposeOps.kill this (VObj props :: services) = Throw e.
Proof.
  intros H. unfold ComposeOps.kill.
  cbn [length Nat.ltb Nat.leb nth_arg nth typeof JSOps.has_prop bind].
  fold (has_own "signal" props).
  destruct (has_own "signal" props); cbn [get_prop bind]; now rewrite H.
Qed.

Lemma rm_throws (this : DockerCompose) (props : list (string * jsval))
  (services : list jsval) (e : exn) :
  Util.optionsToArgs (delete_prop (VObj props) "removeVolumes") None = Throw e ->
  ComposeOps.rm this (VObj props :: services) = Throw e.
Proof.
  intros H. unfold ComposeOps.rm.
  cbn [length Nat.ltb Nat.leb nth_arg nth typeof get_prop bind].
  now rewrite H.
Qed.

Lemma create_throws (name driver : string) (props : list (string * jsval)) (e : exn) :
  Util.optionsToArgs
    (if String.eqb driver "azure" && has_own "openPort" props
     then delete_prop (VObj props) "openPort" else VObj props)
    (Some {| Util.prefix := Some (driver ++ "-") |}) = Throw e ->
  MachineOps.create name driver (VObj props) = Throw e.
Proof.
  intros H. unfold MachineOps.create.
  destruct (String.eqb driver "azure"); cbn [andb] in H.
  - cbn [JSOps.has_prop bind]. fold (has_own "openPort" props).
    destruct (has_own "openPort" props).
    + cbn [get_prop bind].
      destruct (lookup "openPort" props); cbn [bind]; now rewrite H.
    + cbn [bind]. now rewrite H.
  - cbn [bind]. now rewrite H.
Qed.

(** Deleting a property keeps the other entries and the conversions. *)
Lemma In_delete_prop (props : list (string * jsval)) (deleted key : string) (v : jsval) :
  In (key, v) props -> key <> deleted ->
  In (key, v) (filter (fun kv => negb (String.eqb (fst kv) deleted)) props).
Proof.
  intros Hin Hne. apply filter_In. split; [exact Hin|].
  cbn [fst]. now apply negb_true_iff, String.eqb_neq.
Qed.

Lemma convertible_delete_prop (props : list (string * jsval)) (deleted : string) :
  convertible props = true ->
  convertible (filter (fun kv => negb (String.eqb (fst kv) deleted)) props) = true.
Proof.
  unfold convertible. rewrite !forallb_forall. intros H x Hx.
  apply filter_In in Hx. now apply H.
Qed.

Lemma rejected_throws {A B} (props props' : list (string * jsval))
  (c : completion A) (c' : completion B) :
  rejected props' c ->
  (convertible props = true -> convertible props' = true) ->
  (forall e, c = Throw e -> c' = Throw e) ->
  rejected props c'.
Proof.
  intros [(e & Hc & He) Hval] Hconv Hthrows. split.
  - exists e. split; [now apply Hthrows|exact He].
  - intros Hprops. destruct (Hval (Hconv Hprops)) as [message Hm].
    exists message. now apply Hthrows.
Qed.

End CallerFacts.

(* ===================================================================== *)
(** * The argument encoder: value kinds, validation, flag tokens           *)
(* ===================================================================== *)

Section Encoder.
Import JS Util Spec UtilFacts EncoderShape.

(** C1.  For every singleton configuration mapping [{key: value}] the
    encoder emits: for [true], the flag token alone; for a number, whichever
    number it is, the flag token and the text of its [toString()], which for
    a safe integer is its decimal numeral; for a string, the flag token and
    the value, wrapped in double quotes exactly when the value contains
    whitespace; for a sequence of strings and numbers, the flag token and
    one token joining the elements with commas, nothing being quoted.  The
    four examples of the specification follow, and a sequence with a
    whitespace-containing element is joined as it stands. *)
Theorem C1_value_kinds (key : string) :
  optionsToArgs (VObj [(key, VBool true)]) None = Return [flag_token "" key]
  /\ (forall x : number,
        optionsToArgs (VObj [(key, VNumber x)]) None
        = Return [flag_token "" key; Number_toString x])
  /\ (forall (n : Z) (is_safe : safe n = true), exists text,
        decimal_of n text /\
        optionsToArgs (VObj [(key, VNumber (SafeInteger n is_safe))]) None
        = Return [flag_token "" key; text])
  /\ (forall s : string,
        (contains_whitespace s ->
           optionsToArgs (VObj [(key, VStr s)]) None
           = Return [flag_token "" key; dquote ++ s ++ dquote])
        /\ (~ contains_whitespace s ->
           optionsToArgs (VObj [(key, VStr s)]) None = Return [flag_token "" key; s]))
  /\ (forall elems : list (string + number),
        optionsToArgs (VObj [(key, VArr (map scalar elems))]) None
        = Return [flag_token "" key; String.concat "," (map scalar_text elems)])
  /\ optionsToArgs (VObj [("testOption", VBool true)]) None = Return ["--test-option"]
  /\ optionsToArgs (VObj [("testOption", VNum 42)]) None = Return ["--test-option"; "42"]
  /\ optionsToArgs (VObj [("testOption", VStr "a b")]) None
     = Return ["--test-option"; dquote ++ "a b" ++ dquote]
  /\ optionsToArgs (VObj [("testOption", VArr [VStr "a"; VStr "b"; VStr "c"])]) None
     = Return ["--test-option"; "a,b,c"]
  /\ optionsToArgs (VObj [("testOption", VArr [VStr "a b"; VNum 7])]) None
     = Return ["--test-option"; "a b,7"].
Proof.
  unfold optionsToArgs. cbn [for_in for_each prefix_of outer_step bind].
  rewrite optKey_of_flag_token.
  split; [reflexivity|]. split; [reflexivity|]. split; [|split; [|split]].
  - intros n is_safe. exists (numeral n). split; [apply numeral_decimal|reflexivity].
  - intros s. split; intros Hs.
    + apply search_whitespace_found in Hs. now rewrite Hs.
    + apply search_whitespace_not_found in Hs. now rewrite Hs.
  - intros elems. now rewrite join_scalars.
  - repeat split; reflexivity.
Qed.

Lemma C1_value_kinds_witness :
  contains_whitespace "a b" /\
  optionsToArgs (VObj [("testOption", VStr "a b")]) None
  = Return [flag_token "" "testOption"; dquote ++ "a b" ++ dquote].
Proof.
  assert (H : contains_whitespace "a b").
  { exists " "%char. split; [simpl; auto|reflexivity]. }
  split; [exact H|].
  exact (proj1 (proj1 (proj2 (proj2 (proj2 (C1_value_kinds "testOption")))) "a b") H).
Defined.

(** C2, as the code has it.  When a configuration mapping holds a
    flat-mapping value one of whose inner entries has a key with whitespace,
    a string value with whitespace, or a sequence value with a
    whitespace-containing string element or a mapping element,
    [optionsToArgs] throws and returns no token sequence.  What it throws is
    its [DockerToolboxOptionsParseError] when every conversion to a string
    the mapping asks for succeeds, and otherwise that error or the
    [TypeError] of the conversion that failed.  Every operation that encodes
    the mapping ([_serviceCommandSpawn], [bundle], [config], [exec], [run],
    [kill], [rm], [DockerMachine.create]) throws in the same way before it
    makes a spawn request, as long as the flat mapping is not the property
    the operation takes out of the mapping first. *)
Theorem C2_validation_error
  (props : list (string * jsval)) (parseOptions : option IOptionsToArgsParseOptions)
  (key : string) (inner : list (string * jsval)) (k : string) (v : jsval) :
  In (key, VObj inner) props ->
  In (k, v) inner ->
  disallowed_inner k v ->
  rejected props (optionsToArgs (VObj props) parseOptions)
  /\ (forall tokens, optionsToArgs (VObj props) parseOptions <> Return tokens)
  /\ (forall this command services,
        rejected props (Compose._serviceCommandSpawn this command (VObj props :: services)))
  /\ (forall this, rejected props (Compose.bundle this (VObj props)))
  /\ (forall this, rejected props (Compose.config this (VObj props)))
  /\ (key <> "disablePseudoTty" ->
      forall this rest,
        rejected props (Compose.exec this (VObj props :: rest))
        /\ rejected props (Compose.run this (VObj props :: rest)))
  /\ (key <> "signal" ->
      forall this services, rejected props (ComposeOps.kill this (VObj props :: services)))
  /\ (key <> "removeVolumes" ->
      forall this services, rejected props (ComposeOps.rm this (VObj props :: services)))
  /\ (forall name driver,
        (driver = "azure" -> key <> "openPort") ->
        rejected props (MachineOps.create name driver (VObj props))).
Proof.
  intros Hkey Hin Hbad.
  assert (Henc : forall po, rejected props (optionsToArgs (VObj props) po)).
  { intros po. now apply optionsToArgs_disallowed with (key := key) (inner := inner) (k := k) (v := v). }
  assert (Hdel : forall deleted po, key <> deleted ->
            rejected props (optionsToArgs (delete_prop (VObj props) deleted) po)).
  { intros deleted po Hne. cbn [delete_prop].
    pose proof (optionsToArgs_disallowed _ po key inner k v
                  (CallerFacts.In_delete_prop props deleted key _ Hkey Hne) Hin Hbad) as H.
    apply (CallerFacts.rejected_throws props _ _ _ H); [|auto].
    apply CallerFacts.convertible_delete_prop. }
  split; [apply Henc|]. split.
  { intros tokens. destruct (Henc parseOptions) as [(e & -> & _) _]. discriminate. }
  split.
  { intros this command services.
    apply (CallerFacts.rejected_throws props props _ _ (Henc None)); auto.
    intros e. apply CallerFacts.serviceCommandSpawn_throws. }
  split.
  { intros this. apply (CallerFacts.rejected_throws props props _ _ (Henc None)); auto.
    intros e. apply CallerFacts.bundle_throws. }
  split.
  { intros this. apply (CallerFacts.rejected_throws props props _ _ (Henc None)); auto.
    intros e. apply CallerFacts.config_throws. }
  split.
  { intros Hne this rest. split.
    - apply (CallerFacts.rejected_throws props props _ _ (Hdel "disablePseudoTty" None Hne));
        auto.
      intros e. apply CallerFacts.exec_throws.
    - apply (CallerFacts.rejected_throws props props _ _ (Hdel "disablePseudoTty" None Hne));
        auto.
      intros e. apply CallerFacts.run_throws. }
  split.
  { intros Hne this services.
    assert (H : rejected props
                  (optionsToArgs (if has_own "signal" props
                                  then delete_prop (VObj props) "signal" else VObj props)
                     None)).
    { destruct (has_own "signal" props); [now apply Hdel|apply Henc]. }
    apply (CallerFacts.rejected_throws props props _ _ H); auto.
    intros e. apply CallerFacts.kill_throws. }
  split.
  { intros Hne this services.
    apply (CallerFacts.rejected_throws props props _ _ (Hdel "removeVolumes" None Hne)); auto.
    intros e. apply CallerFacts.rm_throws. }
  intros name driver Hne.
  assert (H : rejected props
                (optionsToArgs (if String.eqb driver "azure" && has_own "openPort" props
                                then delete_prop (VObj props) "openPort" else VObj props)
                   (Some {| prefix := Some (driver ++ "-") |}))).
  { destruct (String.eqb driver "azure") eqn:Hdriver; cbn [andb]; [|apply Henc].
    destruct (has_own "openPort" props); [|apply Henc].
    apply Hdel. apply Hne. now apply String.eqb_eq. }
  apply (CallerFacts.rejected_throws props props _ _ H); auto.
  intros e. apply CallerFacts.create_throws.
Qed.

Lemma C2_validation_error_witness :
  exists message,
    optionsToArgs
      (VObj [("pull", VBool true);
             ("buildArg", VObj [("KEY", VStr "VALUE");
                                ("list", VArr [VStr "a"; VObj []])])])
      None
    = Throw (DockerToolboxOptionsParseError message).
Proof.
  refine (proj2 (proj1 (C2_validation_error
                          [("pull", VBool true);
                           ("buildArg", VObj [("KEY", VStr "VALUE");
                                              ("list", VArr [VStr "a"; VObj []])])]
                          None "buildArg"
                          [("KEY", VStr "VALUE"); ("list", VArr [VStr "a"; VObj []])]
                          "list" (VArr [VStr "a"; VObj []]) _ _ _)) eq_refl).
  - simpl; auto.
  - simpl; auto.
  - right. right. exists [VStr "a"; VObj []], (VObj []).
    split; [reflexivity|]. split; [simpl; auto|]. right. now exists [].
Defined.

(** C2, as the specification has it, fails.  In [{a: [{toString: 1}], b:
    {'x y': 1}}] the flat mapping [b] has an inner key with whitespace, and
    in [{a: {b: {toString: 1}, 'x y': 1}}] so has the flat mapping [a]; on
    both [optionsToArgs] throws the [TypeError] of a conversion to a string,
    which is not its validation error, and so does [_serviceCommandSpawn]. *)
Lemma C2_counterexample :
  In ("b", VObj [("x y", VNum 1)])
     [("a", VArr [VObj [("toString", VNum 1)]]); ("b", VObj [("x y", VNum 1)])]
  /\ In ("x y", VNum 1) [("x y", VNum 1)]
  /\ disallowed_inner "x y" (VNum 1)
  /\ optionsToArgs
       (VObj [("a", VArr [VObj [("toString", VNum 1)]]); ("b", VObj [("x y", VNum 1)])])
       None
     = Throw (TypeError "Cannot convert object to primitive value")
  /\ optionsToArgs
       (VObj [("a", VObj [("b", VObj [("toString", VNum 1)]); ("x y", VNum 1)])])
       None
     = Throw (TypeError "Cannot convert object to primitive value")
  /\ Compose._serviceCommandSpawn
       {| Compose._machine := None; Compose._configPaths := [] |} "up"
       [VObj [("a", VArr [VObj [("toString", VNum 1)]]); ("b", VObj [("x y", VNum 1)])]]
     = Throw (TypeError "Cannot convert object to primitive value")
  /\ ~ validation_error
         (optionsToArgs
            (VObj [("a", VArr [VObj [("toString", VNum 1)]]);
                   ("b", VObj [("x y", VNum 1)])])
            None).
Proof.
  split; [simpl; auto|]. split; [simpl; auto|]. split.
  { left. exists " "%char. split; [simpl; auto|reflexivity]. }
  split; [reflexivity|]. split; [reflexivity|]. split; [reflexivity|].
  intros [message H]. discriminate H.
Qed.

(** C3.  For every prefix and every key, the flag token of an entry is
    [--], the prefix and the key with a hyphen before each upper-case
    letter [A-Z] and every character in lower case: an entry with value
    [true] encodes to that token alone, and in the encoding of any mapping
    each entry contributes a run of tokens whose even positions all hold
    the flag token of its key.  With prefix [test-prefix-] the key
    [testNumber] gives [--test-prefix-test-number]. *)
Theorem C3_flag_token
  (props : list (string * jsval)) (parseOptions : option IOptionsToArgsParseOptions) :
  (forall out,
      optionsToArgs (VObj props) parseOptions = Return out ->
      exists chunks,
        out = concat chunks /\
        Forall2
          (fun kv chunk =>
             flag_at_even_positions (flag_token (prefix_of parseOptions) (fst kv)) chunk)
          props chunks)
  /\ (forall prefix key,
        optionsToArgs (VObj [(key, VBool true)]) (Some {| prefix := Some prefix |})
        = Return [flag_token prefix key])
  /\ flag_token "test-prefix-" "testNumber" = "--test-prefix-test-number"
  /\ optionsToArgs (VObj [("testNumber", VNum 10)])
       (Some {| prefix := Some "test-prefix-" |})
     = Return ["--test-prefix-test-number"; "10"].
Proof.
  split; [|split; [|split]].
  - intros out Hout. unfold optionsToArgs in Hout. cbn [for_in] in Hout.
    destruct (outer_loop_tokens _ _ _ _ Hout) as (chunks & -> & Hchunks).
    now exists chunks.
  - intros prefix key. unfold optionsToArgs. simpl.
    now rewrite optKey_of_flag_token.
  - reflexivity.
  - reflexivity.
Qed.

Lemma C3_flag_token_witness :
  exists chunks,
    ["--test-prefix-test-number"; "10"; "--test-prefix-test-bool";
     "--test-prefix-test-object"; "KEY=VALUE"] = concat chunks /\
    Forall2
      (fun kv chunk => flag_at_even_positions (flag_token "test-prefix-" (fst kv)) chunk)
      [("testNumber", VNum 10); ("testBool", VBool true);
       ("testObject", VObj [("KEY", VStr "VALUE")])]
      chunks.
Proof.
  exact (proj1 (C3_flag_token
                  [("testNumber", VNum 10); ("testBool", VBool true);
                   ("testObject", VObj [("KEY", VStr "VALUE")])]
                  (Some {| prefix := Some "test-prefix-" |}))
           _ eq_refl).
Defined.

End Encoder.

(* ===================================================================== *)
(** * String facts used by the line decoders                               *)
(* ===================================================================== *)

Module StringFacts.
Import JS Spec.

Lemma string_app_assoc (a b c : string) : (a ++ b) ++ c = a ++ (b ++ c).
Proof. induction a as [|x a IH]; simpl; [reflexivity|now rewrite IH]. Qed.

Lemma string_app_nil_r (a : string) : a ++ "" = a.
Proof. induction a as [|x a IH]; simpl; [reflexivity|now rewrite IH]. Qed.

Lemma length_app (a b : string) :
  String.length (a ++ b) = (String.length a + String.length b)%nat.
Proof. induction a as [|x a IH]; simpl; [reflexivity|now rewrite IH]. Qed.

Lemma substring_prefix (a b : string) :
  String.substring 0 (String.length a) (a ++ b) = a.
Proof.
  induction a as [|x a IH]; simpl.
  - destruct b; reflexivity.
  - now rewrite IH.
Qed.

Lemma drop_prefix (a b : string) : drop (String.length a) (a ++ b) = b.
Proof. induction a as [|x a IH]; simpl; [reflexivity|exact IH]. Qed.

Lemma index_LF_none (s : string) :
  no_line_feed s = true -> String.index 0 Lines.LF s = None.
Proof.
  unfold no_line_feed, Lines.LF.
  induction s as [|c s IH]; intros H; [reflexivity|].
  cbn [list_ascii_of_string forallb] in H.
  apply andb_true_iff in H as [Hc Hs].
  cbn [String.index String.prefix].
  destruct (ascii_dec "010" c) as [<-|_]; [discriminate|].
  now rewrite (IH Hs).
Qed.

Lemma index_LF_first (before after : string) :
  no_line_feed before = true ->
  String.index 0 Lines.LF (before ++ Lines.LF ++ after) = Some (String.length before).
Proof.
  unfold no_line_feed, Lines.LF.
  induction before as [|c before IH]; intros H.
  - destruct after; reflexivity.
  - cbn [list_ascii_of_string forallb] in H.
    apply andb_true_iff in H as [Hc Hs].
    cbn [String.append String.index String.prefix String.length].
    destruct (ascii_dec "010" c) as [<-|_]; [discriminate|].
    cbn [String.append] in IH. now rewrite (IH Hs).
Qed.

Lemma indexOf_LF_none (s : string) :
  no_line_feed s = true -> indexOf s Lines.LF = -1.
Proof. intros H. unfold indexOf. now rewrite index_LF_none. Qed.

Lemma indexOf_LF_first (before after : string) :
  no_line_feed before = true ->
  indexOf (before ++ Lines.LF ++ after) Lines.LF = Z.of_nat (String.length before).
Proof. intros H. unfold indexOf. now rewrite index_LF_first. Qed.

Lemma substr_before (before rest : string) :
  substr (before ++ rest) 0 (Z.of_nat (String.length before)) = before.
Proof.
  unfold substr, substr_start, strlen. simpl.
  replace (Z.to_nat (Z.min 0 (Z.of_nat (String.length (before ++ rest))))) with 0%nat by lia.
  rewrite Nat2Z.id. apply substring_prefix.
Qed.

Lemma substr_from_after (before rest : string) :
  substr_from (before ++ rest) (Z.of_nat (String.length before)) = rest.
Proof.
  unfold substr_from, substr_start, strlen.
  destruct (Z.ltb_spec (Z.of_nat (String.length before)) 0) as [Hneg|_]; [lia|].
  rewrite length_app.
  replace (Z.to_nat (Z.min _ _)) with (String.length before) by lia.
  apply drop_prefix.
Qed.

End StringFacts.

(* ===================================================================== *)
(** * The generic line splitter                                            *)
(* ===================================================================== *)

Module LinesFacts.
Import JS Spec Lines StringFacts.

Section Handler.

Variable shouldContinue : list string -> bool.

(** A chunk without a line feed is appended to the pending line. *)
Lemma chunk_loop_no_LF (fuel : nat) (st : LineReadStream) (chunk : string) :
  no_line_feed chunk = true ->
  chunk_loop shouldContinue (S fuel) st chunk
  = ({| currentLine := currentLine st ++ chunk;
        pushed := pushed st;
        attached := attached st |}, Returned).
Proof.
  intros H. simpl. now rewrite (indexOf_LF_none _ H).
Qed.

(** One iteration on a chunk that holds a line feed: the text before it
    completes the pending line, and the rest of the chunk starts with that
    same line feed. *)
Lemma chunk_loop_LF (fuel : nat) (st : LineReadStream) (before after : string) :
  no_line_feed before = true ->
  chunk_loop shouldContinue (S fuel) st (before ++ LF ++ after)
  = let pushed' := push (pushed st) (currentLine st ++ before) in
    if negb (shouldContinue pushed')
    then ({| currentLine := ""; pushed := pushed'; attached := false |}, Returned)
    else chunk_loop shouldContinue fuel
           {| currentLine := ""; pushed := pushed'; attached := attached st |}
           (LF ++ after).
Proof.
  intros H. cbn [chunk_loop]. rewrite (indexOf_LF_first _ _ H).
  replace (Z.of_nat (String.length before) >? -1) with true
    by (symmetry; apply Z.gtb_lt; lia).
  now rewrite substr_before, substr_from_after.
Qed.

Lemma chunk_loop_extends (fuel : nat) :
  forall st chunk, exists more,
    pushed (fst (chunk_loop shouldContinue fuel st chunk)) = (pushed st ++ more)%list.
Proof.
  induction fuel as [|fuel IH]; intros st chunk; cbn [chunk_loop].
  - exists []. simpl. now rewrite app_nil_r.
  - destruct (indexOf chunk LF >? -1).
    + destruct (negb _).
      * eexists [_]. reflexivity.
      * match goal with |- context [chunk_loop _ _ ?s ?c] => destruct (IH s c) as [more ->] end.
        simpl. unfold push. rewrite <- app_assoc. now eexists.
    + exists []. simpl. now rewrite app_nil_r.
Qed.

Lemma feed_extends (fuel : nat) (chunks : list string) :
  forall st, exists more,
    pushed (fst (feed shouldContinue fuel st chunks)) = (pushed st ++ more)%list.
Proof.
  induction chunks as [|chunk chunks IH]; intros st; cbn [feed].
  - exists []. simpl. now rewrite app_nil_r.
  - destruct (attached st); [|apply IH].
    unfold chunkHandler.
    destruct (chunk_loop_extends fuel st chunk) as [more Hmore].
    destruct (chunk_loop shouldContinue fuel st chunk) as [st' []]; simpl in Hmore.
    + destruct (IH st') as [more' ->]. rewrite Hmore, <- app_assoc. now eexists.
    + simpl. rewrite Hmore. now eexists.
Qed.

(** The first unit a chunk with a line feed emits. *)
Lemma chunk_loop_first_unit (fuel : nat) (st : LineReadStream) (before after : string) :
  no_line_feed before = true ->
  exists more,
    pushed (fst (chunk_loop shouldContinue (S fuel) st (before ++ LF ++ after)))
    = (pushed st ++ (currentLine st ++ before)%string :: more)%list.
Proof.
  intros H. rewrite (chunk_loop_LF _ _ _ _ H). cbv zeta.
  destruct (negb _).
  - exists []. reflexivity.
  - match goal with |- context [chunk_loop _ _ ?s ?c] =>
      destruct (chunk_loop_extends fuel s c) as [more ->] end.
    simpl. unfold push. rewrite <- app_assoc. now eexists.
Qed.

End Handler.

(** When the consumer never asks to stop, a call of [chunkHandler] on a
    chunk that holds a line feed is still running after any number of
    iterations: the rest of the chunk keeps its leading line feed. *)
Lemma chunk_loop_spins (fuel : nat) :
  forall st after,
    snd (chunk_loop (fun _ => true) fuel st (LF ++ after)) = Running.
Proof.
  induction fuel as [|fuel IH]; intros st after; [reflexivity|].
  pose proof (chunk_loop_LF (fun _ => true) fuel st "" after eq_refl) as Hstep.
  change ("" ++ LF ++ after) with (LF ++ after) in Hstep.
  rewrite Hstep. cbv zeta. simpl negb. cbv iota. apply IH.
Qed.

(** The chunks of the specification's example: whatever the consumer
    answers, the first unit emitted is [abc]. *)
Lemma example_first_unit (shouldContinue : list string -> bool) (fuel : nat)
  (later : list string) :
  exists more,
    pushed (fst (feed shouldContinue (S fuel) _read
                   ("ab" :: ("c" ++ LF ++ "de") :: later)))
    = "abc" :: more.
Proof.
  set (st1 := {| currentLine := "ab"; pushed := []; attached := true |}).
  change (feed shouldContinue (S fuel) _read ("ab" :: ("c" ++ LF ++ "de") :: later))
    with (feed shouldContinue (S fuel) st1 (("c" ++ LF ++ "de") :: later)).
  cbn [feed attached st1]. unfold chunkHandler.
  destruct (chunk_loop_first_unit shouldContinue fuel st1 "c" "de" eq_refl) as [more Hmore].
  destruct (chunk_loop shouldContinue (S fuel) st1 ("c" ++ LF ++ "de")) as [st2 []];
    simpl in Hmore.
  - destruct (feed_extends shouldContinue (S fuel) later st2) as [more' ->].
    rewrite Hmore. simpl. now eexists.
  - simpl. rewrite Hmore. now eexists.
Qed.

End LinesFacts.

Section LineSplitter.
Import JS Spec Lines StringFacts LinesFacts.

(** C4, as the code has it.  Whatever the consumer answers to [push]: a
    chunk without a line feed emits nothing and is appended to the pending
    line, and the first unit emitted for a chunk with a line feed is the
    pending line followed by the text of the chunk before its first line
    feed.  For the chunks [ab], [c\nde], [f\n]: nothing is emitted for [ab],
    and the first unit emitted is [abc], once [c\nde] has arrived. *)
Theorem C4_first_unit
  (shouldContinue : list string -> bool) (fuel : nat)
  (st : LineReadStream) (before after : string) :
  (no_line_feed before = true ->
   chunkHandler shouldContinue (S fuel) st before
   = ({| currentLine := currentLine st ++ before;
         pushed := pushed st;
         attached := attached st |}, Returned)
   /\ exists more,
        pushed (fst (chunkHandler shouldContinue (S fuel) st (before ++ LF ++ after)))
        = (pushed st ++ (currentLine st ++ before)%string :: more)%list)
  /\ pushed (fst (feed shouldContinue (S fuel) _read ["ab"])) = []
  /\ (exists more,
        pushed (fst (feed shouldContinue (S fuel) _read ["ab"; "c" ++ LF ++ "de"]))
        = "abc" :: more)
  /\ (exists more,
        pushed (fst (feed shouldContinue (S fuel) _read
                       ["ab"; "c" ++ LF ++ "de"; "f" ++ LF]))
        = "abc" :: more).
Proof.
  split; [|split; [|split]].
  - intros H. unfold chunkHandler. split.
    + now apply chunk_loop_no_LF.
    + now apply chunk_loop_first_unit.
  - reflexivity.
  - apply example_first_unit.
  - apply example_first_unit.
Qed.

Lemma C4_first_unit_witness :
  exists more,
    pushed (fst (chunkHandler (fun _ => false) 1
                   {| currentLine := "ab"; pushed := []; attached := true |}
                   ("c" ++ LF ++ "de")))
    = ([] ++ ("ab" ++ "c")%string :: more)%list.
Proof.
  exact (proj2 (proj1 (C4_first_unit (fun _ => false) 0
                         {| currentLine := "ab"; pushed := []; attached := true |}
                         "c" "de")
                  eq_refl)).
Defined.

(** C4, as the specification states it, fails: for no answers of the
    consumer and no number of loop iterations are the units emitted for
    [ab], [c\nde], [f\n] the two units [abcde] and [f]. *)
Lemma C4_counterexample :
  ~ (exists (shouldContinue : list string -> bool) (fuel : nat),
        pushed (fst (feed shouldContinue fuel _read
                       ["ab"; "c" ++ LF ++ "de"; "f" ++ LF]))
        = ["abcde"; "f"]).
Proof.
  intros (shouldContinue & [|fuel] & H).
  - discriminate H.
  - destruct (example_first_unit shouldContinue fuel ["f" ++ LF]) as [more Hmore].
    rewrite Hmore in H. discriminate H.
Qed.

End LineSplitter.

(* ===================================================================== *)
(** * The process facade                                                   *)
(* ===================================================================== *)

Module ToolboxFacts.
Import JS Spec Toolbox.

Lemma settled_stays (program : string) (trace : list child_event) (p : promise unit) :
  p <> Pending -> fold_left (promise_step program) trace p = p.
Proof.
  revert p. induction trace as [|ev trace IH]; intros p Hp; [reflexivity|].
  simpl. replace (promise_step program p ev) with p; [now apply IH|].
  destruct p; [contradiction| |]; destruct ev; simpl; try reflexivity;
    unfold on_close; destruct (code_is_zero code); reflexivity.
Qed.

Lemma pending_until_settled (program : string) (trace : list child_event) :
  no_settling trace = true ->
  fold_left (promise_step program) trace Pending = Pending.
Proof.
  unfold no_settling. induction trace as [|ev trace IH]; [reflexivity|].
  simpl. intros H. apply andb_true_iff in H as [Hev Htrace].
  destruct ev; try discriminate; now apply IH.
Qed.

Lemma signal_at_first_settling (program : string) (before after : list child_event)
  (ev : child_event) :
  no_settling before = true ->
  settles ev = true ->
  completion_signal program (before ++ ev :: after)%list
  = promise_step program Pending ev.
Proof.
  intros Hbefore Hev. unfold completion_signal.
  rewrite fold_left_app, (pending_until_settled _ _ Hbefore). simpl.
  apply settled_stays. destruct ev; try discriminate Hev.
  - discriminate.
  - simpl. unfold on_close. destruct (code_is_zero code); discriminate.
Qed.

Lemma code_is_zero_iff (code : option Z) : code_is_zero code = true <-> code = Some 0.
Proof.
  destruct code as [n|]; simpl.
  - rewrite Z.eqb_eq. split; [now intros ->|now intros [= ->]].
  - split; discriminate.
Qed.

End ToolboxFacts.

Section ProcessFacade.
Import JS Spec Toolbox ToolboxFacts.

(** C6.  Let the child emit [before] without an [error] or [close] event;
    the completion signal is then still pending.  If [close] comes next
    with exit code [code], the signal is fulfilled when [code] is [0] and
    only then; for any other code it is rejected with the error whose
    message is the program name, [ responded with non-zero code ] and the
    code.  If [error] comes next (the child could not be spawned), the
    signal is rejected with that error at once, no [close] event being
    needed.  Later events change nothing. *)
Theorem C6_completion_signal
  (program : string) (before after : list child_event) :
  no_settling before = true ->
  completion_signal program before = Pending
  /\ (forall code signal,
        completion_signal program (before ++ CloseEvent code signal :: after)%list
        = if code_is_zero code then Fulfilled tt
          else Rejected
                 (Error (program ++ " responded with non-zero code " ++ code_toString code)))
  /\ (forall code signal,
        completion_signal program (before ++ CloseEvent code signal :: after)%list
        = Fulfilled tt
        <-> code = Some 0)
  /\ (forall err,
        completion_signal program (before ++ ErrorEvent err :: after)%list = Rejected err)
  /\ (forall err,
        completion_signal program (before ++ [ErrorEvent err])%list = Rejected err).
Proof.
  intros Hbefore.
  assert (Hclose : forall code signal,
    completion_signal program (before ++ CloseEvent code signal :: after)%list
    = if code_is_zero code then Fulfilled tt
      else Rejected
             (Error (program ++ " responded with non-zero code " ++ code_toString code))).
  { intros code signal. rewrite signal_at_first_settling by auto.
    simpl. unfold on_close. now destruct (code_is_zero code). }
  repeat split.
  - now apply pending_until_settled.
  - exact Hclose.
  - rewrite Hclose. destruct (code_is_zero code) eqn:Hcode.
    + intros _. now apply code_is_zero_iff.
    + discriminate.
  - intros Hcode. rewrite Hclose.
    apply code_is_zero_iff in Hcode. now rewrite Hcode.
  - intros err. now rewrite signal_at_first_settling by auto.
  - intros err. now rewrite signal_at_first_settling by auto.
Qed.

Lemma C6_completion_signal_witness :
  completion_signal "docker-compose"
    ([StdoutData "Building db"; StderrData "warning"] ++
     CloseEvent (Some 1) None :: [])%list
  = Rejected (Error "docker-compose responded with non-zero code 1").
Proof.
  exact (proj1 (proj2 (C6_completion_signal "docker-compose"
                         [StdoutData "Building db"; StderrData "warning"] []
                         eq_refl))
           (Some 1) None).
Defined.

End ProcessFacade.

(* ===================================================================== *)
(** * The command facade                                                   *)
(* ===================================================================== *)

Section Dispatcher.
Import JS Spec Toolbox Compose ComposeFacts.

(** C9.  For each of [build], [down], [logs], [pause], [ps], [pull],
    [push], [restart], [start], [stop], [top], [unpause] and [up]: called
    with a service name first and no options mapping, the operation spawns
    with the configuration flags, its command and the arguments after the
    first one, so that the first service name is not forwarded; called with
    an options mapping first, it spawns with the configuration flags, its
    command, the encoded options and all the arguments after the mapping. *)
Theorem C9_dispatcher (this : DockerCompose) :
  Forall
    (fun '(command, operation) =>
       (forall (first : string) (rest : list jsval),
          exists request,
            operation this (VStr first :: rest) = Return request /\
            args request
            = (config_flags (_configPaths this) ++ [VStr command] ++ rest)%list)
       /\ (forall (props : list (string * jsval)) (services : list jsval)
                  (optArgs : list string),
             Util.optionsToArgs (VObj props) None = Return optArgs ->
             exists request,
               operation this (VObj props :: services) = Return request /\
               args request
               = (config_flags (_configPaths this) ++ [VStr command]
                  ++ map VStr optArgs ++ services)%list))
    dispatched.
Proof.
  unfold dispatched.
  repeat (apply Forall_cons || apply Forall_nil);
    (split;
     [ intros first rest; eexists; split;
       [ apply serviceCommandSpawn_string | apply spawn_args ]
     | intros props services optArgs Henc; eexists; split;
       [ unfold build, down, logs, pause, ps, pull, Compose.push,
           restart, start, stop, top, unpause, up;
         rewrite serviceCommandSpawn_options, Henc; reflexivity
       | apply spawn_args ] ]).
Qed.

Lemma C9_dispatcher_witness :
  exists request,
    build {| _machine := None; _configPaths := ["docker-compose.yml"] |}
      [VObj [("pull", VBool true)]; VStr "db"; VStr "client"]
    = Return request /\
    args request
    = [VStr "-f"; VStr "docker-compose.yml"; VStr "build"; VStr "--pull";
       VStr "db"; VStr "client"].
Proof.
  exact (proj2 (Forall_inv
                  (C9_dispatcher {| _machine := None; _configPaths := ["docker-compose.yml"] |}))
           [("pull", VBool true)] [VStr "db"; VStr "client"] ["--pull"] eq_refl).
Defined.

End Dispatcher.

Section ExecRun.
Import JS Spec Toolbox Compose ComposeFacts.

Lemma exec_service_first (this : DockerCompose) (service : string)
  (command : jsval) (runArgs : list jsval) :
  exec this (VStr service :: command :: runArgs)
  = Return (_spawn this "exec" (or_else command (VStr "") :: runArgs)).
Proof. reflexivity. Qed.

Lemma run_service_first (this : DockerCompose) (service : string)
  (command : jsval) (runArgs : list jsval) :
  run this (VStr service :: command :: runArgs)
  = Return (_spawn this "run" (or_else command (VStr "") :: runArgs)).
Proof. reflexivity. Qed.

Lemma exec_options_first (this : DockerCompose) (props : list (string * jsval))
  (service command : jsval) (runArgs : list jsval) :
  exec this (VObj props :: service :: command :: runArgs)
  = (encoded <- Util.optionsToArgs (without_tty props) None ;;
     Return (_spawn this "exec"
               (map VStr encoded ++ tty_flag props
                ++ [or_else command (VStr "")] ++ runArgs)%list)).
Proof.
  unfold exec, without_tty, tty_flag.
  cbn [length Nat.ltb Nat.leb nth_arg nth typeof skipn get_prop bind].
  destruct (Util.optionsToArgs _ None); cbn [bind]; [|reflexivity].
  now rewrite <- app_assoc.
Qed.

Lemma run_options_first (this : DockerCompose) (props : list (string * jsval))
  (service command : jsval) (runArgs : list jsval) :
  run this (VObj props :: service :: command :: runArgs)
  = (encoded <- Util.optionsToArgs (without_tty props) None ;;
     Return (_spawn this "run"
               (map VStr encoded ++ tty_flag props
                ++ [or_else command (VStr "")] ++ runArgs)%list)).
Proof.
  unfold run, without_tty, tty_flag.
  cbn [length Nat.ltb Nat.leb nth_arg nth typeof skipn get_prop bind].
  destruct (Util.optionsToArgs _ None); cbn [bind]; [|reflexivity].
  now rewrite <- app_assoc.
Qed.

(** C10.  [exec] and [run] never forward the service name.  Called as
    [(service, command, ...runArgs)], they spawn with the configuration
    flags, the command name, the command string and the run arguments.
    Called as [(options, service, command, ...runArgs)], they spawn, when
    the options encode, with the configuration flags, the command name, the
    encoded options (without [disablePseudoTty]), [-T] when
    [disablePseudoTty] is set, the command string and the run arguments.
    Either way the result is the same for any two service names. *)
Theorem C10_service_not_forwarded
  (this : DockerCompose) (command : jsval) (runArgs : list jsval) :
  Forall
    (fun '(name, operation) =>
       (forall service : string,
          exists request,
            operation this (VStr service :: command :: runArgs) = Return request /\
            args request
            = (config_flags (_configPaths this) ++ [VStr name]
               ++ [or_else command (VStr "")] ++ runArgs)%list)
       /\ (forall (props : list (string * jsval)) (service : jsval)
                  (encoded : list string),
             Util.optionsToArgs (without_tty props) None = Return encoded ->
             exists request,
               operation this (VObj props :: service :: command :: runArgs)
               = Return request /\
               args request
               = (config_flags (_configPaths this) ++ [VStr name]
                  ++ map VStr encoded ++ tty_flag props
                  ++ [or_else command (VStr "")] ++ runArgs)%list)
       /\ (forall service service' : string,
             operation this (VStr service :: command :: runArgs)
             = operation this (VStr service' :: command :: runArgs))
       /\ (forall (props : list (string * jsval)) (service service' : jsval),
             operation this (VObj props :: service :: command :: runArgs)
             = operation this (VObj props :: service' :: command :: runArgs)))
    [("exec", exec); ("run", run)].
Proof.
  repeat (apply Forall_cons || apply Forall_nil);
    (split; [|split; [|split]]).
  - intros service. eexists. split; [apply exec_service_first|apply spawn_args].
  - intros props service encoded Henc. eexists. split.
    + rewrite exec_options_first, Henc. reflexivity.
    + apply spawn_args.
  - intros service service'. now rewrite !exec_service_first.
  - intros props service service'. now rewrite !exec_options_first.
  - intros service. eexists. split; [apply run_service_first|apply spawn_args].
  - intros props service encoded Henc. eexists. split.
    + rewrite run_options_first, Henc. reflexivity.
    + apply spawn_args.
  - intros service service'. now rewrite !run_service_first.
  - intros props service service'. now rewrite !run_options_first.
Qed.

Lemma C10_service_not_forwarded_witness :
  exists request,
    exec {| _machine := None; _configPaths := [] |}
      [VObj [("disablePseudoTty", VBool true); ("user", VStr "root")];
       VStr "db"; VStr "ls"; VArr [VStr "-l"]]
    = Return request /\
    args request
    = [VStr "exec"; VStr "--user"; VStr "root"; VStr "-T"; VStr "ls"; VArr [VStr "-l"]].
Proof.
  exact (proj1 (proj2 (Forall_inv
                         (C10_service_not_forwarded
                            {| _machine := None; _configPaths := [] |}
                            (VStr "ls") [VArr [VStr "-l"]])))
           [("disablePseudoTty", VBool true); ("user", VStr "root")]
           (VStr "db") ["--user"; "root"] eq_refl).
Defined.

End ExecRun.

(* ===================================================================== *)
(** * The host handle and its environment query                            *)
(* ===================================================================== *)

Module MachineFacts.
Import JS Spec Toolbox Machine StringFacts.

Section WithEngine.

Variable engine : RegExpEngine.

Lemma find_absent {A} (f : A -> bool) (l : list A) :
  (forall x, In x l -> f x = false) -> find f l = None.
Proof.
  induction l as [|x l IH]; intros H; [reflexivity|].
  simpl. rewrite (H x (or_introl eq_refl)). apply IH.
  intros y Hy. apply H. now right.
Qed.

(** Without the marker line the callback of [env] throws. *)
Lemma parse_env_no_marker (name text : string) :
  (forall line, In line (split_lines text) -> indexOf line DOCKER_MACHINE_NAME = -1) ->
  parse_env engine name text
  = Throw (TypeError "Cannot read property 'indexOf' of undefined").
Proof.
  intros H. unfold parse_env. rewrite find_absent; [reflexivity|].
  intros line Hline. now rewrite (H line Hline).
Qed.

Lemma env_steps_out (name : string) (trace : list child_event) :
  forall q, out (fold_left (env_step engine name) trace q) = out q ++ stdout_text trace.
Proof.
  induction trace as [|ev trace IH]; intros q; simpl.
  - now rewrite string_app_nil_r.
  - rewrite IH. destruct ev; simpl; try reflexivity.
    + now rewrite string_app_assoc.
    + now destruct (result q).
    + now destruct (result q).
Qed.

Lemma env_steps_pending (name : string) (trace : list child_event) :
  no_settling trace = true ->
  forall q, result q = Pending ->
    fold_left (env_step engine name) trace q
    = {| out := out q ++ stdout_text trace;
         result := Pending;
         machineEnvPromise := machineEnvPromise q |}.
Proof.
  unfold no_settling. induction trace as [|ev trace IH]; intros H q Hq; simpl.
  - rewrite string_app_nil_r. destruct q; simpl in *. now subst.
  - simpl in H. apply andb_true_iff in H as [Hev Htrace].
    destruct ev; try discriminate Hev; simpl.
    + rewrite (IH Htrace) by assumption. simpl. now rewrite string_app_assoc.
    + now apply IH.
Qed.

(** Once the completion signal is settled, the two promises stay. *)
Lemma env_steps_settled (name : string) (trace : list child_event) :
  forall q, result q <> Pending ->
    result (fold_left (env_step engine name) trace q) = result q /\
    machineEnvPromise (fold_left (env_step engine name) trace q) = machineEnvPromise q.
Proof.
  induction trace as [|ev trace IH]; intros q Hq; simpl; [auto|].
  assert (Hstep : result (env_step engine name q ev) = result q /\
                  machineEnvPromise (env_step engine name q ev) = machineEnvPromise q).
  { destruct ev; simpl; auto; destruct (result q) eqn:Hres; auto; congruence. }
  destruct Hstep as [Hr Hm].
  destruct (IH (env_step engine name q ev)) as [Hr' Hm']; [now rewrite Hr|].
  split; congruence.
Qed.

Lemma promise_step_settles (program : string) (ev : child_event) :
  settles ev = true -> promise_step program Pending ev <> Pending.
Proof.
  destruct ev; intros Hev; try discriminate Hev; simpl.
  - discriminate.
  - unfold on_close. destruct (code_is_zero code); discriminate.
Qed.

(** The promise of [env] at the first event that settles the completion
    signal: the callback runs on the text captured until then. *)
Lemma env_at_first_settling (name : string) (before after : list child_event)
  (ev : child_event) :
  no_settling before = true ->
  settles ev = true ->
  machineEnvPromise (env engine name (before ++ ev :: after)%list)
  = promise_then (promise_step "docker-machine" Pending ev)
      (fun _ => parse_env engine name (stdout_text before)).
Proof.
  intros Hbefore Hev. unfold env.
  rewrite fold_left_app, (env_steps_pending _ _ Hbefore) by reflexivity.
  cbn [fold_left].
  match goal with |- context [fold_left _ after ?q] =>
    destruct (env_steps_settled name after q) as [_ ->] end.
  - destruct ev; try discriminate Hev; cbn [env_step result];
      now apply promise_step_settles.
  - destruct ev; try discriminate Hev; reflexivity.
Qed.

(** ** [refreshEnv] *)

Lemma refresh_invariant_start (machine : DockerMachine) :
  refresh_invariant machine (refresh_start machine).
Proof.
  unfold refresh_invariant, refresh_start. simpl.
  repeat split; auto; congruence.
Qed.

Lemma this_name (machine : DockerMachine) (r : refresh) :
  refresh_invariant machine r -> _name (this r) = _name machine.
Proof.
  intros (_ & _ & _ & H). destruct (retEnvPromise r); now rewrite H.
Qed.

Lemma refresh_invariant_step (machine : DockerMachine) (r : refresh) (ev : child_event) :
  refresh_invariant machine r ->
  refresh_invariant machine (refresh_step engine r ev).
Proof.
  intros Hinv. pose proof (this_name _ _ Hinv) as Hname.
  destruct Hinv as (Hret & Hpend & Hset & Hthis).
  unfold refresh_step. rewrite Hname.
  destruct r as [m q ret]. cbn [this envPromise retEnvPromise] in *.
  destruct q as [o res mep]. cbn [result machineEnvPromise out] in *. subst ret.
  destruct ev; cbn [env_step result machineEnvPromise out].
  - unfold refresh_invariant. cbn. destruct mep; auto.
  - unfold refresh_invariant. cbn. destruct mep; auto.
  - destruct res.
    + rewrite (Hpend eq_refl) in *. cbn.
      unfold refresh_invariant. cbn. repeat split; auto; discriminate.
    + unfold refresh_invariant. cbn. destruct mep; auto.
    + unfold refresh_invariant. cbn. destruct mep; auto.
  - destruct res.
    + rewrite (Hpend eq_refl) in *. cbn.
      unfold on_close. destruct (code_is_zero code); cbn.
      * destruct (parse_env engine (_name machine) o);
          unfold refresh_invariant; cbn; repeat split; auto; discriminate.
      * unfold refresh_invariant; cbn; repeat split; auto; discriminate.
    + unfold refresh_invariant. cbn. destruct mep; auto.
    + unfold refresh_invariant. cbn. destruct mep; auto.
Qed.

Lemma refresh_invariant_run (machine : DockerMachine) (trace : list child_event) :
  forall r, refresh_invariant machine r ->
    refresh_invariant machine (fold_left (refresh_step engine) trace r).
Proof.
  induction trace as [|ev trace IH]; intros r Hr; simpl; [assumption|].
  apply IH. now apply refresh_invariant_step.
Qed.

(** The query a run of [refreshEnv] holds is the run of [env] for the
    name of the handle. *)
Lemma refresh_query_step (r : refresh) (ev : child_event) :
  envPromise (refresh_step engine r ev) = env_step engine (_name (this r)) (envPromise r) ev.
Proof.
  unfold refresh_step.
  destruct (machineEnvPromise (envPromise r));
    destruct (machineEnvPromise (env_step engine (_name (this r)) (envPromise r) ev));
    reflexivity.
Qed.

Lemma refresh_query_run (machine : DockerMachine) (trace : list child_event) :
  forall r, refresh_invariant machine r ->
    envPromise (fold_left (refresh_step engine) trace r)
    = fold_left (env_step engine (_name machine)) trace (envPromise r).
Proof.
  induction trace as [|ev trace IH]; intros r Hr; simpl; [reflexivity|].
  rewrite IH by now apply refresh_invariant_step.
  now rewrite refresh_query_step, (this_name _ _ Hr).
Qed.

End WithEngine.

End MachineFacts.

Section HostHandle.
Import JS Spec Toolbox Machine MachineFacts.

(** C5.  When no line of the captured output holds [DOCKER_MACHINE_NAME],
    the parser throws (a [TypeError], raised where it reads the marker line
    it did not find) and returns no mapping, the empty one included; the
    promise of [DockerMachine.env] is then rejected whatever the exit code,
    with that error when the query exited with code 0, and
    [DockerMachine.get] is rejected with it as well. *)
Theorem C5_missing_marker (engine : RegExpEngine) (name text : string) :
  (forall line, In line (split_lines text) -> indexOf line DOCKER_MACHINE_NAME = -1) ->
  parse_env engine name text
  = Throw (TypeError "Cannot read property 'indexOf' of undefined")
  /\ (forall mapping, parse_env engine name text <> Return mapping)
  /\ (forall before after code signal,
        no_settling before = true -> stdout_text before = text ->
        exists e,
          machineEnvPromise
            (env engine name (before ++ CloseEvent code signal :: after)%list)
          = Rejected e)
  /\ (forall before after signal,
        no_settling before = true -> stdout_text before = text ->
        machineEnvPromise
          (env engine name (before ++ CloseEvent (Some 0) signal :: after)%list)
        = Rejected (TypeError "Cannot read property 'indexOf' of undefined")
        /\ get engine name (before ++ CloseEvent (Some 0) signal :: after)%list
           = Rejected (TypeError "Cannot read property 'indexOf' of undefined")).
Proof.
  intros Hlines. pose proof (parse_env_no_marker engine name text Hlines) as Hparse.
  split; [exact Hparse|]. split; [|split].
  - intros mapping. rewrite Hparse. discriminate.
  - intros before after code signal Hbefore <-.
    rewrite env_at_first_settling by auto. simpl. unfold on_close.
    destruct (code_is_zero code); simpl.
    + rewrite Hparse. now eexists.
    + now eexists.
  - intros before after signal Hbefore <-.
    unfold get. rewrite env_at_first_settling by auto. simpl.
    rewrite Hparse. split; reflexivity.
Qed.

Lemma C5_missing_marker_witness :
  parse_env refusing_engine "default" "Error: Host is not running"
  = Throw (TypeError "Cannot read property 'indexOf' of undefined").
Proof.
  refine (proj1 (C5_missing_marker refusing_engine "default"
                   "Error: Host is not running" _)).
  intros line [<-|[]]. reflexivity.
Defined.

(** C8.  At every moment of a run of [refreshEnv] on a handle: the promise
    returned to the caller is the promise of the query; while the query is
    pending or once it has failed, the handle is the one the run started
    with, its environment mapping included; once the query has succeeded,
    the handle has the same name and holds exactly the mapping the query
    produced.  For the first query, [get] is fulfilled with a handle holding
    the mapping of the query when the query succeeds, and is rejected with
    the query's error, no handle being made, when it fails. *)
Theorem C8_refreshEnv
  (engine : RegExpEngine) (machine : DockerMachine) (trace : list child_event) :
  retEnvPromise (refreshEnv engine machine trace)
  = machineEnvPromise (env engine (_name machine) trace)
  /\ match machineEnvPromise (env engine (_name machine) trace) with
     | Fulfilled mapping =>
         this (refreshEnv engine machine trace)
         = {| _name := _name machine; _env := mapping |}
     | Rejected _ | Pending =>
         this (refreshEnv engine machine trace) = machine
     end
  /\ match machineEnvPromise (env engine (_name machine) trace) with
     | Fulfilled mapping =>
         get engine (_name machine) trace
         = Fulfilled {| _name := _name machine; _env := mapping |}
     | Rejected e => get engine (_name machine) trace = Rejected e
     | Pending => get engine (_name machine) trace = Pending
     end.
Proof.
  pose proof (refresh_invariant_run engine machine trace _
                (refresh_invariant_start machine)) as (Hret & _ & _ & Hthis).
  pose proof (refresh_query_run engine machine trace _
                (refresh_invariant_start machine)) as Hquery.
  fold (refreshEnv engine machine trace) in Hret, Hthis, Hquery.
  change (fold_left (env_step engine (_name machine)) trace
            (envPromise (refresh_start machine)))
    with (env engine (_name machine) trace) in Hquery.
  rewrite Hquery in Hret. rewrite Hret in Hthis.
  split; [exact Hret|]. split; [exact Hthis|].
  unfold get. now destruct (machineEnvPromise (env engine (_name machine) trace)).
Qed.

End HostHandle.

(* ===================================================================== *)
(** * The JSON event decoder                                               *)
(* ===================================================================== *)

Module EventsFacts.
Import JS Spec Toolbox Compose StringFacts.

Section WithParser.

Variable JSON_parse : string -> completion jsval.

(** One iteration of the listener on a chunk that holds a line feed. *)
Lemma data_loop_LF (fuel : nat) (st : events_run) (line rest : string) :
  no_line_feed line = true ->
  data_loop JSON_parse (S fuel) st (line ++ Lines.LF ++ rest)
  = match JSON_parse (currentLine st ++ line) with
    | Throw e =>
        ({| eventsSubject := eventsSubject st;
            currentLine := currentLine st ++ line;
            eventsPromise := eventsPromise st;
            uncaught := uncaught st |}, Threw e)
    | Return eventObj =>
        data_loop JSON_parse fuel
          {| eventsSubject := subject_next (eventsSubject st) eventObj;
             currentLine := "";
             eventsPromise := eventsPromise st;
             uncaught := uncaught st |}
          (Lines.LF ++ rest)
    end.
Proof.
  intros H. cbn [data_loop]. rewrite (indexOf_LF_first _ _ H).
  replace (Z.of_nat (String.length line) >? -1) with true
    by (symmetry; apply Z.gtb_lt; lia).
  now rewrite substr_before, substr_from_after.
Qed.

Lemma subject_next_extends (s : Subject) (event : jsval) :
  exists more, delivered (subject_next s event) = (delivered s ++ more)%list.
Proof.
  unfold subject_next. destruct (isStopped s); simpl.
  - exists []. now rewrite app_nil_r.
  - now eexists.
Qed.

Lemma data_loop_extends (fuel : nat) :
  forall st chunk, exists more,
    delivered (eventsSubject (fst (data_loop JSON_parse fuel st chunk)))
    = (delivered (eventsSubject st) ++ more)%list.
Proof.
  induction fuel as [|fuel IH]; intros st chunk; cbn [data_loop].
  - exists []. simpl. now rewrite app_nil_r.
  - destruct (indexOf chunk Lines.LF >? -1).
    + destruct (JSON_parse _) as [eventObj|e].
      * match goal with |- context [data_loop _ _ ?s ?c] =>
          destruct (IH s c) as [more ->] end.
        cbn [eventsSubject].
        destruct (subject_next_extends (eventsSubject st) eventObj) as [more' ->].
        rewrite <- app_assoc. now eexists.
      * exists []. simpl. now rewrite app_nil_r.
    + exists []. simpl. now rewrite app_nil_r.
Qed.

(** The listener sends nothing on the error channel. *)
Lemma subject_next_errors (s : Subject) (event : jsval) :
  filter is_error (delivered (subject_next s event)) = filter is_error (delivered s).
Proof.
  unfold subject_next. destruct (isStopped s); [reflexivity|].
  simpl. unfold JS.push. rewrite filter_app. simpl. now rewrite app_nil_r.
Qed.

Lemma data_loop_errors (fuel : nat) :
  forall st chunk,
    filter is_error (delivered (eventsSubject (fst (data_loop JSON_parse fuel st chunk))))
    = filter is_error (delivered (eventsSubject st)).
Proof.
  induction fuel as [|fuel IH]; intros st chunk; cbn [data_loop]; [reflexivity|].
  destruct (indexOf chunk Lines.LF >? -1); [|reflexivity].
  destruct (JSON_parse _) as [eventObj|e]; [|reflexivity].
  rewrite IH. cbn [eventsSubject]. apply subject_next_errors.
Qed.

End WithParser.

Lemma example_line_parses : JSON.parse example_line = Return example_event.
Proof. vm_compute. reflexivity. Qed.

Lemma example_line_no_LF : no_line_feed example_line = true.
Proof. vm_compute. reflexivity. Qed.

End EventsFacts.

Section EventDecoder.
Import JS Spec Toolbox Compose StringFacts EventsFacts.

(** C7, as the code has it.  When a chunk completes a line: if the line
    parses, the event record is handed to the subject, which delivers it to
    the subscribers as its next notification unless it has stopped; if
    [JSON.parse] throws, the exception leaves the ['data'] listener, nothing
    is handed to the subject, on its error channel or otherwise, and the
    text stays in [currentLine].  No call of the listener sends anything on
    the error channel.  The line of the example parses to the record with
    the same five fields, and that record is what the subscribers get. *)
Theorem C7_event_decoding
  (JSON_parse : string -> completion jsval) (fuel : nat)
  (st : events_run) (line rest : string) :
  (no_line_feed line = true ->
   (forall event,
       JSON_parse (currentLine st ++ line) = Return event ->
       exists more,
         delivered (eventsSubject
                      (fst (events_step JSON_parse (S fuel) st
                              (StdoutData (line ++ Lines.LF ++ rest)))))
         = (delivered (subject_next (eventsSubject st) event) ++ more)%list)
   /\ (forall e,
         JSON_parse (currentLine st ++ line) = Throw e ->
         events_step JSON_parse (S fuel) st (StdoutData (line ++ Lines.LF ++ rest))
         = ({| eventsSubject := eventsSubject st;
               currentLine := currentLine st ++ line;
               eventsPromise := eventsPromise st;
               uncaught := JS.push (uncaught st) e |}, Threw e)))
  /\ (forall chunk,
        filter is_error
          (delivered (eventsSubject
                        (fst (events_step JSON_parse fuel st (StdoutData chunk)))))
        = filter is_error (delivered (eventsSubject st)))
  /\ JSON.parse example_line = Return example_event
  /\ delivered (eventsSubject
                  (fst (events JSON.parse (S fuel) events_start
                          [StdoutData (example_line ++ Lines.LF)])))
     = [Next example_event].
Proof.
  split; [|split; [|split]].
  - intros Hline. split.
    + intros event Hparse. cbn [events_step].
      rewrite (data_loop_LF _ _ _ _ _ Hline), Hparse.
      match goal with |- context [data_loop ?p ?f ?s ?c] =>
        destruct (data_loop_extends p f s c) as [more Hmore];
        destruct (data_loop p f s c) as [st' []] end;
        cbn [fst eventsSubject] in Hmore |- *; rewrite Hmore; now eexists.
    + intros e Hparse. cbn [events_step].
      now rewrite (data_loop_LF _ _ _ _ _ Hline), Hparse.
  - intros chunk. cbn [events_step].
    pose proof (data_loop_errors JSON_parse fuel st chunk) as Herr.
    destruct (data_loop JSON_parse fuel st chunk) as [st' []]; exact Herr.
  - exact example_line_parses.
  - cbn [events events_step].
    pose proof (data_loop_LF JSON.parse fuel events_start example_line ""
                  example_line_no_LF) as Hstep.
    change (currentLine events_start ++ example_line) with example_line in Hstep.
    change (example_line ++ Lines.LF ++ "") with (example_line ++ Lines.LF) in Hstep.
    rewrite example_line_parses in Hstep. rewrite Hstep.
    destruct fuel as [|fuel]; reflexivity.
Qed.

Lemma C7_event_decoding_witness :
  events_step JSON.parse 1 events_start (StdoutData ("not json" ++ Lines.LF ++ ""))
  = ({| eventsSubject := eventsSubject events_start;
        currentLine := currentLine events_start ++ "not json";
        eventsPromise := eventsPromise events_start;
        uncaught := JS.push (uncaught events_start)
                      (SyntaxError "Unexpected token in JSON") |},
     Threw (SyntaxError "Unexpected token in JSON")).
Proof.
  exact (proj2 (proj1 (C7_event_decoding JSON.parse 0 events_start "not json" "")
                  eq_refl)
           (SyntaxError "Unexpected token in JSON") eq_refl).
Defined.

(** C7, as the specification states it, fails: the line [not json] is
    malformed, and after it, however long the listener runs, and also once
    the child has exited with code 0, nothing has been sent on the error
    channel of the event stream. *)
Lemma C7_counterexample :
  JSON.parse "not json" = Throw (SyntaxError "Unexpected token in JSON")
  /\ ~ (exists fuel err,
          In (ErrorNotification err)
            (delivered (eventsSubject
                          (fst (events JSON.parse fuel events_start
                                  [StdoutData ("not json" ++ Lines.LF)])))))
  /\ ~ (exists fuel err,
          In (ErrorNotification err)
            (delivered (eventsSubject
                          (fst (events JSON.parse fuel events_start
                                  [StdoutData ("not json" ++ Lines.LF);
                                   CloseEvent (Some 0) None]))))).
Proof.
  split; [reflexivity|]. split.
  - intros (fuel & err & H). destruct fuel as [|fuel]; vm_compute in H; tauto.
  - intros (fuel & err & H). destruct fuel as [|fuel]; vm_compute in H.
    + tauto.
    + destruct H as [H|[]]. discriminate H.
Qed.

End EventDecoder.

(* ===================================================================== *)
(** * Further properties of the argument encoder                           *)
(* ===================================================================== *)

Module EncoderFacts.
Import JS Util Spec Vocabulary UtilFacts EncoderShape.

Lemma has_whitespace_search (s : string) :
  (search_whitespace s >? -1) = has_whitespace s.
Proof. unfold search_whitespace. apply search_whitespace_from_spec. lia. Qed.

(** ** The accumulator only grows at its end *)

Lemma for_each_shift {A B} (body : list B -> A -> completion (list B)) (xs : list A) :
  (forall acc x, body acc x = (t <- body [] x ;; Return (acc ++ t)%list)) ->
  forall acc,
    for_each body xs acc = (t <- for_each body xs [] ;; Return (acc ++ t)%list).
Proof.
  intros Hbody. induction xs as [|x xs IH]; intros acc; cbn [for_each].
  - cbn [bind]. now rewrite app_nil_r.
  - rewrite (Hbody acc x). destruct (body [] x) as [t|e]; cbn [bind]; [|reflexivity].
    rewrite (IH (acc ++ t)%list), (IH t).
    destruct (for_each body xs []) as [u|e]; cbn [bind]; [|reflexivity].
    now rewrite app_assoc.
Qed.

Lemma inner_step_shift (optKey : string) (acc : list string) (kv : string * jsval) :
  inner_step optKey acc kv = (t <- inner_step optKey [] kv ;; Return (acc ++ t)%list).
Proof.
  destruct kv as [key value]. unfold inner_step.
  destruct (search_whitespace key >? -1); [reflexivity|].
  destruct (check_inner_value value) as [[]|e]; cbn [bind]; [|reflexivity].
  destruct (toString value) as [text|e]; cbn [bind]; [|reflexivity].
  now rewrite !push_push.
Qed.

Lemma outer_step_shift (prefix : string) (acc : list string) (kv : string * jsval) :
  outer_step prefix acc kv = (t <- outer_step prefix [] kv ;; Return (acc ++ t)%list).
Proof.
  destruct kv as [key optionValue]. unfold outer_step.
  destruct optionValue as [| |b|n|s|elems|inner]; cbn [bind];
    rewrite ?push_push, ?app_nil_r; try reflexivity.
  - destruct b; [reflexivity|now rewrite app_nil_r].
  - destruct (join elems ",") as [text|e]; cbn [bind]; [|reflexivity].
    now rewrite !push_push.
  - apply for_each_shift. intros acc' x. apply inner_step_shift.
Qed.

Lemma outer_loop_shift (prefix : string) (props : list (string * jsval))
  (acc : list string) :
  for_each (outer_step prefix) props acc
  = (t <- for_each (outer_step prefix) props [] ;; Return (acc ++ t)%list).
Proof. apply for_each_shift. intros acc' x. apply outer_step_shift. Qed.

(** ** Flat mappings *)

Lemma forallb_false {A} (f : A -> bool) (l : list A) :
  forallb f l = false -> exists x, In x l /\ f x = false.
Proof.
  induction l as [|x l IH]; simpl; [discriminate|].
  destruct (f x) eqn:Hx; simpl.
  - intros H. destruct (IH H) as (y & Hy & Hfy). exists y. auto.
  - intros _. exists x. auto.
Qed.

Lemma check_elements_accepted (elems : list jsval) :
  forallb accepted_element elems = true ->
  for_each (fun (_ : unit) v => check_array_element v) elems tt = Return tt.
Proof.
  induction elems as [|e elems IH]; [reflexivity|].
  cbn [forallb for_each]. intros H. apply andb_true_iff in H as [He Hrest].
  assert (Hcheck : check_array_element e = Return tt).
  { destruct e; try discriminate He; try reflexivity.
    cbn [check_array_element]. rewrite has_whitespace_search.
    cbn [accepted_element] in He. now destruct (has_whitespace s). }
  rewrite Hcheck. cbn [bind]. now apply IH.
Qed.

Lemma check_element_refused (e : jsval) :
  accepted_element e = false -> validation_error (check_array_element e).
Proof.
  destruct e; try discriminate; intros H; cbn [check_array_element].
  - now eexists.
  - rewrite has_whitespace_search. cbn [accepted_element] in H.
    destruct (has_whitespace s); [now eexists|discriminate].
  - now eexists.
  - now eexists.
Qed.

Lemma join_accepted (elems : list jsval) :
  forallb accepted_element elems = true ->
  join elems "," = Return (String.concat "," (map element_text elems)).
Proof.
  induction elems as [|e elems IH]; [reflexivity|].
  cbn [forallb join map String.concat]. intros H.
  apply andb_true_iff in H as [He Hrest].
  assert (Helem : join_elem e = Return (element_text e)).
  { destruct e as [| |[]|x|s|l|props]; try discriminate He; reflexivity. }
  rewrite Helem. cbn [bind].
  destruct elems as [|e' elems]; [reflexivity|].
  rewrite (IH Hrest). reflexivity.
Qed.

Lemma toString_accepted (key : string) (value : jsval) :
  accepted_inner (key, value) = true -> toString value = Return (inner_text value).
Proof.
  unfold accepted_inner. cbn [fst snd]. intros H.
  apply andb_true_iff in H as [_ Hvalue].
  destruct value as [| |[]|x|s|elems|props]; try discriminate Hvalue; try reflexivity.
  rewrite toString_VArr. now apply join_accepted.
Qed.

Lemma inner_step_accepted (optKey : string) (acc : list string) (kv : string * jsval) :
  accepted_inner kv = true ->
  inner_step optKey acc kv
  = Return (acc ++ [optKey; (fst kv ++ "=" ++ inner_text (snd kv))%string])%list.
Proof.
  destruct kv as [key value]. intros Hacc.
  rewrite <- push_push. unfold inner_step. cbn [fst snd].
  rewrite (toString_accepted _ _ Hacc).
  unfold accepted_inner in Hacc. cbn [fst snd] in Hacc.
  rewrite has_whitespace_search. apply andb_true_iff in Hacc as [Hkey Hvalue].
  destruct (has_whitespace key); [discriminate|].
  assert (Hcheck : check_inner_value value = Return tt).
  { destruct value; try discriminate Hvalue; try reflexivity.
    - cbn [check_inner_value]. rewrite has_whitespace_search.
      now destruct (has_whitespace s).
    - now apply check_elements_accepted. }
  rewrite Hcheck. reflexivity.
Qed.

Lemma inner_step_refused (optKey : string) (acc : list string) (kv : string * jsval) :
  accepted_inner kv = false ->
  refused (inner_step optKey acc kv)
  /\ (convertible_inner kv = true -> validation_error (inner_step optKey acc kv)).
Proof.
  destruct kv as [key value].
  unfold accepted_inner, inner_step, convertible_inner. cbn [fst snd].
  rewrite has_whitespace_search.
  destruct (has_whitespace key).
  { intros _. split; [apply validation_error_refused|intros _]; now eexists. }
  cbn [negb andb]. intros Hvalue.
  destruct value as [| |b|x|s|elems|props]; try discriminate Hvalue.
  - assert (H : validation_error
                  (_ <- check_inner_value (VStr s) ;;
                   text <- toString (VStr s) ;;
                   Return (push (push acc optKey) (key ++ "=" ++ text)))).
    { cbn [check_inner_value]. rewrite has_whitespace_search.
      destruct (has_whitespace s); [now eexists|discriminate]. }
    split; [now apply validation_error_refused|now intros _].
  - assert (H : validation_error
                  (_ <- check_inner_value (VArr elems) ;;
                   text <- toString (VArr elems) ;;
                   Return (push (push acc optKey) (key ++ "=" ++ text)))).
    { destruct (forallb_false _ _ Hvalue) as (e & Hin & He).
      assert (Hcheck : validation_error (check_inner_value (VArr elems))).
      { cbn [check_inner_value].
        apply for_each_validation_error with (x := e); auto.
        + intros _ v _. apply check_array_element_only.
        + intros _. now apply check_element_refused. }
      destruct Hcheck as [message ->]. now eexists. }
    split; [now apply validation_error_refused|now intros _].
  - cbn [check_inner_value].
    pose proof (toString_stringifiable (VObj props)) as H.
    destruct (stringifiable (VObj props)).
    + destruct H as [text ->]. cbn [bind].
      split; [apply validation_error_refused|intros _]; now eexists.
    + rewrite H. cbn [bind]. split; [|discriminate].
      eexists. split; [reflexivity|exact I].
Qed.

Lemma inner_loop_accepted (optKey : string) (inner : list (string * jsval)) :
  forallb accepted_inner inner = true ->
  forall acc,
    for_each (inner_step optKey) inner acc
    = Return (acc ++ flat_tokens optKey inner)%list.
Proof.
  induction inner as [|kv inner IH]; intros H acc; cbn [for_each].
  - cbn. now rewrite app_nil_r.
  - cbn [forallb] in H. apply andb_true_iff in H as [Hkv Hrest].
    rewrite (inner_step_accepted _ _ _ Hkv). cbn [bind].
    rewrite (IH Hrest). unfold flat_tokens. cbn [flat_map].
    now rewrite <- app_assoc.
Qed.

Lemma inner_loop_refused (optKey : string) (inner : list (string * jsval))
  (acc : list string) :
  forallb accepted_inner inner = false ->
  refused (for_each (inner_step optKey) inner acc)
  /\ (forallb convertible_inner inner = true ->
      validation_error (for_each (inner_step optKey) inner acc)).
Proof.
  intros H. destruct (forallb_false _ _ H) as (kv & Hin & Hkv). split.
  - apply for_each_refused with (x := kv); auto.
    + intros acc0 y. apply inner_step_only.
    + intros acc0. now apply inner_step_refused.
  - intros Hconv. rewrite forallb_forall in Hconv.
    apply for_each_validation_error with (x := kv); auto.
    + intros acc0 y Hy. apply inner_step_validation. now apply Hconv.
    + intros acc0. apply inner_step_refused; auto.
Qed.

(** ** Entries that put no token *)

Lemma outer_step_silent (prefix : string) (acc : list string) (key : string) (v : jsval) :
  emits_nothing v = true -> outer_step prefix acc (key, v) = Return acc.
Proof.
  destruct v as [| |[]|n|s|elems|[|p inner]]; try discriminate; reflexivity.
Qed.

Lemma outer_step_grows (prefix : string) (acc out : list string) (key : string) (v : jsval) :
  emits_nothing v = false ->
  outer_step prefix acc (key, v) = Return out ->
  (length acc < length out)%nat.
Proof.
  unfold outer_step.
  destruct v as [| |[]|n|s|elems|[|p inner]]; try discriminate; intros _;
    try (intros [= <-]; rewrite ?push_push, ?length_app; unfold push;
         rewrite ?length_app; simpl; lia).
  - destruct (join elems ",") as [text|e]; cbn [bind]; [|discriminate].
    intros [= <-]. rewrite push_push, length_app. simpl. lia.
  - cbn [for_in for_each].
    destruct (inner_step _ acc p) as [acc'|e] eqn:Hstep; cbn [bind]; [|discriminate].
    intros Hrest. destruct (inner_step_tokens _ _ _ _ Hstep) as [token ->].
    destruct (inner_loop_tokens _ _ _ _ Hrest) as (chunk & -> & _).
    rewrite !length_app. simpl. lia.
Qed.

Lemma outer_loop_length (prefix : string) (props : list (string * jsval)) :
  forall acc out,
    for_each (outer_step prefix) props acc = Return out ->
    (length acc <= length out)%nat.
Proof.
  intros acc out H. destruct (outer_loop_tokens _ _ _ _ H) as (chunks & -> & _).
  rewrite length_app. lia.
Qed.

Lemma outer_loop_silent (prefix : string) (props : list (string * jsval)) :
  forall acc out,
    for_each (outer_step prefix) props acc = Return out ->
    length out = length acc ->
    forallb emits_nothing (map snd props) = true.
Proof.
  induction props as [|[key v] props IH]; intros acc out; cbn [for_each map forallb snd].
  - reflexivity.
  - destruct (outer_step prefix acc (key, v)) as [acc'|e] eqn:Hstep; cbn [bind];
      [|discriminate].
    intros Hrest Hlen. pose proof (outer_loop_length _ _ _ _ Hrest) as Hle.
    destruct (emits_nothing v) eqn:Hv.
    + rewrite (outer_step_silent _ _ _ _ Hv) in Hstep. injection Hstep as <-.
      cbn [andb]. now apply (IH acc out).
    + pose proof (outer_step_grows _ _ _ _ _ Hv Hstep). lia.
Qed.

Lemma outer_loop_all_silent (prefix : string) (props : list (string * jsval)) :
  forallb emits_nothing (map snd props) = true ->
  forall acc, for_each (outer_step prefix) props acc = Return acc.
Proof.
  induction props as [|[key v] props IH]; intros H acc; cbn [for_each]; [reflexivity|].
  cbn [map forallb snd] in H. apply andb_true_iff in H as [Hv Hrest].
  rewrite (outer_step_silent _ _ _ _ Hv). cbn [bind]. now apply IH.
Qed.

(** ** Characters *)

Lemma toLowerCase_char_no_capital (c : ascii) : is_A_Z (toLowerCase_char c) = false.
Proof. destruct c as [[] [] [] [] [] [] [] []]; reflexivity. Qed.

Lemma camelize_flag_char (c : ascii) (rest : string) :
  is_alnum c = true ->
  camelize (flag_char c ++ rest) = String c (camelize rest).
Proof.
  destruct c as [[] [] [] [] [] [] [] []]; intros H; try discriminate H; reflexivity.
Qed.

Lemma camelize_hyphenated (key : string) :
  alnum_key key = true -> camelize (hyphenated key) = key.
Proof.
  unfold alnum_key. induction key as [|c key IH]; [reflexivity|].
  cbn [list_ascii_of_string forallb hyphenated]. intros H.
  apply andb_true_iff in H as [Hc Hkey].
  rewrite camelize_flag_char by auto. now rewrite IH.
Qed.

Lemma string_app_cancel (p a b : string) : p ++ a = p ++ b -> a = b.
Proof.
  induction p as [|c p IH]; simpl; [auto|]. intros [= H]. now apply IH.
Qed.

Lemma hyphenated_no_capital (key : string) : no_capital (hyphenated key) = true.
Proof.
  unfold no_capital. induction key as [|c key IH]; [reflexivity|].
  cbn [hyphenated]. unfold flag_char.
  destruct (is_A_Z c); cbn [String.append list_ascii_of_string forallb];
    rewrite toLowerCase_char_no_capital, IH; reflexivity.
Qed.

Lemma hyphenated_length (key : string) :
  String.length (hyphenated key) = (String.length key + capitals key)%nat.
Proof.
  unfold capitals. induction key as [|c key IH]; [reflexivity|].
  cbn [hyphenated list_ascii_of_string filter]. unfold flag_char.
  destruct (is_A_Z c); cbn [String.append String.length length]; rewrite IH; lia.
Qed.

End EncoderFacts.

Section EncoderMore.
Import JS Util Spec Vocabulary UtilFacts EncoderShape EncoderFacts.

(** X1.  Whatever value is passed as the options and whatever the parse
    options are, [optionsToArgs] returns a token list or throws one of two
    errors: its [DockerToolboxOptionsParseError], or the [TypeError] of a
    conversion to a string that fails.  When every conversion the
    properties of the options ask for succeeds, the validation error is the
    only error; [{a: [{toString: 1}]}] is a mapping on which the
    [TypeError] is thrown. *)
Theorem X1_only_encoder_errors
  (options : jsval) (parseOptions : option IOptionsToArgsParseOptions) :
  encoder_only (optionsToArgs options parseOptions)
  /\ (convertible (for_in options) = true ->
      validation_only (optionsToArgs options parseOptions))
  /\ optionsToArgs (VObj [("a", VArr [VObj [("toString", VNum 1)]])]) parseOptions
     = Throw cannot_convert.
Proof.
  split; [apply optionsToArgs_only|]. split; [|reflexivity].
  intros Hconv. unfold optionsToArgs.
  apply for_each_validation_only. intros acc x Hx.
  apply outer_step_validation. unfold convertible in Hconv.
  rewrite forallb_forall in Hconv. now apply Hconv.
Qed.

(** X2.  The encoding of a mapping is the empty token list exactly when
    every value of the mapping is [false], [null], [undefined] or an empty
    flat mapping. *)
Theorem X2_empty_encoding
  (props : list (string * jsval)) (parseOptions : option IOptionsToArgsParseOptions) :
  optionsToArgs (VObj props) parseOptions = Return []
  <-> forallb emits_nothing (map snd props) = true.
Proof.
  unfold optionsToArgs. cbn [for_in]. split.
  - intros H. now apply (outer_loop_silent _ _ _ _ H).
  - intros H. now apply outer_loop_all_silent.
Qed.

(** X3.  Encoding is entry by entry and keeps the order of the entries:
    the encoding of two mappings put one after the other is the encoding of
    the first followed by the encoding of the second, and it throws the
    first error either of them throws. *)
Theorem X3_encoding_of_concatenation
  (props1 props2 : list (string * jsval))
  (parseOptions : option IOptionsToArgsParseOptions) :
  optionsToArgs (VObj (props1 ++ props2)%list) parseOptions
  = (tokens1 <- optionsToArgs (VObj props1) parseOptions ;;
     tokens2 <- optionsToArgs (VObj props2) parseOptions ;;
     Return (tokens1 ++ tokens2)%list).
Proof.
  unfold optionsToArgs. cbn [for_in]. rewrite for_each_app.
  destruct (for_each _ props1 []) as [tokens1|e]; cbn [bind]; [|reflexivity].
  apply outer_loop_shift.
Qed.

(** X4.  A flat-mapping value all of whose inner entries pass the checks
    (a key without whitespace; a value that is a boolean, a number, [null],
    [undefined], a string without whitespace, or a sequence of such strings,
    booleans, numbers and [undefined]) encodes to the flag token followed by
    [key=value], once per inner entry and in their order, a sequence being
    joined with commas.  With any other inner entry the encoder throws: its
    validation error when no inner value is a mapping with a property named
    [toString], and otherwise that error or the [TypeError] of the
    conversion of such a mapping. *)
Theorem X4_flat_mapping
  (parseOptions : option IOptionsToArgsParseOptions)
  (key : string) (inner : list (string * jsval)) :
  (forallb accepted_inner inner = true ->
   optionsToArgs (VObj [(key, VObj inner)]) parseOptions
   = Return (flat_tokens (flag_token (prefix_of parseOptions) key) inner))
  /\ (forallb accepted_inner inner = false ->
      rejected [(key, VObj inner)]
        (optionsToArgs (VObj [(key, VObj inner)]) parseOptions)).
Proof.
  unfold optionsToArgs, rejected, convertible.
  cbn [for_in for_each outer_step forallb convertible_entry snd].
  rewrite optKey_of_flag_token. split.
  - intros H. rewrite (inner_loop_accepted _ _ H). reflexivity.
  - intros H.
    destruct (inner_loop_refused (flag_token (prefix_of parseOptions) key) inner [] H)
      as [(e & He & Henc) Hval].
    split.
    + exists e. rewrite He. split; [reflexivity|exact Henc].
    + rewrite andb_true_r. intros Hconv.
      destruct (Hval Hconv) as [message Hm]. exists message. now rewrite Hm.
Qed.

Lemma X4_flat_mapping_witness :
  optionsToArgs
    (VObj [("buildArg",
            VObj [("KEY", VStr "VALUE"); ("answer_to_life", VNum 42);
                  ("multipleValues", VArr [VStr "a"; VStr "b"; VStr "c"]);
                  ("enableThing", VBool true); ("enableOtherThing", VBool false)])])
    None
  = Return
      (flat_tokens (flag_token "" "buildArg")
         [("KEY", VStr "VALUE"); ("answer_to_life", VNum 42);
          ("multipleValues", VArr [VStr "a"; VStr "b"; VStr "c"]);
          ("enableThing", VBool true); ("enableOtherThing", VBool false)]).
Proof.
  exact (proj1 (X4_flat_mapping None "buildArg"
                  [("KEY", VStr "VALUE"); ("answer_to_life", VNum 42);
                   ("multipleValues", VArr [VStr "a"; VStr "b"; VStr "c"]);
                   ("enableThing", VBool true); ("enableOtherThing", VBool false)])
           eq_refl).
Defined.

(** X5.  A flag token is [--], the prefix and a name that holds no
    upper-case letter [A-Z] and is longer than the key by one character per
    upper-case letter of the key. *)
Theorem X5_flag_name_lower_case (prefix key : string) :
  exists name,
    optKey_of prefix key = "--" ++ prefix ++ name
    /\ no_capital name = true
    /\ String.length name = (String.length key + capitals key)%nat.
Proof.
  exists (hyphenated key). split; [apply optKey_of_flag_token|]. split.
  - apply hyphenated_no_capital.
  - apply hyphenated_length.
Qed.

(** X6.  On keys made of ASCII letters and digits the flag name can be
    read back: replacing each hyphen and the letter after it by the
    upper-case letter gives the key again, so two such keys with the same
    flag token (under the same prefix) are the same key.  Keys with other
    characters can collide: [aB] and [a-b] have the same flag. *)
Theorem X6_flag_of_key_injective (prefix key1 key2 : string) :
  (alnum_key key1 = true ->
   camelize (toLowerCase (replace_capitals key1)) = key1)
  /\ (alnum_key key1 = true -> alnum_key key2 = true ->
      optKey_of prefix key1 = optKey_of prefix key2 -> key1 = key2)
  /\ optKey_of prefix "aB" = optKey_of prefix "a-b".
Proof.
  split; [|split].
  - intros H. rewrite toLowerCase_replace_capitals. now apply camelize_hyphenated.
  - intros H1 H2 Heq. rewrite !optKey_of_flag_token in Heq. unfold flag_token in Heq.
    apply (string_app_cancel "--") in Heq. apply string_app_cancel in Heq.
    rewrite <- (camelize_hyphenated key1 H1), <- (camelize_hyphenated key2 H2).
    now rewrite Heq.
  - reflexivity.
Qed.

Lemma X6_flag_of_key_injective_witness :
  camelize (toLowerCase (replace_capitals "noDeps2Build")) = "noDeps2Build".
Proof.
  exact (proj1 (X6_flag_of_key_injective "" "noDeps2Build" "") eq_refl).
Defined.

End EncoderMore.

(* ===================================================================== *)
(** * Further properties of the line splitter and of the process facade    *)
(* ===================================================================== *)

Module LinesMore.
Import JS Spec Lines StringFacts LinesFacts.

Section Handler.

Variable shouldContinue : list string -> bool.

Lemma feed_detached (fuel : nat) (chunks : list string) (st : LineReadStream) :
  attached st = false -> feed shouldContinue fuel st chunks = (st, Returned).
Proof.
  intros H. induction chunks as [|chunk chunks IH]; cbn [feed]; [reflexivity|].
  now rewrite H.
Qed.

Lemma feed_no_LF (fuel : nat) (chunks : list string) :
  forallb no_line_feed chunks = true ->
  forall cur units,
    feed shouldContinue (S fuel)
      {| currentLine := cur; pushed := units; attached := true |} chunks
    = ({| currentLine := cur ++ fold_right String.append "" chunks;
          pushed := units;
          attached := true |}, Returned).
Proof.
  induction chunks as [|chunk chunks IH]; intros H cur units; cbn [feed fold_right].
  - now rewrite string_app_nil_r.
  - cbn [forallb] in H. apply andb_true_iff in H as [Hchunk Hrest].
    cbn [attached]. unfold chunkHandler. rewrite (chunk_loop_no_LF _ _ _ _ Hchunk).
    cbn [currentLine pushed attached]. rewrite (IH Hrest).
    now rewrite string_app_assoc.
Qed.

(** After its first unit, a call on a chunk emits empty units only. *)
Lemma chunk_loop_after_LF (fuel : nat) :
  forall units att after,
  exists k,
    pushed (fst (chunk_loop shouldContinue fuel
                   {| currentLine := ""; pushed := units; attached := att |}
                   (LF ++ after)))
    = (units ++ repeat "" k)%list
    /\ currentLine (fst (chunk_loop shouldContinue fuel
                           {| currentLine := ""; pushed := units; attached := att |}
                           (LF ++ after))) = "".
Proof.
  induction fuel as [|fuel IH]; intros units att after.
  - exists 0%nat. cbn. now rewrite app_nil_r.
  - pose proof (chunk_loop_LF shouldContinue fuel
                  {| currentLine := ""; pushed := units; attached := att |}
                  "" after eq_refl) as Hstep.
    change ("" ++ LF ++ after) with (LF ++ after) in Hstep.
    rewrite Hstep. cbv zeta. cbn [currentLine pushed attached String.append].
    destruct (negb _).
    + exists 1%nat. cbn. split; reflexivity.
    + destruct (IH (push units "") att after) as (k & Hk & Hcur).
      exists (S k). rewrite Hk, Hcur. split; [|reflexivity].
      unfold push. rewrite <- app_assoc. reflexivity.
Qed.

End Handler.

Lemma chunk_loop_spinning (fuel : nat) :
  forall units att after,
    chunk_loop (fun _ => true) fuel
      {| currentLine := ""; pushed := units; attached := att |} (LF ++ after)
    = ({| currentLine := ""; pushed := (units ++ repeat "" fuel)%list; attached := att |},
       Running).
Proof.
  induction fuel as [|fuel IH]; intros units att after.
  - cbn. now rewrite app_nil_r.
  - pose proof (chunk_loop_LF (fun _ => true) fuel
                  {| currentLine := ""; pushed := units; attached := att |}
                  "" after eq_refl) as Hstep.
    change ("" ++ LF ++ after) with (LF ++ after) in Hstep.
    rewrite Hstep. cbv zeta. cbn [currentLine pushed attached String.append negb].
    rewrite IH. unfold push. rewrite <- app_assoc. reflexivity.
Qed.

End LinesMore.

Section LineSplitterMore.
Import JS Spec Lines StringFacts LinesFacts LinesMore ToolboxFacts Toolbox.

(** X7.  While no chunk holds a line feed, an attached handler emits
    nothing: the chunks are appended, in order, to the pending line. *)
Theorem X7_chunks_without_line_feed
  (shouldContinue : list string -> bool) (fuel : nat)
  (cur : string) (units chunks : list string) :
  forallb no_line_feed chunks = true ->
  feed shouldContinue (S fuel)
    {| currentLine := cur; pushed := units; attached := true |} chunks
  = ({| currentLine := cur ++ fold_right String.append "" chunks;
        pushed := units;
        attached := true |}, Returned).
Proof. intros H. now apply feed_no_LF. Qed.

Lemma X7_chunks_without_line_feed_witness :
  feed (fun _ => true) 1 _read ["ab"; "cd"; "e"]
  = ({| currentLine := "abcde"; pushed := []; attached := true |}, Returned).
Proof.
  exact (X7_chunks_without_line_feed (fun _ => true) 0 "" [] ["ab"; "cd"; "e"] eq_refl).
Defined.

(** X8.  When the consumer answers [false] to the push of a unit, the
    handler has emitted exactly that unit, is detached and returns with an
    empty pending line: the text of the chunk after the line feed is
    dropped, and the chunks that arrive later change nothing. *)
Theorem X8_detach_on_backpressure
  (shouldContinue : list string -> bool) (fuel : nat)
  (cur : string) (units : list string) (before after : string) (later : list string) :
  no_line_feed before = true ->
  shouldContinue (units ++ [cur ++ before]%string)%list = false ->
  feed shouldContinue (S fuel)
    {| currentLine := cur; pushed := units; attached := true |}
    ((before ++ LF ++ after) :: later)
  = ({| currentLine := "";
        pushed := (units ++ [cur ++ before]%string)%list;
        attached := false |}, Returned).
Proof.
  intros Hbefore Hstop. cbn [feed attached]. unfold chunkHandler.
  rewrite (chunk_loop_LF _ _ _ _ _ Hbefore). cbv zeta.
  cbn [currentLine pushed attached]. unfold push. rewrite Hstop. cbn [negb].
  now apply feed_detached.
Qed.

Lemma X8_detach_on_backpressure_witness :
  feed (fun _ => false) 1 {| currentLine := "ab"; pushed := []; attached := true |}
    [("c" ++ LF ++ "de"); ("f" ++ LF)]
  = ({| currentLine := ""; pushed := ["abc"]; attached := false |}, Returned).
Proof.
  exact (X8_detach_on_backpressure (fun _ => false) 0 "ab" [] "c" "de" ["f" ++ LF]
           eq_refl eq_refl).
Defined.

(** X9.  On a chunk that holds a line feed, every unit the handler emits
    after the first one is the empty string, whatever the consumer answers
    and however long the call runs; and when the consumer always answers
    [true] the call does not return: after [n] further iterations it has
    emitted [n] empty units and is still in its loop. *)
Theorem X9_line_feed_is_not_consumed
  (shouldContinue : list string -> bool) (fuel : nat)
  (cur : string) (units : list string) (att : bool) (before after : string) :
  no_line_feed before = true ->
  (exists k,
      pushed (fst (chunkHandler shouldContinue (S fuel)
                     {| currentLine := cur; pushed := units; attached := att |}
                     (before ++ LF ++ after)))
      = (units ++ (cur ++ before)%string :: repeat "" k)%list)
  /\ chunkHandler (fun _ => true) (S fuel)
       {| currentLine := cur; pushed := units; attached := att |}
       (before ++ LF ++ after)
     = ({| currentLine := "";
           pushed := (units ++ (cur ++ before)%string :: repeat "" fuel)%list;
           attached := att |}, Running).
Proof.
  intros Hbefore. unfold chunkHandler. split.
  - rewrite (chunk_loop_LF _ _ _ _ _ Hbefore). cbv zeta.
    cbn [currentLine pushed attached]. destruct (negb _).
    + exists 0%nat. reflexivity.
    + destruct (chunk_loop_after_LF shouldContinue fuel
                  (push units (cur ++ before)) att after) as (k & Hk & _).
      exists k. rewrite Hk. unfold push. now rewrite <- app_assoc.
  - rewrite (chunk_loop_LF _ _ _ _ _ Hbefore). cbv zeta.
    cbn [currentLine pushed attached negb].
    rewrite chunk_loop_spinning. unfold push. now rewrite <- app_assoc.
Qed.

Lemma X9_line_feed_is_not_consumed_witness :
  chunkHandler (fun _ => true) 4
    {| currentLine := "ab"; pushed := []; attached := true |}
    ("c" ++ LF ++ "de")
  = ({| currentLine := "";
        pushed := ["abc"; ""; ""; ""];
        attached := true |}, Running).
Proof.
  exact (proj2 (X9_line_feed_is_not_consumed (fun _ => true) 3 "ab" [] true "c" "de"
                  eq_refl)).
Defined.

(** X10.  The completion signal settles once: after the first [error] or
    [close] event, no later event of the child changes it. *)
Theorem X10_completion_signal_settles_once
  (program : string) (trace later : list child_event) :
  completion_signal program trace <> Pending ->
  completion_signal program (trace ++ later)%list = completion_signal program trace.
Proof.
  intros H. unfold completion_signal in *. rewrite fold_left_app.
  now apply settled_stays.
Qed.

Lemma X10_completion_signal_settles_once_witness :
  completion_signal "docker-machine"
    ([ErrorEvent (Error "spawn docker-machine ENOENT")]
     ++ [CloseEvent (Some (-2)) None])%list
  = completion_signal "docker-machine" [ErrorEvent (Error "spawn docker-machine ENOENT")].
Proof.
  refine (X10_completion_signal_settles_once "docker-machine"
            [ErrorEvent (Error "spawn docker-machine ENOENT")]
            [CloseEvent (Some (-2)) None] _).
  discriminate.
Defined.

End LineSplitterMore.

(* ===================================================================== *)
(** * Further properties of the compose facade                             *)
(* ===================================================================== *)

Module ComposeMore.
Import JS JSOps Spec Vocabulary Toolbox Compose ComposeOps ComposeFacts StringFacts.

Lemma spawn_request_eq (this : DockerCompose) (command : string) (args : list jsval) :
  _spawn this command args
  = {| program := "docker-compose";
       Toolbox.args := (config_flags (_configPaths this) ++ VStr command :: args)%list;
       spawnOptions :=
         {| env := option_map Machine._env (_machine this); windowsHide := true |} |}.
Proof.
  unfold _spawn, spawnDockerCompose, _spawnDockerToolbox, config_flags.
  cbn [env]. rewrite fold_concat, flat_map_concat_map. cbn [app].
  now destruct (_machine this).
Qed.

Lemma config_flags_length (paths : list string) :
  length (config_flags paths) = (2 * length paths)%nat.
Proof.
  unfold config_flags. induction paths as [|p paths IH]; [reflexivity|].
  cbn [flat_map app length]. rewrite IH. lia.
Qed.

(** ** [kill] and [rm] *)

Lemma kill_services (this : DockerCompose) (first : string) (rest : list jsval) :
  kill this (VStr first :: rest) = Return (_spawn this "kill" (VStr first :: rest)).
Proof. reflexivity. Qed.

Lemma rm_services (this : DockerCompose) (first : string) (rest : list jsval) :
  rm this (VStr first :: rest) = Return (_spawn this "rm" (VStr first :: rest)).
Proof. reflexivity. Qed.

Lemma kill_options (this : DockerCompose) (props : list (string * jsval))
  (services : list jsval) :
  kill this (VObj props :: services)
  = (encoded <- Util.optionsToArgs
                  (if present "signal" props then without "signal" props else VObj props)
                  None ;;
     Return (_spawn this "kill"
               (map VStr encoded
                ++ (if present "signal" props
                    then [VStr "-s"; lookup "signal" props] else [])
                ++ services)%list)).
Proof.
  unfold kill, present, without.
  cbn [length Nat.ltb Nat.leb nth_arg nth typeof splice_first tl has_prop bind].
  destruct (existsb _ props); cbn [get_prop bind];
    destruct (Util.optionsToArgs _ None); cbn [bind]; try reflexivity;
    now rewrite <- app_assoc.
Qed.

Lemma rm_options (this : DockerCompose) (props : list (string * jsval))
  (services : list jsval) :
  rm this (VObj props :: services)
  = (encoded <- Util.optionsToArgs (without "removeVolumes" props) None ;;
     Return (_spawn this "rm"
               (map VStr encoded
                ++ (if truthy (lookup "removeVolumes" props) then [VStr "-v"] else [])
                ++ services)%list)).
Proof.
  unfold rm, without.
  cbn [length Nat.ltb Nat.leb nth_arg nth typeof splice_first tl get_prop bind].
  destruct (Util.optionsToArgs _ None); cbn [bind]; [|reflexivity].
  now rewrite <- app_assoc.
Qed.

(** ** [events] *)

Section WithParser.

Variable JSON_parse : string -> completion jsval.

Lemma subject_next_stopped (s : Subject) (event : jsval) :
  isStopped s = true -> subject_next s event = s.
Proof. intros H. unfold subject_next. now rewrite H. Qed.

Lemma data_loop_stopped (fuel : nat) :
  forall st chunk,
    isStopped (eventsSubject st) = true ->
    eventsSubject (fst (data_loop JSON_parse fuel st chunk)) = eventsSubject st.
Proof.
  induction fuel as [|fuel IH]; intros st chunk H; cbn [data_loop]; [reflexivity|].
  destruct (indexOf chunk Lines.LF >? -1); [|reflexivity].
  destruct (JSON_parse _) as [eventObj|e]; [|reflexivity].
  rewrite IH; cbn [eventsSubject]; rewrite (subject_next_stopped _ _ H); auto.
Qed.

Lemma events_step_stopped (fuel : nat) (st : events_run) (ev : child_event) :
  isStopped (eventsSubject st) = true ->
  eventsSubject (fst (events_step JSON_parse fuel st ev)) = eventsSubject st.
Proof.
  intros H. destruct ev; cbn [events_step fst]; try reflexivity.
  - pose proof (data_loop_stopped fuel st chunk H) as Hloop.
    destruct (data_loop JSON_parse fuel st chunk) as [st' []]; exact Hloop.
  - destruct (eventsPromise st); cbn [fst eventsSubject]; try reflexivity.
    unfold subject_error. now rewrite H.
  - destruct (eventsPromise st); cbn [fst eventsSubject]; try reflexivity.
    cbn [promise_step]. unfold on_close.
    destruct (code_is_zero code); cbn [resolve reject];
      unfold subject_complete, subject_error; now rewrite H.
Qed.

Lemma events_stopped (fuel : nat) (trace : list child_event) :
  forall st,
    isStopped (eventsSubject st) = true ->
    eventsSubject (fst (events JSON_parse fuel st trace)) = eventsSubject st.
Proof.
  induction trace as [|ev trace IH]; intros st H; cbn [events]; [reflexivity|].
  pose proof (events_step_stopped fuel st ev H) as Hstep.
  destruct (events_step JSON_parse fuel st ev) as [st' []]; cbn [fst] in Hstep |- *;
    try exact Hstep; rewrite IH; congruence.
Qed.

End WithParser.

(** ** [version] *)

Lemma trimEnd_no_trailing_whitespace (s : string) :
  ends_with_whitespace (trimEnd s) = false.
Proof.
  induction s as [|c s IH]; [reflexivity|]. cbn [trimEnd].
  destruct (trimEnd s) as [|d t].
  - destruct (is_whitespace c) eqn:Hc; cbn; [reflexivity|exact Hc].
  - exact IH.
Qed.

Lemma trimStart_no_leading_whitespace (s : string) :
  starts_with_whitespace (trimStart s) = false.
Proof.
  induction s as [|c s IH]; [reflexivity|]. cbn [trimStart].
  destruct (is_whitespace c) eqn:Hc; [exact IH|exact Hc].
Qed.

Lemma trimEnd_keeps_start (s : string) :
  starts_with_whitespace s = false -> starts_with_whitespace (trimEnd s) = false.
Proof.
  destruct s as [|c s]; [reflexivity|]. cbn [starts_with_whitespace trimEnd].
  intros Hc. destruct (trimEnd s); [now rewrite Hc|exact Hc].
Qed.

Lemma trim_no_outer_whitespace (s : string) :
  starts_with_whitespace (trim s) = false /\ ends_with_whitespace (trim s) = false.
Proof.
  unfold trim. split.
  - apply trimEnd_keeps_start, trimStart_no_leading_whitespace.
  - apply trimEnd_no_trailing_whitespace.
Qed.

Lemma version_steps_pending (options : jsval) (trace : list child_event) :
  wants_short options = true ->
  no_settling trace = true ->
  forall r, versionPromise r = Pending ->
    fold_left (version_step options) trace r
    = {| versionString := versionString r ++ stdout_text trace;
         versionPromise := Pending;
         returned := returned r |}.
Proof.
  intros Hshort. unfold no_settling.
  induction trace as [|ev trace IH]; intros H r Hr; cbn [fold_left stdout_text].
  - rewrite string_app_nil_r. destruct r; cbn in *. now subst.
  - cbn [forallb] in H. apply andb_true_iff in H as [Hev Htrace].
    destruct ev; try discriminate Hev; cbn [version_step].
    + rewrite Hshort, (IH Htrace) by assumption. cbn. now rewrite string_app_assoc.
    + now apply IH.
Qed.

Lemma version_steps_settled (options : jsval) (trace : list child_event) :
  forall r, versionPromise r <> Pending ->
    returned (fold_left (version_step options) trace r) = returned r /\
    versionPromise (fold_left (version_step options) trace r) = versionPromise r.
Proof.
  induction trace as [|ev trace IH]; intros r Hr; cbn [fold_left]; [auto|].
  assert (Hstep : returned (version_step options r ev) = returned r /\
                  versionPromise (version_step options r ev) = versionPromise r).
  { destruct ev; cbn [version_step]; auto.
    - destruct (wants_short options); auto.
    - destruct (versionPromise r) eqn:Hp; auto; congruence.
    - destruct (versionPromise r) eqn:Hp; auto; congruence. }
  destruct Hstep as [Hret Hp].
  destruct (IH (version_step options r ev)) as [Hret' Hp']; [now rewrite Hp|].
  split; congruence.
Qed.

End ComposeMore.

Section ComposeFacade.
Import JS JSOps Spec Vocabulary Toolbox Compose ComposeOps ComposeFacts ComposeMore.
Import MachineFacts.

(** X11.  Every request of the compose facade runs [docker-compose] with
    the window hidden and with the environment of the bound host handle
    (none without a handle); its arguments are [-f] and the path for each
    configuration path, in order, then the command, then the arguments of
    the command. *)
Theorem X11_spawn_request (this : DockerCompose) (command : string) (args : list jsval) :
  _spawn this command args
  = {| program := "docker-compose";
       Toolbox.args := (config_flags (_configPaths this) ++ VStr command :: args)%list;
       spawnOptions :=
         {| env := option_map Machine._env (_machine this); windowsHide := true |} |}
  /\ length (Toolbox.args (_spawn this command args))
     = (2 * length (_configPaths this) + 1 + length args)%nat.
Proof.
  split; [apply spawn_request_eq|].
  rewrite spawn_request_eq. cbn [Toolbox.args].
  rewrite length_app, config_flags_length. cbn [length]. lia.
Qed.

(** X12.  [kill] forwards every service name: called with service names
    only, it spawns [kill] followed by all of them, the first included.
    Called with an options mapping first, it spawns the encoded options,
    then, when the mapping has a [signal] property, [-s] and the signal
    (which is not encoded as a long flag), then all the service names. *)
Theorem X12_kill (this : DockerCompose) :
  (forall (first : string) (rest : list jsval),
      kill this (VStr first :: rest)
      = Return (_spawn this "kill" (VStr first :: rest)))
  /\ (forall props services encoded,
        present "signal" props = true ->
        Util.optionsToArgs (without "signal" props) None = Return encoded ->
        kill this (VObj props :: services)
        = Return (_spawn this "kill"
                    (map VStr encoded ++ [VStr "-s"; lookup "signal" props]
                     ++ services)%list))
  /\ (forall props services encoded,
        present "signal" props = false ->
        Util.optionsToArgs (VObj props) None = Return encoded ->
        kill this (VObj props :: services)
        = Return (_spawn this "kill" (map VStr encoded ++ services)%list)).
Proof.
  split; [exact (kill_services this)|]. split.
  - intros props services encoded Hsignal Henc.
    now rewrite kill_options, Hsignal, Henc.
  - intros props services encoded Hsignal Henc.
    now rewrite kill_options, Hsignal, Henc.
Qed.

Lemma X12_kill_witness :
  kill {| _machine := None; _configPaths := [] |}
    [VObj [("signal", VStr "SIGINT")]; VStr "db"; VStr "web"]
  = Return (_spawn {| _machine := None; _configPaths := [] |} "kill"
              (map VStr [] ++ [VStr "-s"; VStr "SIGINT"] ++ [VStr "db"; VStr "web"])%list).
Proof.
  exact (proj1 (proj2 (X12_kill {| _machine := None; _configPaths := [] |}))
           [("signal", VStr "SIGINT")] [VStr "db"; VStr "web"] [] eq_refl eq_refl).
Defined.

(** X13.  [rm] forwards every service name: called with service names
    only, it spawns [rm] followed by all of them.  Called with an options
    mapping first, it spawns the encoding of the mapping without
    [removeVolumes], then [-v] when [removeVolumes] is truthy, then all the
    service names; when the encoding throws, so does [rm]. *)
Theorem X13_rm (this : DockerCompose) :
  (forall (first : string) (rest : list jsval),
      rm this (VStr first :: rest) = Return (_spawn this "rm" (VStr first :: rest)))
  /\ (forall props services,
        rm this (VObj props :: services)
        = (encoded <- Util.optionsToArgs (without "removeVolumes" props) None ;;
           Return (_spawn this "rm"
                     (map VStr encoded
                      ++ (if truthy (lookup "removeVolumes" props)
                          then [VStr "-v"] else [])
                      ++ services)%list))).
Proof.
  split; [exact (rm_services this)|exact (rm_options this)].
Qed.

(** X14.  The constructor throws a [TypeError] when it is called without
    options.  With options, the facade it makes holds the given host handle
    and the given paths: the list itself when a list is given, the list of
    the one path when a non-empty string is given, and no path when the
    empty string or nothing is given.  [build()] on the facade spawns the
    [-f] flags of those paths followed by [build], with the environment of
    that handle. *)
Theorem X14_constructor :
  (exists message, constructor None = Throw (TypeError message))
  /\ (forall paths handle,
        constructor (Some {| configPath := Some (Paths paths); machine := handle |})
        = Return {| _machine := handle; _configPaths := paths |})
  /\ (forall path handle,
        path <> "" ->
        constructor (Some {| configPath := Some (OnePath path); machine := handle |})
        = Return {| _machine := handle; _configPaths := [path] |})
  /\ (forall handle,
        constructor (Some {| configPath := Some (OnePath ""); machine := handle |})
        = Return {| _machine := handle; _configPaths := [] |}
        /\ constructor (Some {| configPath := None; machine := handle |})
           = Return {| _machine := handle; _configPaths := [] |})
  /\ (forall paths handle,
        exists this request,
          constructor (Some {| configPath := Some (Paths paths); machine := handle |})
          = Return this
          /\ build this [] = Return request
          /\ args request = (config_flags paths ++ [VStr "build"])%list
          /\ env (spawnOptions request) = option_map Machine._env handle)
  /\ (forall options,
        exists this request,
          constructor (Some options) = Return this
          /\ _machine this = machine options
          /\ build this [] = Return request
          /\ args request = (config_flags (_configPaths this) ++ [VStr "build"])%list
          /\ env (spawnOptions request) = option_map Machine._env (machine options))
  /\ (forall path handle,
        constructor (Some {| configPath := Some (OnePath path); machine := handle |})
        = constructor
            (Some {| configPath := (if String.eqb path ""
                                    then None else Some (Paths [path]));
                     machine := handle |})).
Proof.
  split; [now eexists|]. split; [reflexivity|]. split.
  { intros path handle Hpath. unfold constructor. cbn [configPath machine].
    apply String.eqb_neq in Hpath. now rewrite Hpath. }
  split; [split; reflexivity|]. split.
  { intros paths handle. eexists. eexists. split; [reflexivity|].
    split; [reflexivity|]. unfold build. rewrite spawn_request_eq. split; reflexivity. }
  split.
  - intros options. eexists. eexists. split; [reflexivity|].
    split; [reflexivity|]. split; [reflexivity|].
    unfold build. rewrite spawn_request_eq. split; reflexivity.
  - intros path handle. cbn. now destruct (String.eqb path "").
Qed.

(** X15.  [events] forwards all its service names after [events --json].
    When the child closes while the stream is live, the subject sends one
    last notification, [complete] for exit code 0 and otherwise the error
    carrying the program name and the code, and stops; once the subject
    has stopped, nothing more is delivered, whatever the child still
    emits. *)
Theorem X15_event_stream_end
  (JSON_parse : string -> completion jsval) (fuel : nat) (st : events_run) :
  (forall this services,
      events_request this services
      = Return (_spawn this "events" (VStr "--json" :: services)))
  /\ (eventsPromise st = Pending ->
      isStopped (eventsSubject st) = false ->
      forall code signal,
        eventsSubject (fst (events_step JSON_parse fuel st (CloseEvent code signal)))
        = {| delivered :=
               (delivered (eventsSubject st)
                ++ [if code_is_zero code then Complete
                    else ErrorNotification
                           (Error ("docker-compose responded with non-zero code "
                                   ++ code_toString code))])%list;
             isStopped := true |})
  /\ (isStopped (eventsSubject st) = true ->
      forall trace,
        eventsSubject (fst (events JSON_parse fuel st trace)) = eventsSubject st).
Proof.
  split; [reflexivity|]. split.
  - intros Hp Hlive code signal. cbn [events_step]. rewrite Hp.
    cbn [fst eventsSubject promise_step]. unfold on_close.
    destruct (code_is_zero code); cbn [resolve reject];
      unfold subject_complete, subject_error; now rewrite Hlive.
  - intros Hstopped trace. now apply events_stopped.
Qed.

Lemma X15_event_stream_end_witness :
  eventsSubject (fst (events_step JSON.parse 1 events_start (CloseEvent (Some 1) None)))
  = {| delivered :=
         ([] ++ [ErrorNotification
                   (Error ("docker-compose responded with non-zero code " ++ "1"))])%list;
       isStopped := true |}.
Proof.
  exact (proj1 (proj2 (X15_event_stream_end JSON.parse 1 events_start))
           eq_refl eq_refl (Some 1) None).
Defined.

(** X16.  [version] spawns [version] followed by the encoded options (no
    argument at all without options).  In the short form the promise handed
    to the caller is fulfilled, when the child closes with code 0, with the
    text the child wrote to its standard output until then, trimmed: a text
    that neither begins nor ends with a whitespace character; it is
    rejected for any other exit code. *)
Theorem X16_version (options : jsval) :
  (forall this, version_request this VUndefined = Return (_spawn this "version" []))
  /\ (forall this props,
        version_request this (VObj props)
        = (encoded <- Util.optionsToArgs (VObj props) None ;;
           Return (_spawn this "version" (map VStr encoded))))
  /\ (wants_short options = true ->
      forall before after,
        no_settling before = true ->
        (forall signal,
            returned (version options (before ++ CloseEvent (Some 0) signal :: after)%list)
            = Fulfilled (VStr (trim (stdout_text before))))
        /\ starts_with_whitespace (trim (stdout_text before)) = false
        /\ ends_with_whitespace (trim (stdout_text before)) = false
        /\ (forall code signal,
              code_is_zero code = false ->
              returned (version options (before ++ CloseEvent code signal :: after)%list)
              = Rejected (Error ("docker-compose responded with non-zero code "
                                 ++ code_toString code)))).
Proof.
  split; [reflexivity|]. split.
  - intros this props. unfold version_request. cbn [or_else truthy].
    rewrite serviceCommandSpawn_options.
    destruct (Util.optionsToArgs (VObj props) None); cbn [bind]; [|reflexivity].
    now rewrite app_nil_r.
  - intros Hshort before after Hbefore.
    assert (Hrun : forall ev, settles ev = true ->
      returned (version options (before ++ ev :: after)%list)
      = promise_then (promise_step "docker-compose" Pending ev)
          (fun _ => Return (VStr (trim (stdout_text before))))).
    { intros ev Hev. unfold version.
      rewrite fold_left_app, (version_steps_pending _ _ Hshort Hbefore) by reflexivity.
      cbn [fold_left].
      match goal with |- context [fold_left _ after ?r] =>
        destruct (version_steps_settled options after r) as [-> _] end.
      - destruct ev; try discriminate Hev; cbn [version_step versionPromise];
          now apply promise_step_settles.
      - destruct ev; try discriminate Hev;
          cbn [version_step versionPromise returned versionString version_start];
          now rewrite Hshort. }
    split; [|split; [|split]].
    + intros signal. now rewrite Hrun.
    + apply trim_no_outer_whitespace.
    + apply trim_no_outer_whitespace.
    + intros code signal Hcode. rewrite Hrun by reflexivity.
      cbn [promise_step]. unfold on_close. now rewrite Hcode.
Qed.

Lemma X16_version_witness :
  returned (version (VObj [("short", VBool true)])
              ([StdoutData "1.21"; StdoutData (".2" ++ Lines.LF)]
               ++ CloseEvent (Some 0) None :: [])%list)
  = Fulfilled (VStr (trim (stdout_text [StdoutData "1.21"; StdoutData (".2" ++ Lines.LF)]))).
Proof.
  exact (proj1 (proj2 (proj2 (X16_version (VObj [("short", VBool true)])))
                  eq_refl [StdoutData "1.21"; StdoutData (".2" ++ Lines.LF)] [] eq_refl)
           None).
Defined.

End ComposeFacade.

(* ===================================================================== *)
(** * Further properties of the machine facade                             *)
(* ===================================================================== *)

Module MachineMore.
Import JS JSOps Spec Vocabulary Toolbox Machine MachineOps StringFacts.

(** ** [create] *)

Lemma open_port_loop (ports : list jsval) :
  forall acc,
    fold_left open_port_step ports acc = (acc ++ open_port_flags ports)%list.
Proof.
  unfold open_port_flags.
  induction ports as [|port ports IH]; intros acc; cbn [fold_left flat_map].
  - now rewrite app_nil_r.
  - rewrite IH. unfold open_port_step, push. now rewrite <- !app_assoc.
Qed.

(** The request of [create] for given options and special arguments. *)
Lemma create_other_driver (name driver : string) (options : jsval) :
  String.eqb driver "azure" = false ->
  create name driver options
  = (optArgs <- Util.optionsToArgs options
                  (Some {| Util.prefix := Some (driver ++ "-") |}) ;;
     Return (spawnDockerMachine
               ([VStr "create"; VStr "--driver"; VStr driver]
                ++ map VStr optArgs ++ [] ++ [VStr name])%list
               {| Toolbox.env := None; windowsHide := false |})).
Proof. intros H. unfold create. rewrite H. reflexivity. Qed.

(** ** The mapping built by [env] *)

Lemma has_own_keys (k : string) (m : IDockerMachineEnv) :
  has_own k m = true <-> In k (keys m).
Proof.
  unfold has_own, keys. rewrite existsb_exists, in_map_iff. split.
  - intros ([k' w] & Hin & Heq). cbn [fst] in Heq. apply String.eqb_eq in Heq.
    subst. now exists (k, w).
  - intros ([k' w] & Heq & Hin). cbn [fst] in Heq. subst.
    exists (k, w). split; [exact Hin|apply String.eqb_refl].
Qed.

Lemma keys_replace_value (m : IDockerMachineEnv) (k : string) (v : jsval) :
  keys (replace_value k v m) = keys m.
Proof.
  unfold keys. induction m as [|[k' w] m IH]; cbn [replace_value map fst]; [reflexivity|].
  destruct (String.eqb k' k); cbn [map fst]; [reflexivity|now rewrite IH].
Qed.

Lemma lookup_replace_value_same (m : IDockerMachineEnv) (k : string) (v : jsval) :
  In k (keys m) -> lookup k (replace_value k v m) = v.
Proof.
  unfold keys. induction m as [|[k' w] m IH]; cbn [replace_value map fst In lookup];
    [contradiction|].
  intros Hin. destruct (String.eqb_spec k' k) as [->|Hne]; cbn [lookup].
  - now rewrite String.eqb_refl.
  - apply String.eqb_neq in Hne as Hne'. rewrite Hne'.
    destruct Hin as [Heq|Hin]; [contradiction|now apply IH].
Qed.

Lemma lookup_replace_value_other (m : IDockerMachineEnv) (k k' : string) (v : jsval) :
  k' <> k -> lookup k' (replace_value k v m) = lookup k' m.
Proof.
  intros Hne. induction m as [|[k0 w] m IH]; cbn [replace_value lookup]; [reflexivity|].
  destruct (String.eqb_spec k0 k) as [->|Hk0]; cbn [lookup].
  - apply not_eq_sym, String.eqb_neq in Hne. now rewrite Hne.
  - now rewrite IH.
Qed.

Lemma keys_insert_index (m : IDockerMachineEnv) (i : Z) (k : string) (v : jsval)
  (x : string) :
  In x (keys (insert_index i k v m)) <-> x = k \/ In x (keys m).
Proof.
  unfold keys. induction m as [|[k' w] m IH]; cbn [insert_index map fst In].
  - intuition.
  - destruct (array_index k') as [j|]; [destruct (j <? i)|]; cbn [map fst In];
      rewrite ?IH; intuition.
Qed.

Lemma NoDup_insert_index (m : IDockerMachineEnv) (i : Z) (k : string) (v : jsval) :
  ~ In k (keys m) -> NoDup (keys m) -> NoDup (keys (insert_index i k v m)).
Proof.
  induction m as [|[k' w] m IH]; cbn [insert_index]; intros Hk H.
  - constructor; [intros []|constructor].
  - assert (Hcons : NoDup (keys ((k, v) :: (k', w) :: m))) by now constructor.
    destruct (array_index k') as [j|]; [destruct (j <? i)|]; try exact Hcons.
    unfold keys in *. cbn [map fst] in *.
    inversion H as [|? ? Hnotin Hnodup]; subst.
    constructor.
    + intros Hin. apply (keys_insert_index m i k v k') in Hin.
      destruct Hin as [->|Hin]; [apply Hk; now left|contradiction].
    + apply IH; [|exact Hnodup]. intros Hin. apply Hk. now right.
Qed.

Lemma lookup_insert_index_same (m : IDockerMachineEnv) (i : Z) (k : string) (v : jsval) :
  ~ In k (keys m) -> lookup k (insert_index i k v m) = v.
Proof.
  unfold keys. induction m as [|[k' w] m IH]; cbn [insert_index map fst In]; intros Hk.
  - cbn [lookup]. now rewrite String.eqb_refl.
  - destruct (array_index k') as [j|]; [destruct (j <? i)|]; cbn [lookup];
      rewrite ?String.eqb_refl; try reflexivity.
    destruct (String.eqb_spec k' k) as [->|Hne]; [exfalso; apply Hk; now left|].
    apply IH. intros Hin. apply Hk. now right.
Qed.

Lemma lookup_insert_index_other (m : IDockerMachineEnv) (i : Z) (k k' : string)
  (v : jsval) :
  k' <> k -> lookup k' (insert_index i k v m) = lookup k' m.
Proof.
  intros Hne. apply not_eq_sym, String.eqb_neq in Hne.
  induction m as [|[k0 w] m IH]; cbn [insert_index lookup].
  - now rewrite Hne.
  - destruct (array_index k0) as [j|]; [destruct (j <? i)|]; cbn [lookup];
      rewrite ?Hne, ?IH; reflexivity.
Qed.

Lemma lookup_push_same (m : IDockerMachineEnv) (k : string) (v : jsval) :
  ~ In k (keys m) -> lookup k (JS.push m (k, v)) = v.
Proof.
  unfold keys, JS.push.
  induction m as [|[k' w] m IH]; cbn [app map fst In lookup]; intros Hk.
  - now rewrite String.eqb_refl.
  - destruct (String.eqb_spec k' k) as [->|Hne]; [exfalso; apply Hk; now left|].
    apply IH. intros Hin. apply Hk. now right.
Qed.

Lemma lookup_push_other (m : IDockerMachineEnv) (k k' : string) (v : jsval) :
  k' <> k -> lookup k' (JS.push m (k, v)) = lookup k' m.
Proof.
  intros Hne. apply not_eq_sym, String.eqb_neq in Hne. unfold JS.push.
  induction m as [|[k0 w] m IH]; cbn [app lookup].
  - now rewrite Hne.
  - now rewrite IH.
Qed.

Lemma NoDup_push (m : IDockerMachineEnv) (k : string) (v : jsval) :
  ~ In k (keys m) -> NoDup (keys m) -> NoDup (keys (JS.push m (k, v))).
Proof.
  unfold keys, JS.push. rewrite map_app. cbn [map fst]. intros Hk H.
  apply NoDup_app; [exact H|constructor; [intros []|constructor]|].
  intros x Hx [<-|[]]. contradiction.
Qed.

(** What [machineEnv[envVar] = envValue] does to the keys and to the
    values. *)
Lemma keys_assign (m : IDockerMachineEnv) (envVar envValue : option string) (x : string) :
  In x (keys (assign m envVar envValue)) ->
  In x (keys m) \/ (x = property_key envVar /\ x <> "__proto__").
Proof.
  unfold assign, define_property.
  destruct (String.eqb_spec (property_key envVar) "__proto__") as [Hproto|Hproto];
    [now left|].
  destruct (has_own (property_key envVar) m) eqn:Hown.
  - rewrite keys_replace_value. now left.
  - destruct (array_index (property_key envVar)) as [i|].
    + rewrite keys_insert_index. intros [->|Hin]; auto.
    + unfold keys, JS.push. rewrite map_app, in_app_iff. cbn [map fst In].
      intros [Hin|[<-|[]]]; auto.
Qed.

Lemma NoDup_assign (m : IDockerMachineEnv) (envVar envValue : option string) :
  NoDup (keys m) -> NoDup (keys (assign m envVar envValue)).
Proof.
  intros H. unfold assign, define_property.
  destruct (String.eqb (property_key envVar) "__proto__"); [exact H|].
  destruct (has_own (property_key envVar) m) eqn:Hown.
  - now rewrite keys_replace_value.
  - assert (Hk : ~ In (property_key envVar) (keys m)).
    { rewrite <- has_own_keys, Hown. discriminate. }
    destruct (array_index (property_key envVar)) as [i|].
    + now apply NoDup_insert_index.
    + now apply NoDup_push.
Qed.

Lemma lookup_assign_same (m : IDockerMachineEnv) (envVar envValue : option string) :
  property_key envVar <> "__proto__" ->
  lookup (property_key envVar) (assign m envVar envValue) = group_value envValue.
Proof.
  intros Hproto. unfold assign, define_property. apply String.eqb_neq in Hproto. rewrite Hproto.
  destruct (has_own (property_key envVar) m) eqn:Hown.
  - apply lookup_replace_value_same. now apply has_own_keys.
  - assert (Hk : ~ In (property_key envVar) (keys m)).
    { rewrite <- has_own_keys, Hown. discriminate. }
    destruct (array_index (property_key envVar)) as [i|].
    + now apply lookup_insert_index_same.
    + now apply lookup_push_same.
Qed.

Lemma lookup_assign_other (m : IDockerMachineEnv) (envVar envValue : option string)
  (variable : string) :
  variable <> property_key envVar ->
  lookup variable (assign m envVar envValue) = lookup variable m.
Proof.
  intros Hne. unfold assign, define_property.
  destruct (String.eqb (property_key envVar) "__proto__"); [reflexivity|].
  destruct (has_own (property_key envVar) m).
  - now apply lookup_replace_value_other.
  - destruct (array_index (property_key envVar)) as [i|].
    + now apply lookup_insert_index_other.
    + now apply lookup_push_other.
Qed.

Section WithEngine.

Variable engine : RegExpEngine.

Lemma NoDup_match_line (regExp : RegExp engine) (m : IDockerMachineEnv) (line : string) :
  NoDup (keys m) -> NoDup (keys (match_line engine regExp m line)).
Proof.
  intros H. unfold match_line.
  destruct (String_match engine line regExp) as [groups|]; [|exact H].
  destruct (2 <? length groups)%nat; [|exact H].
  now apply NoDup_assign.
Qed.

Lemma no_proto_match_line (regExp : RegExp engine) (m : IDockerMachineEnv) (line : string) :
  ~ In "__proto__" (keys m) -> ~ In "__proto__" (keys (match_line engine regExp m line)).
Proof.
  intros H. unfold match_line.
  destruct (String_match engine line regExp) as [groups|]; [|exact H].
  destruct (2 <? length groups)%nat; [|exact H].
  intros Hin. apply keys_assign in Hin. destruct Hin as [Hin|[_ Hne]]; auto.
Qed.

Lemma match_lines_keys (regExp : RegExp engine) (lines : list string) :
  forall m, NoDup (keys m) /\ ~ In "__proto__" (keys m) ->
    NoDup (keys (fold_left (match_line engine regExp) lines m))
    /\ ~ In "__proto__" (keys (fold_left (match_line engine regExp) lines m)).
Proof.
  induction lines as [|line lines IH]; intros m [H Hproto]; cbn [fold_left]; [auto|].
  apply IH. split; [now apply NoDup_match_line|now apply no_proto_match_line].
Qed.

Lemma empty_keys : NoDup (keys []) /\ ~ In "__proto__" (keys []).
Proof. split; [constructor|intros []]. Qed.

End WithEngine.

(** ** The pattern [env] derives *)

Lemma substring_skip (a b : string) (n : nat) :
  String.substring (String.length a) n (a ++ b) = String.substring 0 n b.
Proof. induction a as [|c a IH]; [reflexivity|exact IH]. Qed.

Lemma substring_middle (a b c : string) :
  String.substring (String.length a) (String.length b) (a ++ b ++ c) = b.
Proof. rewrite substring_skip. apply substring_prefix. Qed.

Lemma JS_substring_middle (a b c : string) :
  substring (a ++ b ++ c)
    (Z.of_nat (String.length a)) (Z.of_nat (String.length a + String.length b)) = b.
Proof.
  unfold substring, strlen. rewrite !length_app.
  replace (Z.to_nat (Z.min _ _)) with (String.length a) by lia.
  replace (Z.to_nat (_ - _)) with (String.length b) by lia.
  apply substring_middle.
Qed.

End MachineMore.

Section MachineFacade.
Import JS JSOps Spec Vocabulary Toolbox Machine MachineOps StringFacts MachineMore.
Import UtilFacts.

(** X17.  For a driver other than [azure], [create] spawns
    [docker-machine create --driver <driver>], the options encoded with the
    prefix [<driver>-], and the machine name last; every key is encoded
    under that prefix, [openPort] included, so an option [key: true] gives
    the flag [--<driver>-<hyphenated key>].  When the encoding throws,
    [create] throws the same error and makes no request. *)
Theorem X17_create (name driver : string) (props : list (string * jsval)) :
  String.eqb driver "azure" = false ->
  (forall optArgs,
      Util.optionsToArgs (VObj props) (Some {| Util.prefix := Some (driver ++ "-") |})
      = Return optArgs ->
      create name driver (VObj props)
      = Return
          {| program := "docker-machine";
             args := ([VStr "create"; VStr "--driver"; VStr driver]
                      ++ map VStr optArgs ++ [VStr name])%list;
             spawnOptions := {| Toolbox.env := None; windowsHide := true |} |})
  /\ (forall e,
        Util.optionsToArgs (VObj props) (Some {| Util.prefix := Some (driver ++ "-") |})
        = Throw e ->
        create name driver (VObj props) = Throw e)
  /\ (forall key,
        create name driver (VObj [(key, VBool true)])
        = Return
            {| program := "docker-machine";
               args := [VStr "create"; VStr "--driver"; VStr driver;
                        VStr ("--" ++ driver ++ "-" ++ hyphenated key); VStr name];
               spawnOptions := {| Toolbox.env := None; windowsHide := true |} |}).
Proof.
  intros Hdriver. split; [|split].
  - intros optArgs Henc. rewrite (create_other_driver _ _ _ Hdriver), Henc. reflexivity.
  - intros e Henc. rewrite (create_other_driver _ _ _ Hdriver), Henc. reflexivity.
  - intros key. rewrite (create_other_driver _ _ _ Hdriver).
    unfold Util.optionsToArgs. cbn [for_in for_each Util.outer_step Util.prefix_of bind].
    rewrite optKey_of_flag_token. unfold flag_token.
    rewrite string_app_assoc. reflexivity.
Qed.

Lemma X17_create_witness :
  create "node-docker-toolbox-ava-test" "digitalocean"
    (VObj [("accessToken", VStr "fake-token-this-will-fail")])
  = Return
      {| program := "docker-machine";
         args := ([VStr "create"; VStr "--driver"; VStr "digitalocean"]
                  ++ map VStr ["--digitalocean-access-token"; "fake-token-this-will-fail"]
                  ++ [VStr "node-docker-toolbox-ava-test"])%list;
         spawnOptions := {| Toolbox.env := None; windowsHide := true |} |}.
Proof.
  exact (proj1 (X17_create "node-docker-toolbox-ava-test" "digitalocean"
                  [("accessToken", VStr "fake-token-this-will-fail")] eq_refl)
           ["--digitalocean-access-token"; "fake-token-this-will-fail"] eq_refl).
Defined.

(** X18.  For the driver [azure], an [openPort] property is taken out of
    the options before they are encoded (under the prefix [azure-]) and put
    after the encoded options, before the machine name, as [--open-port]
    followed by the port: once per element, in order, when it is a
    sequence, once otherwise.  Without an [openPort] property nothing is
    added. *)
Theorem X18_create_azure_open_port (name : string) (props : list (string * jsval)) :
  (present "openPort" props = true ->
   forall optArgs,
     Util.optionsToArgs (without "openPort" props) (Some {| Util.prefix := Some "azure-" |})
     = Return optArgs ->
     create name "azure" (VObj props)
     = Return
         {| program := "docker-machine";
            args := ([VStr "create"; VStr "--driver"; VStr "azure"]
                     ++ map VStr optArgs
                     ++ match lookup "openPort" props with
                        | VArr ports => open_port_flags ports
                        | port => [VStr "--open-port"; port]
                        end
                     ++ [VStr name])%list;
            spawnOptions := {| Toolbox.env := None; windowsHide := true |} |})
  /\ (present "openPort" props = false ->
      forall optArgs,
        Util.optionsToArgs (VObj props) (Some {| Util.prefix := Some "azure-" |})
        = Return optArgs ->
        create name "azure" (VObj props)
        = Return
            {| program := "docker-machine";
               args := ([VStr "create"; VStr "--driver"; VStr "azure"]
                        ++ map VStr optArgs ++ [VStr name])%list;
               spawnOptions := {| Toolbox.env := None; windowsHide := true |} |}).
Proof.
  split.
  - intros Hpresent optArgs Henc. unfold create, present, without in *.
    cbn [String.eqb Ascii.eqb Bool.eqb has_prop bind]. rewrite Hpresent.
    cbn [get_prop bind].
    destruct (lookup "openPort" props) as [| |b|n|s|ports|inner];
      cbn [bind]; change ("azure" ++ "-") with "azure-"; rewrite Henc; cbn [bind];
      try reflexivity.
    rewrite open_port_loop. reflexivity.
  - intros Habsent optArgs Henc. unfold create, present in *.
    cbn [String.eqb Ascii.eqb Bool.eqb has_prop bind]. rewrite Habsent.
    cbn [bind]. change ("azure" ++ "-") with "azure-". rewrite Henc. reflexivity.
Qed.

Lemma X18_create_azure_open_port_witness :
  create "m1" "azure"
    (VObj [("subscriptionId", VStr "sub"); ("openPort", VArr [VNum 80; VNum 443])])
  = Return
      {| program := "docker-machine";
         args := ([VStr "create"; VStr "--driver"; VStr "azure"]
                  ++ map VStr ["--azure-subscription-id"; "sub"]
                  ++ match lookup "openPort"
                             [("subscriptionId", VStr "sub");
                              ("openPort", VArr [VNum 80; VNum 443])] with
                     | VArr ports => open_port_flags ports
                     | port => [VStr "--open-port"; port]
                     end
                  ++ [VStr "m1"])%list;
         spawnOptions := {| Toolbox.env := None; windowsHide := true |} |}.
Proof.
  exact (proj1 (X18_create_azure_open_port "m1"
                  [("subscriptionId", VStr "sub"); ("openPort", VArr [VNum 80; VNum 443])])
           eq_refl ["--azure-subscription-id"; "sub"] eq_refl).
Defined.

(** X19.  Whatever the regular-expression engine answers, the mapping the
    loop of [env] builds holds each variable once and never the name
    [__proto__].  A line that matches with two groups sets the variable
    named by the first group to the second group, replacing an earlier
    value, and leaves every other variable as it was; when the first group
    is [__proto__] the line changes nothing, as does a line that does not
    match. *)
Theorem X19_env_mapping
  (engine : RegExpEngine) (regExp : RegExp engine) (lines : list string) :
  (NoDup (keys (fold_left (match_line engine regExp) lines []))
   /\ ~ In "__proto__" (keys (fold_left (match_line engine regExp) lines [])))
  /\ (forall name out,
        match parse_env engine name out with
        | Return mapping => NoDup (keys mapping) /\ ~ In "__proto__" (keys mapping)
        | Throw _ => True
        end)
  /\ (forall mapping line,
        match String_match engine line regExp with
        | Some groups =>
            if (2 <? length groups)%nat then
              if String.eqb (property_key (group groups 1)) "__proto__"
              then match_line engine regExp mapping line = mapping
              else
                lookup (property_key (group groups 1))
                  (match_line engine regExp mapping line)
                = group_value (group groups 2)
                /\ forall variable,
                     variable <> property_key (group groups 1) ->
                     lookup variable (match_line engine regExp mapping line)
                     = lookup variable mapping
            else match_line engine regExp mapping line = mapping
        | None => match_line engine regExp mapping line = mapping
        end).
Proof.
  split; [|split].
  - apply match_lines_keys, empty_keys.
  - intros name out. unfold parse_env.
    destruct (find _ (split_lines out)) as [test|]; [|exact I].
    destruct (new_RegExp engine _ "i") as [re|e]; cbn [bind]; [|exact I].
    apply match_lines_keys, empty_keys.
  - intros mapping line. unfold match_line.
    destruct (String_match engine line regExp) as [groups|]; [|reflexivity].
    destruct (2 <? length groups)%nat; [|reflexivity].
    destruct (String.eqb_spec (property_key (group groups 1)) "__proto__") as [Hp|Hp].
    + unfold assign. rewrite Hp. reflexivity.
    + split.
      * now apply lookup_assign_same.
      * intros variable Hne. now apply lookup_assign_other.
Qed.

(** X20.  When the marker line reads [pre], [DOCKER_MACHINE_NAME], [mid],
    the machine name and [post], these being the first occurrences of the
    marker and of the name on that line, the pattern [env] compiles, without
    regard to case, is [pre], [([a-z_]+)], [mid], [(.*?)], [post] and [$]:
    the texts around the two anchors enter the pattern as they are, nothing
    in them being escaped.  When the engine refuses the pattern, [env]
    throws the engine's error; otherwise its result is the mapping the loop
    builds over all the lines. *)
Theorem X20_env_pattern
  (engine : RegExpEngine) (name out test pre mid post : string) :
  find (fun line => indexOf line DOCKER_MACHINE_NAME >? -1) (split_lines out) = Some test ->
  test = pre ++ DOCKER_MACHINE_NAME ++ mid ++ name ++ post ->
  indexOf test DOCKER_MACHINE_NAME = Z.of_nat (String.length pre) ->
  indexOf test name
  = Z.of_nat (String.length (pre ++ DOCKER_MACHINE_NAME) + String.length mid) ->
  parse_env engine name out
  = (regExp <- new_RegExp engine
                 (pre ++ "([a-z_]+)" ++ mid ++ "(.*?)" ++ post ++ "$") "i" ;;
     Return (fold_left (match_line engine regExp) (split_lines out) [])).
Proof.
  intros Hfind Htest Hmarker Hname. unfold parse_env. rewrite Hfind, Hmarker, Hname.
  assert (Hpre : substr test 0 (Z.of_nat (String.length pre)) = pre).
  { rewrite Htest. apply substr_before. }
  assert (Hmid : substring test (Z.of_nat (String.length pre) + strlen DOCKER_MACHINE_NAME)
                   (Z.of_nat (String.length (pre ++ DOCKER_MACHINE_NAME) + String.length mid))
                 = mid).
  { rewrite Htest.
    replace (pre ++ DOCKER_MACHINE_NAME ++ mid ++ name ++ post)
      with ((pre ++ DOCKER_MACHINE_NAME) ++ mid ++ name ++ post)
      by apply string_app_assoc.
    replace (Z.of_nat (String.length pre) + strlen DOCKER_MACHINE_NAME)
      with (Z.of_nat (String.length (pre ++ DOCKER_MACHINE_NAME)))
      by (rewrite length_app; unfold strlen; lia).
    apply JS_substring_middle. }
  assert (Hpost : substr_from test
                    (Z.of_nat (String.length (pre ++ DOCKER_MACHINE_NAME) + String.length mid)
                     + strlen name) = post).
  { rewrite Htest.
    replace (pre ++ DOCKER_MACHINE_NAME ++ mid ++ name ++ post)
      with ((((pre ++ DOCKER_MACHINE_NAME) ++ mid) ++ name) ++ post)
      by (now rewrite !string_app_assoc).
    replace (Z.of_nat (String.length (pre ++ DOCKER_MACHINE_NAME) + String.length mid)
             + strlen name)
      with (Z.of_nat (String.length (((pre ++ DOCKER_MACHINE_NAME) ++ mid) ++ name)))
      by (rewrite !length_app; unfold strlen; lia).
    apply substr_from_after. }
  rewrite Hpre, Hmid, Hpost. reflexivity.
Qed.

Lemma X20_env_pattern_witness :
  parse_env refusing_engine "test-machine"
    ("export DOCKER_HOST=" ++ in_quotes "tcp://10.0.0.1:2376" ++ newline
     ++ "export DOCKER_MACHINE_NAME=" ++ in_quotes "test-machine" ++ newline)
  = (regExp <- new_RegExp refusing_engine
                 ("export " ++ "([a-z_]+)" ++ ("=" ++ dquote) ++ "(.*?)" ++ dquote ++ "$")
                 "i" ;;
     Return (fold_left (match_line refusing_engine regExp)
               (split_lines
                  ("export DOCKER_HOST=" ++ in_quotes "tcp://10.0.0.1:2376" ++ newline
                   ++ "export DOCKER_MACHINE_NAME=" ++ in_quotes "test-machine"
                   ++ newline)) [])).
Proof.
  exact (X20_env_pattern refusing_engine "test-machine"
           ("export DOCKER_HOST=" ++ in_quotes "tcp://10.0.0.1:2376" ++ newline
            ++ "export DOCKER_MACHINE_NAME=" ++ in_quotes "test-machine" ++ newline)
           ("export DOCKER_MACHINE_NAME=" ++ in_quotes "test-machine")
           "export " ("=" ++ dquote) dquote
           eq_refl eq_refl eq_refl eq_refl).
Defined.

End MachineFacade.

(* ===================================================================== *)
(** * Further properties of the dispatcher and of the event decoder        *)
(* ===================================================================== *)

Section DispatcherMore.
Import JS Spec Vocabulary Toolbox Compose ComposeFacts UtilFacts EventsFacts StringFacts.

(** X21.  Whatever its arguments are, [_serviceCommandSpawn] makes a
    request or throws an error of the encoder (its validation error, or the
    [TypeError] of a conversion to a string that fails), and nothing else;
    when every conversion the leading mapping asks for succeeds, the
    validation error is the only error.  When its first argument is a
    string, or a value without enumerable properties ([undefined], [null],
    a boolean, a number, an empty mapping), it always makes the request,
    with the arguments after the first one. *)
Theorem X21_dispatcher_errors (this : DockerCompose) (command : string) :
  (forall args, encoder_only (_serviceCommandSpawn this command args))
  /\ (forall props rest,
        convertible props = true ->
        validation_only (_serviceCommandSpawn this command (VObj props :: rest)))
  /\ (forall first rest,
        typeof first = TString \/ for_in first = [] ->
        _serviceCommandSpawn this command (first :: rest)
        = Return (_spawn this command rest)).
Proof.
  split; [|split].
  - intros args. unfold _serviceCommandSpawn.
    destruct (0 <? length args)%nat.
    + destruct (typeof (nth_arg args 0));
        match goal with |- context [Util.optionsToArgs ?o None] =>
          pose proof (optionsToArgs_only o None) as Honly;
          destruct (Util.optionsToArgs o None) as [tokens|e]; [exact I|exact Honly]
        end.
    + exact I.
  - intros props rest Hconv. rewrite serviceCommandSpawn_options.
    pose proof (optionsToArgs_validation props None Hconv) as Honly.
    destruct (Util.optionsToArgs (VObj props) None) as [tokens|e]; [exact I|exact Honly].
  - intros first rest [Hstring|Hnone].
    + destruct first; try discriminate Hstring. reflexivity.
    + unfold _serviceCommandSpawn.
      cbn [length Nat.ltb Nat.leb nth_arg nth splice_first tl].
      destruct (typeof first); unfold Util.optionsToArgs; rewrite ?Hnone; reflexivity.
Qed.

Lemma X21_dispatcher_errors_witness :
  _serviceCommandSpawn {| _machine := None; _configPaths := [] |} "up"
    [VUndefined; VStr "db"]
  = Return (_spawn {| _machine := None; _configPaths := [] |} "up" [VStr "db"]).
Proof.
  exact (proj2 (proj2 (X21_dispatcher_errors {| _machine := None; _configPaths := [] |} "up"))
           VUndefined [VStr "db"] (or_intror eq_refl)).
Defined.

(** X22.  In [events], the line feed that ends a line is not taken out of
    the chunk: after a line that parses, the listener parses the empty
    text next.  With a [JSON.parse] that throws on the empty text, a chunk
    that completes a well-formed line delivers that one record and then
    leaves the listener with that exception, the text after the line feed
    being neither parsed nor kept. *)
Theorem X22_events_after_a_line
  (JSON_parse : string -> completion jsval) (fuel : nat)
  (st : events_run) (line rest : string) (event : jsval) (e : exn) :
  no_line_feed line = true ->
  JSON_parse (currentLine st ++ line) = Return event ->
  JSON_parse "" = Throw e ->
  events_step JSON_parse (S (S fuel)) st (StdoutData (line ++ Lines.LF ++ rest))
  = ({| eventsSubject := subject_next (eventsSubject st) event;
        currentLine := "";
        eventsPromise := eventsPromise st;
        uncaught := JS.push (uncaught st) e |}, Threw e).
Proof.
  intros Hline Hparse Hempty. cbn [events_step].
  rewrite (data_loop_LF _ _ _ _ _ Hline), Hparse.
  pose proof (data_loop_LF JSON_parse fuel
                {| eventsSubject := subject_next (eventsSubject st) event;
                   currentLine := "";
                   eventsPromise := eventsPromise st;
                   uncaught := uncaught st |} "" rest eq_refl) as Hstep.
  change ("" ++ Lines.LF ++ rest) with (Lines.LF ++ rest) in Hstep.
  cbn [currentLine String.append] in Hstep. rewrite Hempty in Hstep.
  rewrite Hstep. reflexivity.
Qed.

Lemma X22_events_after_a_line_witness :
  events_step JSON.parse 2 events_start
    (StdoutData (example_line ++ Lines.LF ++ example_line))
  = ({| eventsSubject := subject_next (eventsSubject events_start) example_event;
        currentLine := "";
        eventsPromise := eventsPromise events_start;
        uncaught := JS.push (uncaught events_start)
                      (SyntaxError "Unexpected token in JSON") |},
     Threw (SyntaxError "Unexpected token in JSON")).
Proof.
  exact (X22_events_after_a_line JSON.parse 0 events_start example_line example_line
           example_event (SyntaxError "Unexpected token in JSON")
           example_line_no_LF example_line_parses eq_refl).
Defined.

End DispatcherMore.
